(* ===== verification/_CoqProject ===== *)
-Q . S2P
Prelude.v
Unicode.v
Codec.v
Decoder.v
Path.v
Text.v
Fs.v
Scan.v
Fix.v
Walk.v
ScanDirectory.v
Main.v
