(* ===== verification/Prelude.v ===== *)
(** * A verified model of [fix_utf8.py]

    The program ([src/fix_utf8.py], 138 lines of Python) scans a directory
    tree for files that are not valid UTF-8, prints the first offending
    position with a hex dump of the bytes around it, and with [--fix]
    rewrites each offending file through Python's lossy decoder after
    saving the original bytes in [<path>.bak].

    ** The program's parts and how they interact

    - [scan_file] (lines 6-33) reads a file and calls
      [bytes.decode('utf-8')] (line 14); on [UnicodeDecodeError] it builds
      an issue record from the error's [start]/[end] and a 20-byte window
      of context rendered as hex (lines 18-31); any other exception
      becomes an access issue (line 33).
    - [fix_file] (lines 35-55) reads the file, decodes it with
      [errors='replace'] (line 42), writes the original bytes to
      [path + '.bak'] (lines 45-47), then writes the repaired text back
      through a UTF-8 text stream (lines 50-51); any exception becomes an
      error status (lines 54-55).
    - [scan_directory] (lines 57-101) walks the tree with [os.walk],
      prunes [node_modules] and [.git], filters by extension, counts
      scanned files, skips files over 5 MiB, and accumulates a results
      dictionary, printing a feedback line for each problem as it is
      found (lines 97-99); [main] (lines 103-136) parses the options and
      prints a header and a summary.
    - Every [print] encodes its text for standard output.  File names
      come from [os.walk] as [str] decoded with [surrogateescape], so a
      name that is not valid UTF-8 holds lone surrogates, and [print]
      raises [UnicodeEncodeError] on it under a UTF-8 locale (the
      [strict] handler Python uses for [sys.stdout] outside the C/POSIX
      locale, which is the setting the development assumes).  Nothing
      catches that exception: it ends the program.
    - All of the UTF-8 semantics lives in CPython's codec, which the
      program calls at lines 14, 42 and 51: its decoder
      ([Objects/stringlib/codecs.h], [utf8_decode], and the error
      driver of [unicode_decode_utf8]) and its encoder ([utf8_encoder]).
      The codec is therefore modelled exactly, branch by branch, because
      it is what decides every behaviour of the program.

    ** Files of the development (in dependency order)

    - [Prelude] (this file): bytes as [Byte.byte] with their value [bv] in
      [Z] and [byte_of] back, the [result] type, lemmas on bit operations
      ([lor_low_add]) and lists, the [utf8] hint databases and the tactics
      [byte_bounds] and [zbool].
    - [Unicode]: the specification, independent of CPython: scalar values,
      Table 3-7 of the Unicode standard transcribed row by row
      ([table_3_7], [wf_seq], [wf_prefix]), the inductive [valid_utf8],
      and the maximal subpart of Unicode's definition D93b; the tactics
      [bool_lia], [bfalse], [btrue] that decide the table's tests.
    - [Codec] (Module [Codec]): one round of CPython's decoder
      [utf8_step] (branch for branch [utf8_decode] of
      [Objects/stringlib/codecs.h]) and one character of its encoder
      [encode_char] ([utf8_encoder]); lemmas on one round.
    - [Decoder] (Module [Decoder]): the driver loop [decode_loop] of
      [unicode_decode_utf8] with the handlers [Strict] (line 14) and
      [Replace] (line 42), its entry point [decode_utf8], and the string
      encoder [encode_str] (line 51).  Theorems C1-C3, C24-C29, C39.
    - [Path] (Module [Path]): [os.path.join] ([path_join]), [str.endswith]
      ([ends_with]) and the split of a path at its last separator
      ([parent_key], [base_name]; [dir_key] is the prefix shared by the
      children of a directory, the same for [r] and [r/]), with the
      string lemmas the other files use.
    - [Text] (Module [Text]): a printed [str] as the bytes it was decoded
      from ([text_bytes]); [utf8_text] says it encodes (holds no
      surrogate), [py_repr_str] is [repr] with its [\udcXX] escapes, which
      always encodes; [hex2] is [f'{b:02x}'].  Hint database [text].
    - [Fs] (Module [Fs]): the file operations as an interface
      [FileStore] with laws [FileStoreLaws]: what a read returns, what a
      write leaves on disk, that a write touches one path and changes
      the listing of its own directory only ([listdir_write_frame]), that
      [os.scandir] lists plain names, and a ranking [fs_rank] that
      decreases from a directory to its listed sub-directories.  Also
      the exceptions [exn] with their [str()] (an [OSError] names its file
      through [repr] only when the failing call was given one: [open],
      [getsize], [scandir]; not [read] or [write]), the
      state-and-exception monad [M] with [catch] for [try/except], the
      program's I/O calls [read_bytes], [write_bytes], [write_text],
      [getsize], [listdir], and [print] ([fs_print] appends to the
      standard output [fs_stdout]; [print] raises [PrintErr] on the first
      part of its f-string that does not encode), [print_lines] for
      consecutive prints, [disk_eq] (equal but for what was printed), and
      a concrete store on stdpp's [gmap] and [gset] (files, directories,
      injected read and write faults; a directory lists the [elements]
      of the set of its children) that satisfies the laws.
    - [Scan] (Module [Scan]): [scan_file] (lines 6-33) with
      [context_window], [py_slice], [hex_repr] and [str_decode_error]
      ([str(UnicodeDecodeError)]).  Theorems C7, C8, C36-C38.
    - [Fix] (Module [Fix]): [fix_file] (lines 35-55) with [backup_path]
      and [replace_text].  Theorems C4-C6 and C30, proved against
      [FileStoreLaws] only, so they hold for any file system meeting the
      laws; the witnesses run on the concrete store.
    - [Walk] (Module [Walk]): the loop of [scan_directory] over a listing
      given in advance.  [dir_tree] is a listing (files and named
      sub-directories in listing order); [walk] is the top-down traversal
      with the pruning [prune] of lines 63-66 applied before descending,
      [scan_files] the loop of line 68 and [scan_one] its body (filter
      [ext_ok], count [count_scanned], the size check with its bare
      [except], [scan_file], [fix_file], [add_problem], the feedback
      prints [feedback_lines]), all in the monad [M] over any
      [FileStore]; [scan_tree] starts it with the results of line 59.
      [walk_paths] is the list of files the walk handles,
      [tree_candidates] the fuel-free specification of that list, and the
      combinator [runs_ok] (raises nothing but [PrintErr] on one of the
      paths, which is not valid UTF-8; changes no file in scan mode;
      extends the results over a list of paths) carries the proofs;
      [report], [scan_results] and [scan_spec] give scan mode exactly, and
      [results_wf] is the invariant of the counters that every step
      keeps ([preserves_wf], hint database [walk_wf]).
      Theorems C15-C20 and C31.
    - [ScanDirectory] (Module [ScanDirectory]): [scan_directory] (lines
      57-101) as it runs.  [os_walk] lists each directory from the store
      when [os.walk] reaches it (skipping it on [OSError]), runs
      [Walk.scan_files] on its files, prunes [dirs] by name
      ([prune_names], [list.remove]) and walks the rest in order
      ([walk_each]).  [tree_of] is the listing the store shows before the
      run and [walk_dirs] the directories a walk reaches; [keeps] states
      that a computation leaves the listing of a directory unchanged,
      from which the run is proved equal to [Walk.scan_tree] on the
      listing taken at its start.  Theorems C9-C13, C21-C23, C40.
    - [Main] (Module [Main]): [main] (lines 103-136): the extension list
      of line 110 ([parse_extensions], [py_split]), the header prints
      ([header_lines]), the call to [scan_directory] and the summary
      prints ([summary_lines], [problem_lines]), each print given as the
      parts of its f-string.  Theorems C14, C32-C35.

    ** What the theorems show

    - The codec refines Unicode: strict decoding succeeds exactly on
      valid UTF-8 (C1); a reported error starts at the first ill-formed
      offset and spans the maximal subpart (C2); decoder and encoder are
      inverse (C24, C25); the lossy text is the valid prefix, one U+FFFD
      per maximal subpart, and the rest (C3); re-encoding it never fails
      and yields valid UTF-8 (C26), is the identity on valid input (C28)
      and is idempotent (C29); the loop terminates (C39); every text it
      returns is made of Unicode scalar values (C27).
    - [scan_file]: no issue iff the file is valid (C7); the reported
      position is the first error with Python's message (C8); the hex
      window is within 20 bytes of the error and clamped only by the file
      (C36) and parses back to its bytes (C37); read errors give the
      access issue (C38).
    - [fix_file]: a failed backup leaves the file untouched (C4); the
      file never changes without a backup of its original bytes (C5); a
      ["fixed"] result leaves the original in [.bak] and valid UTF-8 in
      the file (C6), which then scans clean (C30).
    - [scan_directory]: it always returns or raises the
      [UnicodeEncodeError] of a feedback print on a path that is not
      valid UTF-8, nothing else, and changes no file in scan mode (C9);
      such a path, if it names a bad file, does stop the run (C23); its
      counters agree with its problems list (C11); it does what
      the walk of the listing taken at its start does (C12), so a file it
      creates, such as a [.bak], is never scanned in the same run (C13);
      an unlistable directory gives zero counts (C21); its depth bound is
      enough (C22).  In scan mode it reports every bad file listed in a
      directory it reaches, with its issue (C10); in every run
      [files_fixed <= issues_found <= files_scanned] and [issues_found]
      counts the problems (C40).  On a listing: scan mode
      returns, in [os.walk] order, exactly the candidates [scan_file]
      finds an issue in, after printing their feedback (C15);
      [files_scanned] counts every filtered
      file outside the pruned directories, read or not (C16), because a
      file whose size is unknown or too large is counted and then skipped
      (C17); pruned directories have no effect (C18); problems are only
      about such files (C19), and in scan mode only about files of at
      most 5 MiB and with no change but the printed feedback (C20); the
      filter is raw suffix matching (C31).
    - [main]: in scan mode, when the paths it handles are valid UTF-8, it
      prints the message and the entry of every such bad file (C14); it
      raises nothing but [UnicodeEncodeError], and when it returns it
      prints a count equal to the number of problems [scan_directory]
      returned, lists each, with a fix status for each in fix mode
      (C32); a missing directory is reported as an empty scan (C33); a
      trailing comma in [-e] disables the filter (C34); line 110 splits
      the option at every comma and nowhere else (C35).

    ** Bounds and fuel

    The decoder's loop is a [Fixpoint] on a fuel argument; the entry
    point gives it [S (length s)] rounds, which is enough because every
    round consumes at least one byte ([Decoder.decode_loop_some],
    [Decoder.decode_loop_fuel]).  [ScanDirectory.os_walk] recurses on a
    depth bound; [scan_directory] gives it [S (fs_rank s directory)],
    which is enough because a listed sub-directory ranks lower than its
    parent ([rank_child]; in the concrete store the rank is the length
    of the longest directory path minus the length of the path), so the
    listing does not grow with more fuel ([ScanDirectory.tree_of_fuel])
    and neither does the run (C22).  [Walk.walk] gets the height of its
    listing, which is enough ([Walk.walk_fuel_irrelevant],
    [Walk.walk_paths_candidates]).  Byte values are kept in [0, 256) by
    the type [Byte.byte]; code points are [Z], with Python's range
    [0, 0x10FFFF] as the hypothesis [is_code_point] where it matters;
    counters and sizes are [nat], as Python's integers do not overflow.

    ** Further work

    - Symbolic links: [os.walk] does not follow links to directories
      ([followlinks=False]) but lists them in [dirs]; the store has none.
    - A listing that changes for reasons other than the program's own
      writes (another process): [os_walk] already reads the store at
      each step, so only the theorems' hypotheses would change.

    ** Not modelled

    [argparse] (the namespace it returns is [Main.args]); the operating
    system beyond reads, writes, sizes and listings (no symbolic links,
    no newline translation: POSIX text mode; the errno of a failed
    listing, which [os.walk] discards); [repr] of a [str] holding a quote,
    a backslash or a non-printable character (it is copied as is: the
    theorems use only that [repr] always encodes); standard output under
    another encoding or error handler than UTF-8 and [strict]; the
    traceback an uncaught [UnicodeEncodeError] prints (the model stops at
    [PrintErr]); the [if __name__ == "__main__"] entry point.
*)

From Stdlib Require Import ZArith List Lia Bool.
From Stdlib Require Strings.Byte.
Import ListNotations.
Local Open Scope Z_scope.

Declare Scope u8_scope.
Delimit Scope u8_scope with u8.

(** ** Bytes

    A Python [bytes] object is a sequence of integers in [0, 256); we keep
    its elements as [Byte.byte] and read them as [Z] through [bv]. *)

Definition bv (b : Byte.byte) : Z := Z.of_N (Byte.to_N b).

(** The byte whose value is [z mod 256] (the truncation performed by the
    C casts [(char)] of the encoder). *)
Definition byte_of (z : Z) : Byte.byte :=
  match Byte.of_N (Z.to_N (z mod 256)) with
  | Some b => b
  | None => Byte.x00
  end.

Notation "‹ b ›" := (bv b) (at level 0, b at level 200, format "‹ b ›") : u8_scope.

(** Half-open range test on a byte value, as the C code writes
    [lo <= ch && ch < hi]. *)
Definition in_range (lo hi : Z) (b : Byte.byte) : bool :=
  (lo <=? bv b) && (bv b <? hi).

(** ** Results of fallible operations *)

Inductive result (A E : Type) : Type :=
| Ok (a : A)
| Err (e : E).
Arguments Ok {A E} a.
Arguments Err {A E} e.

Lemma Ok_inj {A E} (a b : A) : @Ok A E a = Ok b -> a = b.
Proof. intros H. injection H. auto. Qed.

(** ** Lemmas on bytes *)

Create HintDb utf8 discriminated.
Create Rewrite HintDb utf8_rw.

Lemma bv_range (b : Byte.byte) : 0 <= bv b < 256.
Proof.
  unfold bv. pose proof (Byte.to_N_bounded b). lia.
Qed.

Lemma bv_inj (a b : Byte.byte) : bv a = bv b -> a = b.
Proof.
  unfold bv. intros H. apply N2Z.inj in H.
  pose proof (Byte.of_to_N a) as Ha. pose proof (Byte.of_to_N b) as Hb.
  rewrite H in Ha. congruence.
Qed.

Lemma bv_byte_of (z : Z) : 0 <= z < 256 -> bv (byte_of z) = z.
Proof.
  intros Hz. unfold byte_of. rewrite Z.mod_small by lia.
  destruct (Byte.of_N (Z.to_N z)) as [b|] eqn:E.
  - apply Byte.to_of_N in E. unfold bv. rewrite E. lia.
  - pose proof (Byte.to_of_N_option_map (Z.to_N z)) as H.
    rewrite E in H. simpl in H.
    destruct (Z.to_N z <=? 255)%N eqn:L; [discriminate|].
    apply N.leb_gt in L. lia.
Qed.

Lemma byte_of_bv (b : Byte.byte) : byte_of (bv b) = b.
Proof.
  apply bv_inj. apply bv_byte_of, bv_range.
Qed.

Lemma byte_of_eq (b : Byte.byte) (z : Z) : bv b = z -> byte_of z = b.
Proof. intros <-. apply byte_of_bv. Qed.

Lemma in_range_spec lo hi b : in_range lo hi b = true <-> lo <= bv b < hi.
Proof.
  unfold in_range. rewrite andb_true_iff, Z.leb_le, Z.ltb_lt. tauto.
Qed.

#[export] Hint Resolve bv_range : utf8.
#[export] Hint Rewrite byte_of_bv : utf8_rw.

(** Puts the range of every byte value of the goal in the context, for
    [lia]. *)
Ltac byte_bounds :=
  repeat match goal with
  | b : Byte.byte |- _ =>
      lazymatch goal with
      | _ : 0 <= bv b < 256 |- _ => fail
      | _ => pose proof (bv_range b)
      end
  end.

(** Turns the boolean comparisons of the decoder into arithmetic facts. *)
Ltac zbool :=
  repeat match goal with
  | H : (_ <? _) = true |- _ => apply Z.ltb_lt in H
  | H : (_ <? _) = false |- _ => apply Z.ltb_ge in H
  | H : (_ <=? _) = true |- _ => apply Z.leb_le in H
  | H : (_ <=? _) = false |- _ => apply Z.leb_gt in H
  | H : (_ =? _) = true |- _ => apply Z.eqb_eq in H
  | H : (_ =? _) = false |- _ => apply Z.eqb_neq in H
  | H : in_range _ _ _ = true |- _ => apply in_range_spec in H
  | H : in_range _ _ _ = false |- _ =>
      rewrite <- not_true_iff_false, in_range_spec in H
  | H : (_ && _) = true |- _ => apply andb_true_iff in H as [? ?]
  | H : (_ || _) = false |- _ => apply orb_false_iff in H as [? ?]
  | H : (_ || _) = true |- _ => apply orb_true_iff in H as [H|H]
  | H : negb _ = true |- _ => apply negb_true_iff in H
  | H : negb _ = false |- _ => apply negb_false_iff in H
  end.

(** ** Bit operations on non-negative integers *)

Lemma land_low_zero (c y k : Z) :
  0 <= k -> c mod 2 ^ k = 0 -> 0 <= y < 2 ^ k -> Z.land c y = 0.
Proof.
  intros Hk Hc Hy. apply Z.bits_inj'. intros i Hi.
  rewrite Z.land_spec, Z.bits_0.
  destruct (Z.lt_ge_cases i k) as [Hlt|Hge].
  - rewrite <- (Z.mod_pow2_bits_low c k i) by lia. rewrite Hc, Z.bits_0. reflexivity.
  - rewrite <- (Z.mod_small y (2 ^ k)) by lia.
    rewrite Z.mod_pow2_bits_high by lia. apply andb_false_r.
Qed.

(** [c | y] is [c + y] when [c] has no bit below [k] and [y < 2^k]: the
    form of every byte the encoder assembles. *)
Lemma lor_low_add (c y k : Z) :
  0 <= k -> c mod 2 ^ k = 0 -> 0 <= y < 2 ^ k -> Z.lor c y = c + y.
Proof.
  intros Hk Hc Hy. rewrite <- Z.add_lor_land.
  rewrite (land_low_zero c y k) by assumption. lia.
Qed.

Lemma shiftr_div (x n : Z) : 0 <= n -> Z.shiftr x n = x / 2 ^ n.
Proof. apply Z.shiftr_div_pow2. Qed.

Lemma land_mod (x n : Z) : 0 <= n -> Z.land x (2 ^ n - 1) = x mod 2 ^ n.
Proof.
  intros Hn. rewrite <- Z.land_ones by lia. f_equal.
  rewrite Z.ones_equiv. lia.
Qed.

(** ** Lists *)

Lemma firstn_app_exact {A} (l r : list A) : firstn (length l) (l ++ r) = l.
Proof.
  rewrite firstn_app, Nat.sub_diag, firstn_O, app_nil_r. apply firstn_all.
Qed.

Lemma skipn_app_exact {A} (l r : list A) : skipn (length l) (l ++ r) = r.
Proof.
  rewrite skipn_app, Nat.sub_diag, skipn_all. reflexivity.
Qed.

#[export] Hint Rewrite @firstn_app_exact @skipn_app_exact : utf8_rw.

Lemma firstn_add_split {A} (n k : nat) (l : list A) :
  firstn (n + k) l = firstn n l ++ firstn k (skipn n l).
Proof.
  revert l. induction n as [|n IH]; intros [|x l]; cbn; rewrite ?firstn_nil; auto.
  f_equal. apply IH.
Qed.
