(* ===== verification/Unicode.v ===== *)
(** * The Unicode specification of UTF-8

    What the codec must implement, stated independently of CPython: the
    Unicode scalar values, Table 3-7 of the Unicode standard (chapter 3.9,
    "Well-Formed UTF-8 Byte Sequences") transcribed row by row, the
    well-formed byte strings as an inductive predicate, and the "maximal
    subpart" of an ill-formed sequence (definition D93b), which fixes how
    much input one replacement character stands for. *)

From Stdlib Require Import ZArith List Lia Bool.
From S2P Require Import Prelude.
Import ListNotations.
Local Open Scope Z_scope.

(** ** Scalar values *)

Definition is_surrogate (cp : Z) : bool := (0xD800 <=? cp) && (cp <=? 0xDFFF).

(** The code points a Python [str] may hold. *)
Definition is_code_point (cp : Z) : bool := (0 <=? cp) && (cp <=? 0x10FFFF).

Definition is_scalar (cp : Z) : bool := is_code_point cp && negb (is_surrogate cp).

(** ** Table 3-7

    Each row lists, for each byte of a well-formed sequence, the closed
    interval its value must lie in. *)

Definition table_3_7 : list (list (Z * Z)) :=
  [ [(0x00, 0x7F)];
    [(0xC2, 0xDF); (0x80, 0xBF)];
    [(0xE0, 0xE0); (0xA0, 0xBF); (0x80, 0xBF)];
    [(0xE1, 0xEC); (0x80, 0xBF); (0x80, 0xBF)];
    [(0xED, 0xED); (0x80, 0x9F); (0x80, 0xBF)];
    [(0xEE, 0xEF); (0x80, 0xBF); (0x80, 0xBF)];
    [(0xF0, 0xF0); (0x90, 0xBF); (0x80, 0xBF); (0x80, 0xBF)];
    [(0xF1, 0xF3); (0x80, 0xBF); (0x80, 0xBF); (0x80, 0xBF)];
    [(0xF4, 0xF4); (0x80, 0x8F); (0x80, 0xBF); (0x80, 0xBF)] ].

Definition in_interval (iv : Z * Z) (b : Byte.byte) : bool :=
  (fst iv <=? bv b) && (bv b <=? snd iv).

(** [row_match row l]: [l] is exactly a sequence described by [row]. *)
Fixpoint row_match (row : list (Z * Z)) (l : list Byte.byte) : bool :=
  match row, l with
  | [], [] => true
  | iv :: row', b :: l' => in_interval iv b && row_match row' l'
  | _, _ => false
  end.

(** [row_prefix row l]: [l] is an initial part of such a sequence. *)
Fixpoint row_prefix (row : list (Z * Z)) (l : list Byte.byte) : bool :=
  match row, l with
  | _, [] => true
  | iv :: row', b :: l' => in_interval iv b && row_prefix row' l'
  | [], _ :: _ => false
  end.

(** One well-formed UTF-8 sequence (one character). *)
Definition wf_seq (l : list Byte.byte) : bool :=
  existsb (fun row => row_match row l) table_3_7.

(** An initial subsequence of a well-formed sequence (D93b (a)). *)
Definition wf_prefix (l : list Byte.byte) : bool :=
  existsb (fun row => row_prefix row l) table_3_7.

(** A well-formed sequence starts at the head of [s]. *)
Definition starts_wf (s : list Byte.byte) : bool :=
  existsb (fun k => wf_seq (firstn k s)) [1; 2; 3; 4]%nat.

(** ** Well-formed strings *)

Inductive valid_utf8 : list Byte.byte -> Prop :=
| valid_nil : valid_utf8 []
| valid_cons (c r : list Byte.byte) :
    wf_seq c = true -> valid_utf8 r -> valid_utf8 (c ++ r).

(** D93b: the maximal subpart at an unconvertible offset is the longest
    initial subsequence of a well-formed sequence, or one byte when there
    is none. *)
Definition maximal_subpart (s : list Byte.byte) (n : nat) : Prop :=
  (0 < n)%nat /\ (n <= length s)%nat /\
  (n = 1%nat \/ wf_prefix (firstn n s) = true) /\
  (forall m, (n < m <= length s)%nat -> wf_prefix (firstn m s) = false).

(** ** Lemmas *)

(** Rewrites the boolean tests of the specification and of the decoder
    into linear arithmetic, for [lia]. *)
Ltac bool_lia :=
  unfold in_interval, in_range, is_scalar, is_code_point, is_surrogate in *;
  cbn [fst snd] in *;
  rewrite ?andb_false_r, ?andb_true_r, ?orb_false_r in *;
  repeat (rewrite ?andb_true_iff, ?orb_true_iff, ?negb_true_iff,
                  ?andb_false_iff, ?orb_false_iff, ?negb_false_iff,
                  ?Z.leb_le, ?Z.ltb_lt, ?Z.eqb_eq, ?Z.leb_gt, ?Z.ltb_ge,
                  ?Z.eqb_neq in *);
  byte_bounds; lia.

Lemma in_interval_false (lo hi : Z) (b : Byte.byte) :
  bv b < lo \/ hi < bv b -> in_interval (lo, hi) b = false.
Proof. intros H. unfold in_interval. cbn [fst snd]. bool_lia. Qed.

Lemma in_interval_true (lo hi : Z) (b : Byte.byte) :
  lo <= bv b <= hi -> in_interval (lo, hi) b = true.
Proof. intros H. unfold in_interval. cbn [fst snd]. bool_lia. Qed.

(** Proves a boolean formula of the specification false (resp. true) by
    following its connectives, deciding each interval test with [lia]
    (the context holding arithmetic facts only). *)
Ltac bfalse :=
  lazymatch goal with
  | |- false = false => reflexivity
  | |- true = false => fail
  | |- (_ || _) = false => apply orb_false_iff; split; bfalse
  | |- (_ && _) = false =>
      apply andb_false_iff; first [left; bfalse | right; bfalse]
  | |- in_interval _ _ = false => apply in_interval_false; lia
  end.

Ltac btrue_struct :=
  lazymatch goal with
  | |- true = true => reflexivity
  | |- false = true => fail
  | |- (_ && _) = true => apply andb_true_iff; split; btrue_struct
  | |- (_ || _) = true =>
      apply orb_true_iff; first [left; btrue_struct | right; btrue_struct]
  | |- in_interval _ _ = true => apply in_interval_true; lia
  end.

(** When the row to pick depends on a case split of the context, falls
    back to [lia] on the whole formula. *)
Ltac btrue := first [btrue_struct | bool_lia].

Lemma wf_seq_length (l : list Byte.byte) :
  wf_seq l = true -> (1 <= length l <= 4)%nat.
Proof.
  unfold wf_seq. cbn [existsb table_3_7].
  destruct l as [|b0 [|b1 [|b2 [|b3 [|b4 l]]]]]; cbn; intros H;
    rewrite ?andb_false_r in H; cbn in H; try discriminate; lia.
Qed.

Lemma valid_utf8_app (a b : list Byte.byte) :
  valid_utf8 a -> valid_utf8 b -> valid_utf8 (a ++ b).
Proof.
  induction 1; intros Hb; [exact Hb|].
  rewrite <- app_assoc. constructor; auto.
Qed.

Lemma wf_seq_starts (c r : list Byte.byte) :
  wf_seq c = true -> starts_wf (c ++ r) = true.
Proof.
  intros H. pose proof (wf_seq_length c H) as Hl.
  unfold starts_wf. apply existsb_exists.
  exists (length c). split.
  - cbn. lia.
  - rewrite firstn_app_exact. exact H.
Qed.

#[export] Hint Constructors valid_utf8 : utf8.
#[export] Hint Resolve valid_utf8_app wf_seq_starts : utf8.
