(* ===== verification/Codec.v ===== *)
(** * CPython's UTF-8 codec, as [fix_utf8.py] calls it

    [bytes.decode('utf-8')] (line 14), [bytes.decode('utf-8',
    errors='replace')] (line 42) and the UTF-8 text stream of line 50-51
    all run CPython's codec.  [utf8_step] is one round of [utf8_decode]
    in [Objects/stringlib/codecs.h]: the branch structure and the tests
    on [ch], [ch2], [ch3], [ch4] are those of the C code, including the
    shortened tests it makes when the input ends inside a sequence.
    [encode_char] is the body of the loop of [utf8_encoder].  The loops
    that drive them are in [Decoder].  The lemmas here characterise one
    round: a decoded character is a row of Table 3-7 and re-encodes to
    the bytes it used, every row decodes, and an error sits where no
    character starts and spans the maximal subpart. *)

From Stdlib Require Import ZArith List Lia Bool.
From S2P Require Import Prelude Unicode.
Import ListNotations.
Local Open Scope Z_scope.

Module Codec.

(** ** Decoder *)

(** The three messages of [unicode_decode_utf8]. *)
Inductive reason : Type :=
| InvalidStartByte          (* "invalid start byte" *)
| InvalidContinuationByte   (* "invalid continuation byte" *)
| UnexpectedEndOfData.      (* "unexpected end of data" *)

(** What one round of the decoder produces at the head of the input: the
    end of the input, a code point and the number of bytes it used, or an
    error with the length [endinpos - startinpos] of its range. *)
Inductive step : Type :=
| SEnd
| SChar (cp : Z) (n : nat)
| SErr (r : reason) (n : nat).

(** [IS_CONTINUATION_BYTE(ch)]: [ch >= 0x80 && ch < 0xC0]. *)
Definition is_continuation_byte (b : Byte.byte) : bool := in_range 0x80 0xC0 b.

Definition utf8_step (s : list Byte.byte) : step :=
  match s with
  | [] => SEnd
  | b0 :: r1 =>
    let ch := bv b0 in
    if ch <? 0x80 then SChar ch 1
    else if ch <? 0xE0 then
      (* \xC2\x80-\xDF\xBF -- 0080-07FF *)
      if ch <? 0xC2 then SErr InvalidStartByte 1
      else match r1 with
           | [] => SErr UnexpectedEndOfData 1
           | b1 :: _ =>
             if negb (is_continuation_byte b1) then SErr InvalidContinuationByte 1
             else SChar (Z.shiftl ch 6 + bv b1 - (Z.shiftl 0xC0 6 + 0x80)) 2
           end
    else if ch <? 0xF0 then
      (* \xE0\xA0\x80-\xEF\xBF\xBF -- 0800-FFFF *)
      match r1 with
      | [] => SErr UnexpectedEndOfData 1
      | b1 :: r2 =>
        let ch2 := bv b1 in
        if negb (is_continuation_byte b1) ||
           (if ch2 <? 0xA0 then ch =? 0xE0 else ch =? 0xED)
        then SErr InvalidContinuationByte 1
        else match r2 with
             | [] => SErr UnexpectedEndOfData 2
             | b2 :: _ =>
               if negb (is_continuation_byte b2) then SErr InvalidContinuationByte 2
               else SChar (Z.shiftl ch 12 + Z.shiftl ch2 6 + bv b2 -
                           (Z.shiftl 0xE0 12 + Z.shiftl 0x80 6 + 0x80)) 3
             end
      end
    else if ch <? 0xF5 then
      (* \xF0\x90\x80\x80-\xF4\x8F\xBF\xBF -- 10000-10FFFF *)
      match r1 with
      | [] => SErr UnexpectedEndOfData 1
      | b1 :: r2 =>
        let ch2 := bv b1 in
        if negb (is_continuation_byte b1) ||
           (if ch2 <? 0x90 then ch =? 0xF0 else ch =? 0xF4)
        then SErr InvalidContinuationByte 1
        else match r2 with
             | [] => SErr UnexpectedEndOfData 2
             | b2 :: r3 =>
               if negb (is_continuation_byte b2) then SErr InvalidContinuationByte 2
               else match r3 with
                    | [] => SErr UnexpectedEndOfData 3
                    | b3 :: _ =>
                      if negb (is_continuation_byte b3) then SErr InvalidContinuationByte 3
                      else SChar (Z.shiftl ch 18 + Z.shiftl ch2 12 + Z.shiftl (bv b2) 6
                                  + bv b3 - (Z.shiftl 0xF0 18 + Z.shiftl 0x80 12
                                             + Z.shiftl 0x80 6 + 0x80)) 4
                    end
             end
      end
    else SErr InvalidStartByte 1
  end.

(** ** Encoder *)

(** One code point, as the loop of [utf8_encoder] writes it; a lone
    surrogate goes to the error handler, which raises under ["strict"]. *)
Definition encode_char (ch : Z) : result (list Byte.byte) unit :=
  if ch <? 0x80 then Ok [byte_of ch]
  else if ch <? 0x0800 then
    Ok [byte_of (Z.lor 0xc0 (Z.shiftr ch 6));
        byte_of (Z.lor 0x80 (Z.land ch 0x3f))]
  else if is_surrogate ch then Err tt
  else if ch <? 0x10000 then
    Ok [byte_of (Z.lor 0xe0 (Z.shiftr ch 12));
        byte_of (Z.lor 0x80 (Z.land (Z.shiftr ch 6) 0x3f));
        byte_of (Z.lor 0x80 (Z.land ch 0x3f))]
  else
    Ok [byte_of (Z.lor 0xf0 (Z.shiftr ch 18));
        byte_of (Z.lor 0x80 (Z.land (Z.shiftr ch 12) 0x3f));
        byte_of (Z.lor 0x80 (Z.land (Z.shiftr ch 6) 0x3f));
        byte_of (Z.lor 0x80 (Z.land ch 0x3f))].

(** ** The encoder in arithmetic form *)

Lemma cont_byte (x : Z) : Z.lor 0x80 (Z.land x 0x3f) = 0x80 + x mod 64.
Proof.
  change 0x3f with (Z.ones 6). rewrite Z.land_ones by lia.
  apply (lor_low_add 0x80 _ 6); [lia | reflexivity | apply Z.mod_pos_bound; lia].
Qed.

Lemma lead_byte (c x k : Z) :
  0 <= k -> c mod 2 ^ k = 0 -> 0 <= x < 2 ^ k -> Z.lor c x = c + x.
Proof. apply lor_low_add. Qed.

(** Case analysis on the innermost [if] of the goal or of [H]. *)
Ltac destr_if :=
  match goal with
  | |- context [if ?c then _ else _] =>
      lazymatch c with
      | context [if _ then _ else _] => fail
      | _ => let E := fresh "E" in destruct c eqn:E
      end
  end.

Ltac destr_if_in H :=
  match type of H with
  | context [if ?c then _ else _] =>
      lazymatch c with
      | context [if _ then _ else _] => fail
      | _ => let E := fresh "E" in destruct c eqn:E
      end
  end.

(** Decides the [if]s of a goal whose conditions the context fixes. *)
Ltac decide_ifs_by tac := repeat (destr_if; try (exfalso; tac)).
Ltac decide_ifs := decide_ifs_by bool_lia.

(** Runs the decoder's branches in hypothesis [H], keeping those whose
    result has the shape [H] states. *)
Ltac step_inv H := try discriminate H; repeat (destr_if_in H; try discriminate H).

Ltac div_lia := Z.div_mod_to_equations; bool_lia.

Lemma encode_char_1 (cp : Z) : cp < 0x80 -> encode_char cp = Ok [byte_of cp].
Proof. intros H. unfold encode_char. decide_ifs. reflexivity. Qed.

Lemma encode_char_2 (cp : Z) :
  0x80 <= cp < 0x800 ->
  encode_char cp = Ok [byte_of (0xC0 + cp / 64); byte_of (0x80 + cp mod 64)].
Proof.
  intros H. unfold encode_char. decide_ifs.
  rewrite shiftr_div, cont_byte, (lead_byte _ _ 5) by (try reflexivity; div_lia).
  reflexivity.
Qed.

Lemma encode_char_3 (cp : Z) :
  0x800 <= cp < 0x10000 -> is_surrogate cp = false ->
  encode_char cp = Ok [byte_of (0xE0 + cp / 4096); byte_of (0x80 + (cp / 64) mod 64);
                       byte_of (0x80 + cp mod 64)].
Proof.
  intros H Hs. unfold encode_char. rewrite Hs. decide_ifs.
  rewrite !shiftr_div, !cont_byte, (lead_byte _ _ 4) by (try reflexivity; div_lia).
  reflexivity.
Qed.

Lemma encode_char_4 (cp : Z) :
  0x10000 <= cp <= 0x10FFFF ->
  encode_char cp = Ok [byte_of (0xF0 + cp / 262144); byte_of (0x80 + (cp / 4096) mod 64);
                       byte_of (0x80 + (cp / 64) mod 64); byte_of (0x80 + cp mod 64)].
Proof.
  intros H. unfold encode_char.
  assert (Hs : is_surrogate cp = false) by bool_lia. rewrite Hs. decide_ifs.
  rewrite !shiftr_div, !cont_byte, (lead_byte _ _ 3) by (try reflexivity; div_lia).
  reflexivity.
Qed.

Lemma encode_char_surrogate (cp : Z) : is_surrogate cp = true -> encode_char cp = Err tt.
Proof. intros H. unfold encode_char. rewrite H. decide_ifs. reflexivity. Qed.

(** ** One round of the decoder *)

Lemma SChar_inj (a b : Z) (n m : nat) : SChar a n = SChar b m -> b = a /\ m = n.
Proof. intros H. injection H. auto. Qed.

Lemma SErr_inj (r q : reason) (n m : nat) : SErr r n = SErr q m -> q = r /\ m = n.
Proof. intros H. injection H. auto. Qed.

Lemma wf_prefix_firstn (l : list Byte.byte) (k : nat) :
  wf_prefix l = true -> wf_prefix (firstn k l) = true.
Proof.
  unfold wf_prefix. rewrite !existsb_exists. intros [row [Hin H]].
  exists row. split; [exact Hin|]. clear Hin. revert row k H.
  induction l as [|b l IH]; intros row k H.
  - rewrite firstn_nil. exact H.
  - destruct k as [|k]; [destruct row; reflexivity|].
    destruct row as [|iv row]; [discriminate|]. cbn in *.
    apply andb_true_iff in H as [H1 H2]. rewrite H1. cbn. auto.
Qed.

Lemma wf_prefix_length (l : list Byte.byte) : wf_prefix l = true -> (length l <= 4)%nat.
Proof.
  unfold wf_prefix. cbn [existsb table_3_7].
  destruct l as [|b0 [|b1 [|b2 [|b3 [|b4 l]]]]]; cbn; intros H;
    rewrite ?andb_false_r in H; cbn in H; try discriminate; lia.
Qed.

(** A byte string that is not the initial part of a character cannot be
    extended into one: the maximality clause of D93b only needs the next
    length. *)
Lemma wf_prefix_extend (s : list Byte.byte) (n : nat) :
  (n < length s)%nat -> wf_prefix (firstn (S n) s) = false ->
  forall m, (n < m <= length s)%nat -> wf_prefix (firstn m s) = false.
Proof.
  intros Hn H m Hm. destruct (wf_prefix (firstn m s)) eqn:E; [|reflexivity].
  apply (wf_prefix_firstn _ (S n)) in E.
  rewrite firstn_firstn, Nat.min_l in E by lia. congruence.
Qed.

(** [x << k] becomes [x * 2^k] with the power computed. *)
Ltac shiftl_arith :=
  repeat rewrite Z.shiftl_mul_pow2 by lia;
  repeat match goal with
  | |- context [2 ^ ?k] =>
      let v := eval vm_compute in (2 ^ k) in change (2 ^ k) with v
  end.

(** A decoded character is a scalar value, the bytes it used form a row of
    Table 3-7, and encoding it gives those bytes back. *)
Lemma utf8_step_char (s : list Byte.byte) (cp : Z) (n : nat) :
  utf8_step s = SChar cp n ->
  is_scalar cp = true /\ wf_seq (firstn n s) = true /\ encode_char cp = Ok (firstn n s).
Proof.
  intros H. destruct s as [|b0 [|b1 [|b2 [|b3 s]]]]; cbv beta iota zeta delta [utf8_step] in H;
    unfold is_continuation_byte in H; step_inv H; apply SChar_inj in H as [-> ->];
    cbn [firstn]; shiftl_arith;
    (split; [bool_lia | split; [unfold wf_seq; cbn; bool_lia |]]);
    first [ rewrite encode_char_1 by bool_lia
          | rewrite encode_char_2 by bool_lia
          | rewrite encode_char_3 by bool_lia
          | rewrite encode_char_4 by bool_lia ];
    repeat f_equal; apply byte_of_eq; div_lia.
Qed.

(** Every row of Table 3-7 is decoded as one character of its length. *)
Lemma utf8_step_wf (c r : list Byte.byte) :
  wf_seq c = true -> exists cp, utf8_step (c ++ r) = SChar cp (length c).
Proof.
  intros H. unfold wf_seq in H.
  destruct c as [|b0 [|b1 [|b2 [|b3 [|b4 c]]]]];
    cbv beta iota zeta delta [existsb table_3_7 row_match] in H;
    rewrite ?andb_false_r, ?orb_false_r, ?andb_true_r in H; try discriminate H;
    repeat (apply orb_true_iff in H as [H|H]);
    cbv beta iota zeta delta [utf8_step app]; unfold is_continuation_byte;
    decide_ifs; eexists; reflexivity.
Qed.

(** The decoder reads back what the encoder wrote. *)
Lemma utf8_step_encode (cp : Z) (bs r : list Byte.byte) :
  is_code_point cp = true -> encode_char cp = Ok bs ->
  utf8_step (bs ++ r) = SChar cp (length bs).
Proof.
  intros Hcp Henc.
  assert (cp < 0x80 \/ 0x80 <= cp < 0x800 \/ (0x800 <= cp < 0x10000 /\ is_surrogate cp = false)
          \/ is_surrogate cp = true \/ 0x10000 <= cp <= 0x10FFFF)
    as [Hr|[Hr|[[Hr Hs]|[Hr|Hr]]]] by bool_lia;
    [ rewrite encode_char_1 in Henc by lia
    | rewrite encode_char_2 in Henc by lia
    | rewrite encode_char_3 in Henc by assumption
    | rewrite encode_char_surrogate in Henc by assumption; discriminate
    | rewrite encode_char_4 in Henc by lia ];
    apply Ok_inj in Henc; subst bs;
    cbv beta iota zeta delta [utf8_step app]; unfold is_continuation_byte, in_range;
    rewrite !bv_byte_of by div_lia;
    decide_ifs_by div_lia; f_equal; shiftl_arith; div_lia.
Qed.

(** An error of the decoder sits where no character starts, and its range
    is the maximal subpart there. *)
Lemma utf8_step_err (s : list Byte.byte) (r : reason) (n : nat) :
  utf8_step s = SErr r n -> starts_wf s = false /\ maximal_subpart s n.
Proof.
  intros H.
  destruct s as [|b0 [|b1 [|b2 [|b3 [|b4 s]]]]];
    cbv beta iota zeta delta [utf8_step] in H; unfold is_continuation_byte in H;
    step_inv H; apply SErr_inj in H as [-> ->]; zbool;
    (split; [cbv beta iota zeta delta [starts_wf existsb firstn wf_seq table_3_7 row_match];
             bfalse|]);
    (split; [lia | split; [cbn [length]; lia | split]]);
    try (left; reflexivity);
    try (right; cbv beta iota zeta delta [wf_prefix existsb firstn table_3_7 row_prefix];
         btrue);
    (apply wf_prefix_extend; [cbn [length]; lia |
       cbv beta iota zeta delta [wf_prefix existsb firstn table_3_7 row_prefix]; bfalse])
    || (intros m Hm; cbn [length] in Hm; lia).
Qed.

Lemma utf8_step_len (s : list Byte.byte) :
  match utf8_step s with
  | SEnd => s = []
  | SChar _ n | SErr _ n => (1 <= n <= length s)%nat
  end.
Proof.
  destruct s as [|b0 [|b1 [|b2 [|b3 s]]]]; [reflexivity|..];
    cbv beta iota zeta delta [utf8_step]; repeat destr_if; cbn [length]; lia.
Qed.

End Codec.
