(* ===== verification/Decoder.v ===== *)
(** * The decoding loop and the lossy repair

    [decode_loop] is the driver [unicode_decode_utf8] of
    [Objects/unicodeobject.c]: it runs [Codec.utf8_step], turns its
    return code into the error range [startinpos, endinpos), and either
    raises (handler [Strict], line 14 of [fix_utf8.py]) or writes U+FFFD
    and resumes at [endinpos] (handler [Replace], line 42).  [encode_str]
    runs [Codec.encode_char] over a string (line 51).  Theorems: termination with the fuel the entry
    point gives, refinement of Table 3-7, the two round trips between
    decoder and encoder, the position and extent of a reported error, and
    the properties of the repaired text. *)

From Stdlib Require Import ZArith List Lia Bool.
From S2P Require Import Prelude Unicode Codec.
Import ListNotations.
Local Open Scope Z_scope.

Module Decoder.
Import Codec.

(** ** The driver loop of [unicode_decode_utf8] *)

(** The two error handlers the program uses: the default ["strict"]
    (line 14) and ["replace"] (line 42). *)
Inductive error_handler : Type := Strict | Replace.

(** [UnicodeDecodeError(start, end, reason)]. *)
Record decode_error : Type := mk_decode_error {
  err_start : nat;
  err_end : nat;
  err_reason : reason
}.

Definition cons_ok {E} (x : Z) (o : option (result (list Z) E))
  : option (result (list Z) E) :=
  match o with
  | Some (Ok l) => Some (Ok (x :: l))
  | o' => o'
  end.

(** The driver loop, [pos] being [s - starts]; [fuel] bounds the number of
    rounds ([None]: not enough fuel). *)
Fixpoint decode_loop (errors : error_handler) (fuel pos : nat) (s : list Byte.byte)
  : option (result (list Z) decode_error) :=
  match fuel with
  | O => None
  | S fuel' =>
    match utf8_step s with
    | SEnd => Some (Ok [])
    | SChar cp n => cons_ok cp (decode_loop errors fuel' (pos + n) (skipn n s))
    | SErr r n =>
      match errors with
      | Strict => Some (Err (mk_decode_error pos (pos + n) r))
      | Replace => cons_ok 0xFFFD (decode_loop errors fuel' (pos + n) (skipn n s))
      end
    end
  end.

(** [bytes.decode('utf-8', errors)]: one round per byte at most, so
    [S (length s)] rounds suffice ([decode_utf8_total]). *)
Definition decode_utf8 (errors : error_handler) (s : list Byte.byte)
  : option (result (list Z) decode_error) :=
  decode_loop errors (S (length s)) 0 s.

(** ** The loop of [utf8_encoder] over a string *)

(** [str.encode('utf-8')]: the error carries the index of the first code
    point that cannot be encoded ([UnicodeEncodeError.start]). *)
Fixpoint encode_go (i : nat) (cps : list Z) : result (list Byte.byte) nat :=
  match cps with
  | [] => Ok []
  | cp :: rest =>
    match encode_char cp, encode_go (S i) rest with
    | Ok b, Ok bs => Ok (b ++ bs)
    | Err _, _ => Err i
    | Ok _, Err j => Err j
    end
  end.

Definition encode_str (cps : list Z) : result (list Byte.byte) nat := encode_go 0 cps.


(** ** Helper lemmas *)

Lemma cons_ok_inv {E} (x : Z) (o : option (result (list Z) E)) (l : list Z) :
  cons_ok x o = Some (Ok l) -> exists l', o = Some (Ok l') /\ l = x :: l'.
Proof.
  destruct o as [[l'|e]|]; cbn; intros H; try discriminate.
  exists l'. split; [reflexivity|]. injection H. auto.
Qed.

Lemma cons_ok_err {E} (x : Z) (o : option (result (list Z) E)) (e : E) :
  cons_ok x o = Some (Err e) -> o = Some (Err e).
Proof. destruct o as [[l'|e']|]; cbn; congruence. Qed.

Lemma encode_go_index (i j : nat) (cps : list Z) (b : list Byte.byte) :
  encode_go i cps = Ok b -> encode_go j cps = Ok b.
Proof.
  revert i j b. induction cps as [|cp cps IH]; intros i j b H; [exact H|].
  cbn in *. destruct (encode_char cp) as [c|]; [|discriminate].
  destruct (encode_go (S i) cps) as [bs|] eqn:E; [|discriminate].
  rewrite (IH (S i) (S j) bs E). exact H.
Qed.

Lemma encode_go_cons (i : nat) (cp : Z) (cps : list Z) (c bs : list Byte.byte) :
  encode_char cp = Ok c -> encode_go (S i) cps = Ok bs ->
  encode_go i (cp :: cps) = Ok (c ++ bs).
Proof. intros H1 H2. cbn. rewrite H1, H2. reflexivity. Qed.

Lemma encode_go_cons_inv (i : nat) (cp : Z) (cps : list Z) (b : list Byte.byte) :
  encode_go i (cp :: cps) = Ok b ->
  exists c bs, encode_char cp = Ok c /\ encode_go (S i) cps = Ok bs /\ b = c ++ bs.
Proof.
  cbn. destruct (encode_char cp) as [c|]; [|discriminate].
  destruct (encode_go (S i) cps) as [bs|]; [|discriminate].
  intros H. apply Ok_inj in H. eauto.
Qed.

Lemma encode_char_nonempty (cp : Z) (c : list Byte.byte) :
  encode_char cp = Ok c -> (1 <= length c)%nat.
Proof.
  unfold encode_char. intros H. repeat destr_if_in H; apply Ok_inj in H || discriminate H;
    subst c; cbn; lia.
Qed.

(** The number of bytes one round consumes. *)
Lemma step_char_len (s : list Byte.byte) (cp : Z) (n : nat) :
  utf8_step s = SChar cp n -> (1 <= n <= length s)%nat.
Proof. intros H. pose proof (utf8_step_len s) as L. rewrite H in L. exact L. Qed.

Lemma step_err_len (s : list Byte.byte) (r : reason) (n : nat) :
  utf8_step s = SErr r n -> (1 <= n <= length s)%nat.
Proof. intros H. pose proof (utf8_step_len s) as L. rewrite H in L. exact L. Qed.

Lemma step_end_nil (s : list Byte.byte) : utf8_step s = SEnd -> s = [].
Proof. intros H. pose proof (utf8_step_len s) as L. rewrite H in L. exact L. Qed.

#[local] Hint Resolve step_char_len step_err_len : utf8.

(** ** Termination *)

(** The result does not depend on the fuel once it exceeds the input. *)
Lemma decode_loop_fuel (errors : error_handler) (f1 f2 pos : nat) (s : list Byte.byte) :
  (length s < f1)%nat -> (length s < f2)%nat ->
  decode_loop errors f1 pos s = decode_loop errors f2 pos s.
Proof.
  revert f2 pos s. induction f1 as [|f1 IH]; intros f2 pos s H1 H2; [lia|].
  destruct f2 as [|f2]; [lia|]. cbn.
  destruct (utf8_step s) as [|cp n|r n] eqn:Hs; [reflexivity| |destruct errors; [reflexivity|]];
    (assert (Hn : (1 <= n <= length s)%nat) by eauto with utf8);
    rewrite (IH f2) by (rewrite length_skipn; lia); reflexivity.
Qed.

(** With more rounds than bytes the loop always returns. *)
Lemma decode_loop_some (errors : error_handler) (f pos : nat) (s : list Byte.byte) :
  (length s < f)%nat -> exists r, decode_loop errors f pos s = Some r.
Proof.
  revert pos s. induction f as [|f IH]; intros pos s Hf; [lia|]. cbn.
  destruct (utf8_step s) as [|cp n|r n] eqn:Hs.
  - eauto.
  - assert (Hn : (1 <= n <= length s)%nat) by eauto with utf8.
    assert (Hlt : (length (skipn n s) < f)%nat) by (rewrite length_skipn; lia).
    destruct (IH (pos + n)%nat (skipn n s) Hlt) as [[l|e] Hr]; rewrite Hr; cbn; eauto.
  - destruct errors; [eauto|].
    assert (Hn : (1 <= n <= length s)%nat) by eauto with utf8.
    assert (Hlt : (length (skipn n s) < f)%nat) by (rewrite length_skipn; lia).
    destruct (IH (pos + n)%nat (skipn n s) Hlt) as [[l|e] Hr]; rewrite Hr; cbn; eauto.
Qed.

(** ** The loop, at any position and fuel *)

(** One round that decodes a character, seen from the loop. *)
Lemma loop_char (errors : error_handler) (f pos : nat) (s : list Byte.byte) (cp : Z) (n : nat) :
  utf8_step s = SChar cp n ->
  decode_loop errors (S f) pos s = cons_ok cp (decode_loop errors f (pos + n) (skipn n s)).
Proof. intros H. cbn. rewrite H. reflexivity. Qed.

Lemma loop_strict_ok (f pos : nat) (s : list Byte.byte) (cps : list Z) :
  decode_loop Strict f pos s = Some (Ok cps) -> valid_utf8 s /\ encode_str cps = Ok s.
Proof.
  revert pos s cps. induction f as [|f IH]; intros pos s cps H; [discriminate|].
  cbn in H. destruct (utf8_step s) as [|cp n|r n] eqn:Hs; [| |discriminate].
  - apply step_end_nil in Hs. subst s. injection H as <-. split; [constructor|reflexivity].
  - apply cons_ok_inv in H as [l [Hl ->]].
    destruct (IH _ _ _ Hl) as [Hv He].
    destruct (utf8_step_char s cp n Hs) as [_ [Hwf Hc]].
    rewrite <- (firstn_skipn n s). split; [constructor; assumption|].
    apply (encode_go_cons 0 cp l); [exact Hc|]. apply (encode_go_index 0). exact He.
Qed.

Lemma loop_strict_complete (f pos : nat) (s : list Byte.byte) :
  valid_utf8 s -> (length s < f)%nat -> exists cps, decode_loop Strict f pos s = Some (Ok cps).
Proof.
  revert pos s. induction f as [|f IH]; intros pos s Hv Hf; [lia|].
  destruct Hv as [|c r Hc Hr].
  - exists []. reflexivity.
  - destruct (utf8_step_wf c r Hc) as [cp Hs]. pose proof (wf_seq_length c Hc).
    rewrite (loop_char _ _ _ _ _ _ Hs), skipn_app_exact.
    rewrite length_app in Hf.
    destruct (IH (pos + length c)%nat r Hr ltac:(lia)) as [cps Hcps].
    rewrite Hcps. exists (cp :: cps). reflexivity.
Qed.

Lemma loop_encode (errors : error_handler) (cps : list Z) :
  forall (i f pos : nat) (s : list Byte.byte),
  encode_go i cps = Ok s -> Forall (fun cp => is_code_point cp = true) cps ->
  (length s < f)%nat -> decode_loop errors f pos s = Some (Ok cps).
Proof.
  induction cps as [|cp cps IH]; intros i f pos s He Hcp Hf;
    (destruct f as [|f]; [lia|]).
  - apply Ok_inj in He. subst s. reflexivity.
  - inversion Hcp as [|? ? Hc Hcs]; subst.
    apply encode_go_cons_inv in He as [c [bs [Hc1 [Hbs ->]]]].
    pose proof (encode_char_nonempty cp c Hc1).
    rewrite (loop_char _ _ _ _ _ _ (utf8_step_encode cp c bs Hc Hc1)), skipn_app_exact.
    rewrite length_app in Hf.
    rewrite (IH (S i) f (pos + length c)%nat bs Hbs Hcs ltac:(lia)). reflexivity.
Qed.

Lemma loop_strict_err (f pos : nat) (s : list Byte.byte) (e : decode_error) :
  decode_loop Strict f pos s = Some (Err e) ->
  exists k, err_start e = (pos + k)%nat /\ valid_utf8 (firstn k s) /\
    starts_wf (skipn k s) = false /\ maximal_subpart (skipn k s) (err_end e - err_start e).
Proof.
  revert pos s. induction f as [|f IH]; intros pos s H; [discriminate|].
  cbn in H. destruct (utf8_step s) as [|cp n|r n] eqn:Hs; [discriminate| |].
  - apply cons_ok_err in H. destruct (IH _ _ H) as [k [Hk [Hv [Hst Hm]]]].
    exists (n + k)%nat.
    replace (skipn (n + k) s) with (skipn k (skipn n s))
      by (rewrite skipn_skipn; f_equal; lia).
    split; [lia | split; [| split; assumption]].
    rewrite firstn_add_split. constructor; [|assumption].
    apply (utf8_step_char s cp n Hs).
  - injection H as <-. exists 0%nat. cbn [err_start err_end skipn firstn].
    destruct (utf8_step_err s r n Hs) as [Hst Hm].
    replace (pos + n - pos)%nat with n by lia.
    split; [lia | split; [constructor | split; assumption]].
Qed.

Lemma loop_replace_ok (f pos : nat) (s : list Byte.byte) (r : result (list Z) decode_error) :
  decode_loop Replace f pos s = Some r ->
  exists cps, r = Ok cps /\ Forall (fun cp => is_scalar cp = true) cps.
Proof.
  revert pos s r. induction f as [|f IH]; intros pos s r H; [discriminate|].
  cbn in H. destruct (utf8_step s) as [|cp n|q n] eqn:Hs.
  - injection H as <-. eauto.
  - destruct (decode_loop Replace f (pos + n) (skipn n s)) as [r'|] eqn:Hr; [|discriminate].
    destruct (IH _ _ _ Hr) as [l [-> Hl]]. injection H as <-.
    exists (cp :: l). split; [reflexivity|]. constructor; [|exact Hl].
    apply (utf8_step_char s cp n Hs).
  - destruct (decode_loop Replace f (pos + n) (skipn n s)) as [r'|] eqn:Hr; [|discriminate].
    destruct (IH _ _ _ Hr) as [l [-> Hl]]. injection H as <-.
    exists (0xFFFD :: l). split; [reflexivity|]. constructor; [reflexivity|exact Hl].
Qed.

(** Positions only matter for the error record, which ["replace"] never
    returns. *)
Lemma loop_replace_pos (f pos pos' : nat) (s : list Byte.byte) :
  decode_loop Replace f pos s = decode_loop Replace f pos' s.
Proof.
  revert pos pos' s. induction f as [|f IH]; intros pos pos' s; [reflexivity|].
  cbn. destruct (utf8_step s) as [|cp n|q n]; [reflexivity| |];
    rewrite (IH (pos + n)%nat (pos' + n)%nat); reflexivity.
Qed.

(** On an input the strict decoder accepts, both handlers agree. *)
Lemma loop_strict_replace_ok (f pos : nat) (s : list Byte.byte) (cps : list Z) :
  decode_loop Strict f pos s = Some (Ok cps) -> decode_loop Replace f pos s = Some (Ok cps).
Proof.
  revert pos s cps. induction f as [|f IH]; intros pos s cps H; [discriminate|].
  cbn in *. destruct (utf8_step s) as [|cp n|q n]; [exact H| |discriminate].
  apply cons_ok_inv in H as [l [Hl ->]]. rewrite (IH _ _ _ Hl). reflexivity.
Qed.

Lemma loop_strict_replace_err (f pos : nat) (s : list Byte.byte) (e : decode_error) :
  decode_loop Strict f pos s = Some (Err e) -> (length s < f)%nat ->
  exists cps1 cps2,
    encode_str cps1 = Ok (firstn (err_start e - pos) s) /\
    decode_utf8 Replace (skipn (err_end e - pos) s) = Some (Ok cps2) /\
    decode_loop Replace f pos s = Some (Ok (cps1 ++ 0xFFFD :: cps2)).
Proof.
  revert pos s. induction f as [|f IH]; intros pos s H Hf; [discriminate|].
  cbn in H |- *. destruct (utf8_step s) as [|cp n|q n] eqn:Hs; [discriminate| |].
  - apply cons_ok_err in H.
    assert (Hn : (1 <= n <= length s)%nat) by eauto with utf8.
    destruct (IH _ _ H ltac:(rewrite length_skipn; lia)) as [c1 [c2 [He [Hr Hl]]]].
    destruct (loop_strict_err _ _ _ _ H) as [k [Hk _]].
    exists (cp :: c1), c2. rewrite Hl. split; [|split; [|reflexivity]].
    + replace (err_start e - pos)%nat with (n + (err_start e - (pos + n)))%nat by lia.
      rewrite firstn_add_split.
      apply (encode_go_cons 0 cp c1); [apply (utf8_step_char s cp n Hs)|].
      apply (encode_go_index 0). exact He.
    + replace (err_end e - pos)%nat with (err_end e - (pos + n) + n)%nat
        by (destruct (loop_strict_err _ _ _ _ H) as [k' [_ [_ [_ [Hm _]]]]]; lia).
      rewrite <- skipn_skipn. exact Hr.
  - injection H as <-. cbn [err_start err_end].
    assert (Hn : (1 <= n <= length s)%nat) by eauto with utf8.
    destruct (decode_loop_some Replace (S (length (skipn n s))) 0 (skipn n s) ltac:(lia))
      as [r Hr].
    destruct (loop_replace_ok _ _ _ _ Hr) as [c2 [-> _]].
    exists [], c2. rewrite Nat.sub_diag, (Nat.add_comm pos n), Nat.add_sub.
    split; [reflexivity | split; [exact Hr|]].
    rewrite (decode_loop_fuel _ f (S (length (skipn n s)))) by (rewrite length_skipn; lia).
    rewrite (loop_replace_pos _ _ 0), Hr. reflexivity.
Qed.

Lemma encode_char_scalar (cp : Z) :
  is_scalar cp = true -> exists c, encode_char cp = Ok c.
Proof.
  intros H.
  assert (cp < 0x80 \/ 0x80 <= cp < 0x800 \/ (0x800 <= cp < 0x10000 /\ is_surrogate cp = false)
          \/ 0x10000 <= cp <= 0x10FFFF) as [Hr|[Hr|[[Hr Hs]|Hr]]] by bool_lia;
    [ rewrite encode_char_1 by lia | rewrite encode_char_2 by lia
    | rewrite encode_char_3 by assumption | rewrite encode_char_4 by lia ]; eauto.
Qed.

Lemma encode_go_scalars (cps : list Z) (i : nat) :
  Forall (fun cp => is_scalar cp = true) cps -> exists out, encode_go i cps = Ok out.
Proof.
  revert i. induction cps as [|cp cps IH]; intros i H; [exists []; reflexivity|].
  apply Forall_cons_iff in H as [Hc Hcs].
  destruct (encode_char_scalar cp Hc) as [c Hc1]. destruct (IH (S i) Hcs) as [bs Hbs].
  exists (c ++ bs). apply encode_go_cons; assumption.
Qed.

Lemma scalars_code_points (cps : list Z) :
  Forall (fun cp => is_scalar cp = true) cps -> Forall (fun cp => is_code_point cp = true) cps.
Proof.
  intros H. eapply Forall_impl; [|exact H]. cbn. intros cp Hc.
  unfold is_scalar in Hc. apply andb_true_iff in Hc. apply Hc.
Qed.

Lemma replace_decoded (s : list Byte.byte) :
  exists cps, decode_utf8 Replace s = Some (Ok cps) /\
              Forall (fun cp => is_scalar cp = true) cps.
Proof.
  destruct (decode_loop_some Replace (S (length s)) 0 s ltac:(lia)) as [r Hr].
  destruct (loop_replace_ok _ _ _ _ Hr) as [cps [-> Hc]]. eauto.
Qed.

(** Re-encoding the lossy decoding never fails and gives valid UTF-8. *)
Lemma replace_encode (s : list Byte.byte) (cps : list Z) :
  decode_utf8 Replace s = Some (Ok cps) -> exists out, encode_str cps = Ok out /\ valid_utf8 out.
Proof.
  intros Hr. destruct (replace_decoded s) as [c [Hr' Hc]]. rewrite Hr in Hr'.
  injection Hr' as <-. destruct (encode_go_scalars cps 0 Hc) as [out Ho].
  exists out. split; [exact Ho|].
  refine (proj1 (loop_strict_ok (S (length out)) 0 out cps _)).
  apply (loop_encode Strict cps 0); [exact Ho | apply scalars_code_points, Hc | lia].
Qed.

(** ** The codec's contract *)

(** C39: [bytes.decode('utf-8', errors)] returns (an [str] or an error) on
    every input, under both handlers the program uses: the fuel the entry
    point gives the loop is always enough. *)
Theorem decode_utf8_total (errors : error_handler) (s : list Byte.byte) :
  exists r, decode_utf8 errors s = Some r.
Proof. apply decode_loop_some. lia. Qed.

(** C27: the [str] [bytes.decode('utf-8', errors)] returns, under either
    handler the program uses, is a sequence of Unicode scalar values:
    code points in [0, 0x10FFFF] and no surrogate, so it is a well-typed
    text that [str.encode('utf-8')] accepts. *)
Theorem decode_utf8_scalars (errors : error_handler) (s : list Byte.byte) (cps : list Z) :
  decode_utf8 errors s = Some (Ok cps) -> Forall (fun cp => is_scalar cp = true) cps.
Proof.
  intros H. destruct (replace_decoded s) as [c [Hr Hc]].
  destruct errors; [apply loop_strict_replace_ok in H|]; unfold decode_utf8 in H, Hr;
    rewrite H in Hr; injection Hr as ->; exact Hc.
Qed.

(** C1: the strict decoder of line 14 refines Table 3-7: it accepts a
    byte string exactly when the string is a concatenation of well-formed
    UTF-8 sequences. *)
Theorem decode_strict_valid_iff (s : list Byte.byte) :
  (exists cps, decode_utf8 Strict s = Some (Ok cps)) <-> valid_utf8 s.
Proof.
  split.
  - intros [cps H]. exact (proj1 (loop_strict_ok _ _ _ _ H)).
  - intros Hv. apply loop_strict_complete; [exact Hv | lia].
Qed.

(** C2: when line 14 raises, [e.start] is the first position where the
    input stops being valid UTF-8 (everything before it is valid and no
    well-formed sequence starts there), and [e.end - e.start] is the
    maximal subpart of Unicode's definition D93b, inside the input. *)
Theorem decode_error_first (s : list Byte.byte) (e : decode_error) :
  decode_utf8 Strict s = Some (Err e) ->
  (err_start e < err_end e <= length s)%nat /\
  valid_utf8 (firstn (err_start e) s) /\
  starts_wf (skipn (err_start e) s) = false /\
  maximal_subpart (skipn (err_start e) s) (err_end e - err_start e).
Proof.
  intros H. destruct (loop_strict_err _ _ _ _ H) as [k [Hk [Hv [Hst Hm]]]].
  cbn in Hk. subst k. pose proof Hm as [Hn [Hl _]]. rewrite length_skipn in Hl.
  split; [lia | auto].
Qed.

(** C24: decoding then encoding gives the input back: the code points the
    strict decoder returns are the ones the input encodes. *)
Theorem decode_encode_roundtrip (s : list Byte.byte) (cps : list Z) :
  decode_utf8 Strict s = Some (Ok cps) -> encode_str cps = Ok s.
Proof. intros H. exact (proj2 (loop_strict_ok _ _ _ _ H)). Qed.

(** C25: encoding a string of code points then decoding it gives the code
    points back, under either error handler. *)
Theorem encode_decode_roundtrip (errors : error_handler) (cps : list Z) (s : list Byte.byte) :
  encode_str cps = Ok s -> Forall (fun cp => is_code_point cp = true) cps ->
  decode_utf8 errors s = Some (Ok cps).
Proof. intros He Hc. apply (loop_encode errors cps 0); [exact He | exact Hc | lia]. Qed.

(** C3: the text [errors='replace'] produces (line 42) is the valid prefix
    decoded as is, one U+FFFD for the maximal subpart the strict decoder
    reports, and the lossy decoding of the rest. *)
Theorem repair_splits_at_error (s : list Byte.byte) (e : decode_error) :
  decode_utf8 Strict s = Some (Err e) ->
  exists cps1 cps2,
    encode_str cps1 = Ok (firstn (err_start e) s) /\
    decode_utf8 Replace (skipn (err_end e) s) = Some (Ok cps2) /\
    decode_utf8 Replace s = Some (Ok (cps1 ++ 0xFFFD :: cps2)).
Proof.
  intros H. destruct (loop_strict_replace_err _ _ _ _ H ltac:(lia)) as [c1 [c2 Hc]].
  rewrite !Nat.sub_0_r in Hc. eauto.
Qed.

(** C28: on a file that is already valid UTF-8, decoding with
    ["replace"] and encoding again writes the same bytes back. *)
Theorem repair_valid_identity (s : list Byte.byte) (cps : list Z) :
  valid_utf8 s -> decode_utf8 Replace s = Some (Ok cps) -> encode_str cps = Ok s.
Proof.
  intros Hv Hr. destruct (loop_strict_complete (S (length s)) 0 s Hv ltac:(lia)) as [c Hc].
  pose proof (loop_strict_replace_ok _ _ _ _ Hc) as Hc'. unfold decode_utf8 in Hr.
  rewrite Hr in Hc'. injection Hc' as ->. exact (proj2 (loop_strict_ok _ _ _ _ Hc)).
Qed.

(** C26: the repair never fails and always yields valid UTF-8: the lossy
    decoder returns scalar values only, so the encoder of line 51 cannot
    raise, and its output is well formed. *)
Theorem repair_output_valid (s : list Byte.byte) :
  exists cps out, decode_utf8 Replace s = Some (Ok cps) /\ encode_str cps = Ok out /\
                  valid_utf8 out.
Proof.
  destruct (replace_decoded s) as [cps [Hr Hc]].
  destruct (encode_go_scalars cps 0 Hc) as [out Ho].
  exists cps, out. split; [exact Hr | split; [exact Ho|]].
  refine (proj1 (loop_strict_ok (S (length out)) 0 out cps _)).
  apply (loop_encode Strict cps 0); [exact Ho | apply scalars_code_points, Hc | lia].
Qed.

(** C29: repairing a repaired file changes nothing: the lossy decoding of
    the repaired bytes is the text that was written. *)
Theorem repair_idempotent (s out : list Byte.byte) (cps : list Z) :
  decode_utf8 Replace s = Some (Ok cps) -> encode_str cps = Ok out ->
  decode_utf8 Replace out = Some (Ok cps).
Proof.
  intros Hr Ho. destruct (replace_decoded s) as [c [Hr' Hc]].
  rewrite Hr in Hr'. injection Hr' as <-.
  apply (loop_encode Replace cps 0); [exact Ho | apply scalars_code_points, Hc | lia].
Qed.

(** ** Witnesses on the inputs of the specification's scenario B *)

Lemma decode_error_first_witness :
  let s := map byte_of [0x48; 0x65; 0x6c; 0x6c; 0x6f; 0xff; 0x6f] in
  decode_utf8 Strict s = Some (Err (mk_decode_error 5 6 InvalidStartByte)) /\
  (5 < 6 <= length s)%nat /\ valid_utf8 (firstn 5 s) /\ starts_wf (skipn 5 s) = false /\
  maximal_subpart (skipn 5 s) 1.
Proof.
  intros s. assert (H : decode_utf8 Strict s = Some (Err (mk_decode_error 5 6 InvalidStartByte)))
    by reflexivity.
  split; [exact H | exact (decode_error_first s _ H)].
Defined.

Lemma decode_encode_roundtrip_witness :
  let s := map byte_of [0xe2; 0x82; 0xac; 0x41] in
  decode_utf8 Strict s = Some (Ok [0x20AC; 0x41]) /\ encode_str [0x20AC; 0x41] = Ok s.
Proof.
  intros s. assert (H : decode_utf8 Strict s = Some (Ok [0x20AC; 0x41])) by reflexivity.
  split; [exact H | exact (decode_encode_roundtrip s _ H)].
Defined.

Lemma encode_decode_roundtrip_witness :
  let s := map byte_of [0xf0; 0x9f; 0x98; 0x80; 0xc3; 0xa9] in
  encode_str [0x1F600; 0xE9] = Ok s /\ decode_utf8 Replace s = Some (Ok [0x1F600; 0xE9]).
Proof.
  intros s. assert (H : encode_str [0x1F600; 0xE9] = Ok s) by reflexivity.
  split; [exact H|]. apply (encode_decode_roundtrip Replace _ _ H).
  repeat constructor.
Defined.

Lemma repair_splits_at_error_witness :
  let s := map byte_of [0x48; 0x65; 0x6c; 0x6c; 0x6f; 0xff; 0x6f] in
  exists cps1 cps2,
    encode_str cps1 = Ok (firstn 5 s) /\ decode_utf8 Replace (skipn 6 s) = Some (Ok cps2) /\
    decode_utf8 Replace s = Some (Ok (cps1 ++ 0xFFFD :: cps2)).
Proof.
  intros s. apply (repair_splits_at_error s (mk_decode_error 5 6 InvalidStartByte)).
  reflexivity.
Defined.

Lemma repair_valid_identity_witness :
  let s := map byte_of [0x48; 0x65; 0x6c; 0x6c; 0x6f] in
  decode_utf8 Replace s = Some (Ok [0x48; 0x65; 0x6c; 0x6c; 0x6f]) /\
  encode_str [0x48; 0x65; 0x6c; 0x6c; 0x6f] = Ok s.
Proof.
  intros s. assert (H : decode_utf8 Replace s = Some (Ok [0x48; 0x65; 0x6c; 0x6c; 0x6f]))
    by reflexivity.
  split; [exact H|]. apply (repair_valid_identity s _); [|exact H].
  exact (proj1 (loop_strict_ok (S (length s)) 0 s [0x48; 0x65; 0x6c; 0x6c; 0x6f] eq_refl)).
Defined.

Lemma repair_idempotent_witness :
  let s := map byte_of [0x6f; 0xed; 0xa0; 0x80] in
  let out := map byte_of [0x6f; 0xef; 0xbf; 0xbd; 0xef; 0xbf; 0xbd; 0xef; 0xbf; 0xbd] in
  decode_utf8 Replace s = Some (Ok [0x6f; 0xFFFD; 0xFFFD; 0xFFFD]) /\
  encode_str [0x6f; 0xFFFD; 0xFFFD; 0xFFFD] = Ok out /\
  decode_utf8 Replace out = Some (Ok [0x6f; 0xFFFD; 0xFFFD; 0xFFFD]).
Proof.
  intros s out.
  assert (H1 : decode_utf8 Replace s = Some (Ok [0x6f; 0xFFFD; 0xFFFD; 0xFFFD])) by reflexivity.
  assert (H2 : encode_str [0x6f; 0xFFFD; 0xFFFD; 0xFFFD] = Ok out) by reflexivity.
  split; [exact H1 | split; [exact H2 | exact (repair_idempotent s out _ H1 H2)]].
Defined.

Lemma decode_utf8_scalars_witness :
  decode_utf8 Replace [Byte.x41; Byte.xff] = Some (Ok [0x41; 0xFFFD]) /\
  Forall (fun cp => is_scalar cp = true) [0x41; 0xFFFD].
Proof.
  assert (H : decode_utf8 Replace [Byte.x41; Byte.xff] = Some (Ok [0x41; 0xFFFD])) by reflexivity.
  split; [exact H|]. exact (decode_utf8_scalars Replace _ _ H).
Defined.

End Decoder.
