(* ===== verification/Path.v ===== *)
(** * Paths and the string operations the program applies to them

    [os.path.join] (lines 73 and, inside [os.walk], the sub-directory
    paths), [str.endswith] (line 70) and [+ '.bak'] (line 45) on POSIX
    paths held as [string].  [os.walk] lists the children of a directory
    [d]: the paths [path_join d n] for plain names [n] (non-empty, without
    ['/']).  Two spellings of a directory ([r] and [r/]) have the same
    children; [dir_key d] is the prefix they share, and [parent_key] and
    [base_name] split a path at its last ['/'], so that a child [p] of
    [d] is [dir_key d +:+ base_name p] with [parent_key p = dir_key d]. *)

From Stdlib Require Import List Lia Ascii.
From stdpp Require Import base strings.
Import ListNotations.

Module Path.

(** ** Definitions *)

(** [s.endswith(suffix)] *)
Definition ends_with (suffix s : string) : bool :=
  let n := String.length s in
  let k := String.length suffix in
  (k <=? n)%nat && String.eqb (String.substring (n - k) k s) suffix.

(** [os.path.join(a, b)] on POSIX, for a name [b] that is not absolute. *)
Definition path_join (a b : string) : string :=
  if String.eqb a "" || ends_with "/" a then a +:+ b else a +:+ "/" +:+ b.

Definition slash : ascii := "/"%char.

Fixpoint has_slash (s : string) : bool :=
  match s with
  | EmptyString => false
  | String c r => Ascii.eqb c slash || has_slash r
  end.

(** A name [os.scandir] can return: not empty, no separator. *)
Definition plain_name (n : string) : bool :=
  negb (String.eqb n "") && negb (has_slash n).

(** The common prefix of the children of [d]. *)
Definition dir_key (d : string) : string := path_join d "".

(** Everything up to and including the last ['/'] ([""] if none). *)
Fixpoint parent_key (p : string) : string :=
  match p with
  | EmptyString => ""
  | String c r =>
    if has_slash r then String c (parent_key r)
    else if Ascii.eqb c slash then String c "" else ""
  end.

(** What follows the last ['/']. *)
Fixpoint base_name (p : string) : string :=
  match p with
  | EmptyString => ""
  | String c r =>
    if has_slash r then base_name r
    else if Ascii.eqb c slash then r else p
  end.

(** ** Strings *)

Lemma string_app_cons (a : ascii) (x y : string) : String a x +:+ y = String a (x +:+ y).
Proof. reflexivity. Qed.

Lemma string_app_nil_r (s : string) : s +:+ "" = s.
Proof. induction s as [|c s IH]; [done|]. rewrite string_app_cons. by rewrite IH. Qed.

Lemma string_app_assoc (a b c : string) : a +:+ (b +:+ c) = (a +:+ b) +:+ c.
Proof. induction a as [|x a IH]; [done|]. rewrite !string_app_cons. by rewrite IH. Qed.

Lemma string_length_app (a b : string) :
  String.length (a +:+ b) = (String.length a + String.length b)%nat.
Proof. induction a as [|c a IH]; [reflexivity|]. rewrite string_app_cons. cbn. by rewrite IH. Qed.

Lemma substring_zero (n : nat) (s : string) : String.substring n 0 s = "".
Proof. revert n. induction s as [|c s IH]; intros [|n]; cbn; auto. Qed.

Lemma substring_full (s : string) : String.substring 0 (String.length s) s = s.
Proof. induction s as [|c s IH]; cbn; [done|]. by rewrite IH. Qed.

Lemma substring_app_r (pre suf : string) :
  String.substring (String.length pre) (String.length suf) (pre +:+ suf) = suf.
Proof. induction pre as [|c pre IH]; cbn; [apply substring_full|exact IH]. Qed.

Lemma substring_split (s : string) (i k : nat) :
  (i + k = String.length s)%nat ->
  s = String.substring 0 i s +:+ String.substring i k s.
Proof.
  revert i. induction s as [|c s IH]; intros [|i] H; cbn [String.length] in H; try lia.
  - assert (k = 0)%nat as -> by lia. reflexivity.
  - replace k with (String.length (String c s)) by (cbn; lia). by rewrite substring_full.
  - cbn. rewrite string_app_cons. f_equal. apply IH. lia.
Qed.

Lemma ends_with_spec (suf s : string) :
  ends_with suf s = true <-> exists pre, s = pre +:+ suf.
Proof.
  unfold ends_with. split.
  - intros H. apply andb_prop in H as [Hle Heq].
    apply Nat.leb_le in Hle. apply String.eqb_eq in Heq.
    exists (String.substring 0 (String.length s - String.length suf) s).
    rewrite <- Heq at 2. apply substring_split. lia.
  - intros [pre ->]. rewrite string_length_app.
    replace (String.length pre + String.length suf - String.length suf)%nat
      with (String.length pre) by lia.
    rewrite substring_app_r, String.eqb_refl, andb_true_r. apply Nat.leb_le. lia.
Qed.

Lemma ends_with_empty (s : string) : ends_with "" s = true.
Proof. unfold ends_with. cbn. rewrite substring_zero. by destruct (String.length s). Qed.

(** ** Joining and splitting paths *)

Lemma has_slash_app (a b : string) : has_slash (a +:+ b) = has_slash a || has_slash b.
Proof. induction a as [|c a IH]; [done|]. rewrite string_app_cons. cbn. rewrite IH. apply orb_assoc. Qed.

Lemma path_join_key (d n : string) : path_join d n = dir_key d +:+ n.
Proof.
  unfold dir_key, path_join. destruct (String.eqb d "" || ends_with "/" d).
  - by rewrite string_app_nil_r.
  - by rewrite <- string_app_assoc.
Qed.

(** A directory key is empty or ends with the separator. *)
Lemma dir_key_shape (d : string) : dir_key d = "" \/ exists x, dir_key d = x +:+ "/".
Proof.
  unfold dir_key, path_join. destruct (String.eqb_spec d "") as [->|Hd]; [by left|].
  cbn [orb]. destruct (ends_with "/" d) eqn:He.
  - right. apply ends_with_spec in He as [x ->]. exists x. apply string_app_nil_r.
  - right. exists d. reflexivity.
Qed.

Lemma parent_base_noslash (p : string) :
  has_slash p = false -> parent_key p = "" /\ base_name p = p.
Proof.
  induction p as [|c r IH]; [done|]. cbn. intros H. apply orb_false_iff in H as [Hc Hr].
  rewrite Hr, Hc. done.
Qed.

Lemma parent_base_app (pre n : string) :
  has_slash n = false -> (pre = "" \/ exists x, pre = x +:+ "/") ->
  parent_key (pre +:+ n) = pre /\ base_name (pre +:+ n) = n.
Proof.
  intros Hn [->|[x ->]]; [exact (parent_base_noslash n Hn)|].
  rewrite <- string_app_assoc. induction x as [|c x IH].
  - change ("" +:+ ("/" +:+ n)) with (String slash n). cbn [parent_key base_name].
    rewrite Hn. done.
  - rewrite (string_app_cons c x). cbn [parent_key base_name].
    replace (has_slash (x +:+ "/" +:+ n)) with true
      by (rewrite has_slash_app; cbn; by rewrite orb_true_r).
    destruct IH as [-> ->]. done.
Qed.

Lemma parent_key_join (d n : string) :
  plain_name n = true -> parent_key (path_join d n) = dir_key d /\ base_name (path_join d n) = n.
Proof.
  intros Hn. apply andb_prop in Hn as [_ Hn]. apply negb_true_iff in Hn.
  rewrite path_join_key. exact (parent_base_app _ _ Hn (dir_key_shape d)).
Qed.

Lemma parent_base_split (p : string) : p = parent_key p +:+ base_name p.
Proof.
  induction p as [|c r IH]; [done|]. cbn.
  destruct (has_slash r); [rewrite string_app_cons; by rewrite <- IH|].
  by destruct (Ascii.eqb c slash).
Qed.

(** A path whose parent is [dir_key d] is the join of [d] and its base name. *)
Lemma join_base_name (d p : string) :
  parent_key p = dir_key d -> path_join d (base_name p) = p.
Proof. intros H. rewrite path_join_key, <- H. symmetry. apply parent_base_split. Qed.

Lemma plain_name_bak (n : string) : plain_name n = true -> plain_name (n +:+ ".bak") = true.
Proof.
  unfold plain_name. intros H. apply andb_prop in H as [_ Hn].
  rewrite has_slash_app, negb_orb, Hn. by destruct n.
Qed.

Lemma path_join_bak (d n : string) : path_join d n +:+ ".bak" = path_join d (n +:+ ".bak").
Proof. rewrite !path_join_key. symmetry. apply string_app_assoc. Qed.

Lemma path_join_longer (d n : string) :
  plain_name n = true -> (String.length d < String.length (path_join d n))%nat.
Proof.
  intros Hn. apply andb_prop in Hn as [Hne _]. unfold path_join.
  destruct (String.eqb d "" || ends_with "/" d); rewrite !string_length_app;
    destruct n; cbn in *; try discriminate; lia.
Qed.

End Path.
