(* ===== verification/Text.v ===== *)
(** * The [str] values the program prints

    File names come from [os.walk] and the directory from [sys.argv]; on
    POSIX Python decodes both from bytes with the [surrogateescape]
    handler, so a name that is not valid UTF-8 becomes a [str] holding a
    lone surrogate [U+DC80]-[U+DCFF] for each undecodable byte.  The model
    keeps such a [str] as the bytes it was decoded from (a [string], one
    [ascii] per byte): [text_bytes].  [print] encodes its text for a UTF-8
    standard output with the [strict] handler, which raises
    [UnicodeEncodeError] exactly on those surrogates: [utf8_text s] says
    that [s] holds none, i.e. that its bytes are valid UTF-8.

    [repr] of such a [str] ([py_repr_str]) escapes each surrogate as
    [\udcXX], so its result always encodes.  [hex2] is the two-digit
    rendering [f'{b:02x}'] (line 25) that both use.  The lemmas show which
    texts always encode: ASCII ones (literals, numbers, hex digits), the
    results of [repr], and concatenations of texts that encode. *)

From Stdlib Require Import ZArith List Lia Ascii String.
From stdpp Require Import base strings pretty.
From S2P Require Import Prelude Unicode Codec Decoder Path.
Import ListNotations.

Module Text.
Import Codec Decoder Path.

(** ** Hex digits *)

Definition hex_digits : string := "0123456789abcdef".

(** One lowercase hexadecimal digit, [0 <= d < 16]. *)
Definition hex_digit (d : Z) : ascii :=
  match String.get (Z.to_nat d) hex_digits with
  | Some c => c
  | None => "0"%char
  end.

(** [f'{b:02x}'] *)
Definition hex2 (b : Byte.byte) : string :=
  String (hex_digit (bv b / 16)) (String (hex_digit (bv b mod 16)) EmptyString).

(** ** Texts *)

(** The bytes a [str] was decoded from. *)
Definition text_bytes (s : string) : list Byte.byte := String.list_byte_of_string s.

(** [s.encode('utf-8')] succeeds: [s] holds no surrogate. *)
Definition utf8_text (s : string) : bool :=
  match decode_utf8 Strict (text_bytes s) with
  | Some (Ok _) => true
  | _ => false
  end.

(** Every character below [0x80]. *)
Fixpoint ascii_text (s : string) : bool :=
  match s with
  | EmptyString => true
  | String c r => (Ascii.nat_of_ascii c <? 128)%nat && ascii_text r
  end.

(** [repr] of the characters decoded from [b]: a decodable character is
    copied, an undecodable byte [x] (always [>= 0x80]) is its surrogate's
    escape [\udcXX].  [fuel] bounds the rounds; [S (length b)] is enough. *)
Fixpoint repr_go (fuel : nat) (b : list Byte.byte) : string :=
  match fuel with
  | O => ""
  | S f =>
    match utf8_step b with
    | SEnd => ""
    | SChar _ n => String.string_of_list_byte (firstn n b) +:+ repr_go f (skipn n b)
    | SErr _ n =>
      String.concat "" (map (fun x => "\udc" +:+ hex2 x) (firstn n b)) +:+ repr_go f (skipn n b)
    end
  end.

(** [repr(s)], between single quotes. *)
Definition py_repr_str (s : string) : string :=
  "'" +:+ repr_go (S (length (text_bytes s))) (text_bytes s) +:+ "'".

(** ** Lemmas *)

Lemma text_bytes_cons (c : ascii) (s : string) :
  text_bytes (String c s) = Ascii.byte_of_ascii c :: text_bytes s.
Proof. reflexivity. Qed.

Lemma text_bytes_app (a b : string) : text_bytes (a +:+ b) = text_bytes a ++ text_bytes b.
Proof.
  induction a as [|c a IH]; [reflexivity|].
  rewrite string_app_cons, !text_bytes_cons, IH. reflexivity.
Qed.

Lemma text_bytes_of_list (l : list Byte.byte) : text_bytes (String.string_of_list_byte l) = l.
Proof. apply String.list_byte_of_string_of_list_byte. Qed.

Lemma utf8_text_spec (s : string) : utf8_text s = true <-> valid_utf8 (text_bytes s).
Proof.
  unfold utf8_text, decode_utf8. split.
  - destruct (decode_loop Strict _ 0 (text_bytes s)) as [[cps|e]|] eqn:H; try discriminate.
    intros _. exact (proj1 (loop_strict_ok _ _ _ _ H)).
  - intros Hv. destruct (loop_strict_complete (S (length (text_bytes s))) 0 _ Hv ltac:(lia)) as [cps H].
    by rewrite H.
Qed.

Lemma utf8_text_app (a b : string) :
  utf8_text a = true -> utf8_text b = true -> utf8_text (a +:+ b) = true.
Proof. rewrite !utf8_text_spec, text_bytes_app. apply valid_utf8_app. Qed.

Lemma wf_seq_ascii_byte (c : ascii) : (Ascii.nat_of_ascii c < 128)%nat -> wf_seq [Ascii.byte_of_ascii c] = true.
Proof.
  destruct c as [b0 b1 b2 b3 b4 b5 b6 b7].
  destruct b0, b1, b2, b3, b4, b5, b6, b7; intros H; vm_compute in H; try lia; reflexivity.
Qed.

Lemma ascii_utf8_text (s : string) : ascii_text s = true -> utf8_text s = true.
Proof.
  rewrite utf8_text_spec. induction s as [|c s IH]; cbn [ascii_text]; [constructor|].
  rewrite andb_true_iff, Nat.ltb_lt. intros [Hc Hs]. rewrite text_bytes_cons.
  apply (valid_cons [Ascii.byte_of_ascii c]); [exact (wf_seq_ascii_byte c Hc)|exact (IH Hs)].
Qed.

Lemma ascii_text_app (a b : string) :
  ascii_text a = true -> ascii_text b = true -> ascii_text (a +:+ b) = true.
Proof.
  induction a as [|c a IH]; [done|]. rewrite string_app_cons. cbn [ascii_text].
  rewrite !andb_true_iff. intros [Hc Ha] Hb. auto.
Qed.

Lemma ascii_pretty_N_go (x : N) (s : string) :
  ascii_text s = true -> ascii_text (pretty_N_go x s) = true.
Proof.
  revert s. induction (N.lt_wf_0 x) as [x _ IH]; intros s Hs.
  destruct (decide (x = 0)%N) as [->|Hx]; [by rewrite pretty_N_go_0|].
  rewrite pretty_N_go_step by lia. apply IH; [apply N.div_lt; lia|].
  cbn [ascii_text]. rewrite Hs, andb_true_r.
  unfold pretty_N_char. by repeat case_match.
Qed.

Lemma ascii_pretty (n : nat) : ascii_text (pretty n) = true.
Proof.
  unfold pretty, pretty_nat, pretty, pretty_N.
  case_decide; [reflexivity|]. by apply ascii_pretty_N_go.
Qed.

Lemma ascii_hex2 (b : Byte.byte) : ascii_text (hex2 b) = true.
Proof. destruct b; reflexivity. Qed.

Lemma ascii_concat (sep : string) (l : list string) :
  ascii_text sep = true -> Forall (fun x => ascii_text x = true) l ->
  ascii_text (String.concat sep l) = true.
Proof.
  intros Hsep Hl. induction Hl as [|x l Hx Hl IH]; [reflexivity|].
  destruct l as [|y l]; [exact Hx|].
  change (String.concat sep (x :: y :: l)) with (x +:+ sep +:+ String.concat sep (y :: l)).
  auto using ascii_text_app.
Qed.

Lemma utf8_concat (sep : string) (l : list string) :
  utf8_text sep = true -> Forall (fun x => utf8_text x = true) l ->
  utf8_text (String.concat sep l) = true.
Proof.
  intros Hsep Hl. induction Hl as [|x l Hx Hl IH]; [reflexivity|].
  destruct l as [|y l]; [exact Hx|].
  change (String.concat sep (x :: y :: l)) with (x +:+ sep +:+ String.concat sep (y :: l)).
  auto using utf8_text_app.
Qed.

Lemma utf8_text_of_list (l : list Byte.byte) :
  valid_utf8 l -> utf8_text (String.string_of_list_byte l) = true.
Proof. intros H. apply utf8_text_spec. by rewrite text_bytes_of_list. Qed.

Lemma utf8_repr_go (f : nat) (b : list Byte.byte) : utf8_text (repr_go f b) = true.
Proof.
  revert b. induction f as [|f IH]; intros b; [reflexivity|]. cbn [repr_go].
  destruct (utf8_step b) as [|cp n|r n] eqn:Hs; [reflexivity| |]; apply utf8_text_app; auto.
  - apply utf8_text_of_list. destruct (utf8_step_char b cp n Hs) as (_ & Hwf & _).
    rewrite <- (app_nil_r (firstn n b)). constructor; [exact Hwf|constructor].
  - apply ascii_utf8_text, ascii_concat; [reflexivity|].
    apply Forall_forall. intros x Hx. apply list_elem_of_fmap in Hx as (y & -> & _).
    apply ascii_text_app; [reflexivity|apply ascii_hex2].
Qed.

Lemma utf8_repr (s : string) : utf8_text (py_repr_str s) = true.
Proof.
  unfold py_repr_str. apply utf8_text_app; [reflexivity|].
  apply utf8_text_app; [apply utf8_repr_go|reflexivity].
Qed.

End Text.

Create HintDb text.
#[export] Hint Resolve Text.utf8_text_app Text.ascii_utf8_text Text.ascii_text_app
  Text.ascii_pretty Text.ascii_hex2 Text.utf8_repr Text.utf8_repr_go : text.
#[export] Hint Extern 5 (Text.ascii_text _ = true) => reflexivity : text.
#[export] Hint Extern 5 (Text.utf8_text (String _ _) = true) => reflexivity : text.
#[export] Hint Extern 5 (Text.utf8_text EmptyString = true) => reflexivity : text.
