(* ===== verification/Fs.v ===== *)
(** * The file system as [fix_utf8.py] uses it

    The program touches files in four ways: [open(p, 'rb').read()]
    (lines 9-10 and 38-39), [open(p, 'wb').write(b)] (lines 46-47),
    [open(p, 'w', encoding='utf-8').write(t)] (lines 50-51) and
    [os.path.getsize(p)] (line 78).  Each may raise [OSError].  The
    program also writes to standard output with [print] (lines 97-99 and
    112-136), which raises [UnicodeEncodeError] on a text holding a
    surrogate ([Text]).

    [FileStore] is the interface those operations offer to the program,
    and [FileStoreLaws] what they promise about the bytes on disk
    ([fs_contents]); [Scan] and [Fix] are proved against the laws only.
    [Store] is a concrete file store (a [gmap] from paths to contents, a
    set of directories, and injected read and write faults) that satisfies
    them.  The state also holds what has been printed ([fs_stdout]); a
    print changes nothing else ([disk_eq]).  [M] is the
    state-and-exception monad in which the program's handlers run,
    [catch] being Python's [try ... except Exception]. *)

From Stdlib Require Import ZArith List Lia.
From stdpp Require Import base gmap strings pretty.
From S2P Require Import Prelude Decoder Path Text.
Import ListNotations.

Module Fs.
Import Path Text.

Abbreviation path := string.

(** ** Errors *)

(** The [errno] values the model distinguishes. *)
Inductive errno : Type := ENOENT | EACCES | EISDIR | ENOSPC | EIO.

#[export] Instance errno_eq_dec : EqDecision errno.
Proof. solve_decision. Defined.

Definition errno_code (e : errno) : nat :=
  match e with ENOENT => 2 | EACCES => 13 | EISDIR => 21 | ENOSPC => 28 | EIO => 5 end.

Definition strerror (e : errno) : string :=
  match e with
  | ENOENT => "No such file or directory"
  | EACCES => "Permission denied"
  | EISDIR => "Is a directory"
  | ENOSPC => "No space left on device"
  | EIO => "Input/output error"
  end.

(** [OSError(errno, strerror[, filename])]: [open] and [os.scandir] give
    the path; an error of [read()], [write()] or the closing flush has no
    filename. *)
Record io_error : Type := mk_io_error { io_errno : errno; io_filename : option path }.

(** [str(OSError)]: ["[Errno 2] No such file or directory: 'p'"], the
    filename's [repr] when there is one; ["[Errno 28] No space left on
    device"] otherwise. *)
Definition str_io_error (e : io_error) : string :=
  "[Errno " +:+ pretty (errno_code (io_errno e)) +:+ "] " +:+ strerror (io_errno e) +:+
  match io_filename e with
  | Some p => ": " +:+ py_repr_str p
  | None => ""
  end.

(** The exceptions the program can raise: an [OSError] from a file
    operation, the [UnicodeEncodeError] of a text write (with the index
    of the character), and the [UnicodeEncodeError] of a [print], which
    nothing catches; [PrintErr] holds the interpolated [str] that does not
    encode. *)
Inductive exn : Type :=
| OSErr (e : io_error)
| EncodeErr (pos : nat)
| PrintErr (part : string).

Definition str_exn (x : exn) : string :=
  match x with
  | OSErr e => str_io_error e
  | EncodeErr i =>
      "'utf-8' codec can't encode character in position " +:+ pretty i
      +:+ ": surrogates not allowed"
  | PrintErr _ => "'utf-8' codec can't encode character: surrogates not allowed"
  end.

(** ** The interface *)

Class FileStore (S : Type) := {
  (** [open(p, 'rb').read()] *)
  fs_read : S -> path -> result (list Byte.byte) io_error;
  (** [open(p, 'wb').write(b)] and the close that flushes it; a failure
      may leave a partly written file, so the new state is returned in
      every case. *)
  fs_write : S -> path -> list Byte.byte -> S * option io_error;
  (** [os.path.getsize(p)] *)
  fs_getsize : S -> path -> result nat io_error;
  (** [os.scandir(d)] as [os.walk] consumes it (lines 61-66): the names of
      the files and of the sub-directories of [d], in [scandir] order. *)
  fs_listdir : S -> path -> result (list string * list string) io_error;
  (** The bytes stored at [p], if [p] is a file. *)
  fs_contents : S -> path -> option (list Byte.byte);
  (** Not a file operation: a ranking of directories, lower for a listed
      sub-directory than for its parent, which a finite tree without
      symbolic links has; it bounds the depth [os.walk] descends to. *)
  fs_rank : S -> path -> nat;
  (** [sys.stdout]: one more printed text, and all of them so far. *)
  fs_print : S -> string -> S;
  fs_stdout : S -> list string
}.

Class FileStoreLaws (S : Type) `{FileStore S} := {
  read_contents s p b : fs_read s p = Ok b -> fs_contents s p = Some b;
  write_ok_contents s p b s' : fs_write s p b = (s', None) -> fs_contents s' p = Some b;
  write_frame s p b s' r q : q <> p -> fs_write s p b = (s', r) ->
    fs_contents s' q = fs_contents s q;
  getsize_contents s p n : fs_getsize s p = Ok n ->
    exists b, fs_contents s p = Some b /\ n = length b;
  (** Writing [p] changes only the listing of the directory holding [p]. *)
  listdir_write_frame s p b s' r d : parent_key p <> dir_key d ->
    fs_write s p b = (s', r) -> fs_listdir s' d = fs_listdir s d;
  (** Listed names are plain names. *)
  listdir_plain s d fs ds : fs_listdir s d = Ok (fs, ds) ->
    Forall (fun n => plain_name n = true) fs /\ Forall (fun n => plain_name n = true) ds;
  rank_child s d fs ds c : fs_listdir s d = Ok (fs, ds) -> In c ds ->
    (fs_rank s (path_join d c) < fs_rank s d)%nat;
  (** Printing touches standard output only, and writing a file does not
      touch it. *)
  print_read s t p : fs_read (fs_print s t) p = fs_read s p;
  print_getsize s t p : fs_getsize (fs_print s t) p = fs_getsize s p;
  print_listdir s t d : fs_listdir (fs_print s t) d = fs_listdir s d;
  print_contents s t p : fs_contents (fs_print s t) p = fs_contents s p;
  print_rank s t d : fs_rank (fs_print s t) d = fs_rank s d;
  print_stdout s t : fs_stdout (fs_print s t) = fs_stdout s ++ [t];
  write_stdout s p b s' r : fs_write s p b = (s', r) -> fs_stdout s' = fs_stdout s
}.

(** ** The monad *)

Section Monad.
Context {S : Type} `{FileStore S}.

Definition M (A : Type) : Type := S -> S * result A exn.

Definition ret {A} (a : A) : M A := fun s => (s, Ok a).

Definition bind {A B} (m : M A) (k : A -> M B) : M B :=
  fun s => match m s with
           | (s', Ok a) => k a s'
           | (s', Err e) => (s', Err e)
           end.

(** [try m except Exception as e: h(e)] *)
Definition catch {A} (m : M A) (h : exn -> M A) : M A :=
  fun s => match m s with
           | (s', Err e) => h e s'
           | r => r
           end.

Definition read_bytes (p : path) : M (list Byte.byte) :=
  fun s => match fs_read s p with
           | Ok b => (s, Ok b)
           | Err e => (s, Err (OSErr e))
           end.

Definition write_bytes (p : path) (b : list Byte.byte) : M unit :=
  fun s => match fs_write s p b with
           | (s', None) => (s', Ok tt)
           | (s', Some e) => (s', Err (OSErr e))
           end.

(** [open(p, 'w', encoding='utf-8').write(t)]: opening truncates the
    file; the text is encoded when written, and an encoding error leaves
    the truncated file.  (Newline translation is the identity on POSIX,
    where [os.linesep] is ["\n"].) *)
Definition write_text (p : path) (t : list Z) : M unit :=
  fun s => match Decoder.encode_str t with
           | Ok b => write_bytes p b s
           | Err i => match fs_write s p [] with
                      | (s', None) => (s', Err (EncodeErr i))
                      | (s', Some e) => (s', Err (OSErr e))
                      end
           end.

(** [os.scandir(d)], as [os.walk] calls it. *)
Definition listdir (d : path) : M (list string * list string) :=
  fun s => match fs_listdir s d with
           | Ok l => (s, Ok l)
           | Err e => (s, Err (OSErr e))
           end.

Definition getsize (p : path) : M nat :=
  fun s => match fs_getsize s p with
           | Ok n => (s, Ok n)
           | Err e => (s, Err (OSErr e))
           end.

(** [print(f"...")] of the f-string whose pieces are [parts], each a
    [str]: the text is encoded for a UTF-8 standard output with the
    [strict] handler before anything is written, so the first part
    holding a surrogate raises [UnicodeEncodeError] and nothing is
    printed. *)
Definition print (parts : list string) : M unit :=
  fun s => match List.find (fun x => negb (utf8_text x)) parts with
           | Some x => (s, Err (PrintErr x))
           | None => (fs_print s (String.concat "" parts), Ok tt)
           end.

(** Consecutive [print] calls, each given as its parts. *)
Fixpoint print_lines (ls : list (list string)) : M unit :=
  match ls with
  | [] => ret tt
  | l :: ls' => bind (print l) (fun _ => print_lines ls')
  end.

(** Two states agree on everything but what has been printed. *)
Definition disk_eq (s s' : S) : Prop :=
  forall p, fs_read s' p = fs_read s p /\ fs_getsize s' p = fs_getsize s p /\
            fs_listdir s' p = fs_listdir s p /\ fs_contents s' p = fs_contents s p /\
            fs_rank s' p = fs_rank s p.

End Monad.

Declare Scope io_scope.
Delimit Scope io_scope with io.
Notation "x <- m ;; k" := (bind m (fun x => k))
  (at level 100, m at next level, k at level 200, right associativity) : io_scope.
Notation "m ;; k" := (bind m (fun _ => k))
  (at level 100, k at level 200, right associativity) : io_scope.

(** ** A concrete store *)

Inductive write_fault : Type :=
| OpenFault (e : errno)            (* [open] raises: nothing changes *)
| WriteFault (k : nat) (e : errno). (* [k] bytes reach the disk, then it raises *)

Record store : Type := mk_st {
  st_files : gmap path (list Byte.byte);
  st_dirs : gset path;
  st_read_faults : gmap path errno;
  st_write_faults : gmap path write_fault;
  st_stdout : list string
}.

(** A store before anything is printed. *)
Definition mk_store (files : gmap path (list Byte.byte)) (dirs : gset path)
    (rf : gmap path errno) (wf : gmap path write_fault) : store :=
  mk_st files dirs rf wf [].

Definition set_file (s : store) (p : path) (b : list Byte.byte) : store :=
  mk_st (<[p := b]> (st_files s)) (st_dirs s) (st_read_faults s) (st_write_faults s) (st_stdout s).

(** A read fault is raised by [open] (with the filename), except [EIO],
    which [read()] raises (without one). *)
Definition read_fault (e : errno) (p : path) : io_error :=
  mk_io_error e (match e with EIO => None | _ => Some p end).

Definition st_read (s : store) (p : path) : result (list Byte.byte) io_error :=
  if decide (p ∈ st_dirs s) then Err (mk_io_error EISDIR (Some p))
  else match st_read_faults s !! p with
       | Some e => Err (read_fault e p)
       | None => match st_files s !! p with
                 | Some b => Ok b
                 | None => Err (mk_io_error ENOENT (Some p))
                 end
       end.

Definition st_write (s : store) (p : path) (b : list Byte.byte) : store * option io_error :=
  if decide (p ∈ st_dirs s) then (s, Some (mk_io_error EISDIR (Some p)))
  else match st_write_faults s !! p with
       | Some (OpenFault e) => (s, Some (mk_io_error e (Some p)))
       | Some (WriteFault k e) => (set_file s p (take k b), Some (mk_io_error e None))
       | None => (set_file s p b, None)
       end.

(** [getsize] is [stat().st_size]: it needs no read permission. *)
Definition st_getsize (s : store) (p : path) : result nat io_error :=
  match st_files s !! p with
  | Some b => Ok (length b)
  | None => Err (mk_io_error ENOENT (Some p))
  end.

(** The names of the children of [d] among the paths [X]. *)
Definition children (d : path) (X : gset path) : gset string :=
  set_map base_name (filter (fun k => parent_key k = dir_key d /\ plain_name (base_name k) = true) X).

(** [os.scandir(d)]: a directory lists its children in the order of
    [elements]; anything else fails.  The errno of a failed listing is
    never observed ([os.walk] discards it), so every failure is
    [ENOENT] unless a fault is injected. *)
Definition st_listdir (s : store) (d : path) : result (list string * list string) io_error :=
  match st_read_faults s !! d with
  | Some e => Err (mk_io_error e (Some d))
  | None =>
    if decide (d ∈ st_dirs s)
    then Ok (elements (children d (dom (st_files s))), elements (children d (st_dirs s)))
    else Err (mk_io_error ENOENT (Some d))
  end.

(** Longer paths rank lower; no directory path is longer than the longest one. *)
Definition st_rank (s : store) (d : path) : nat :=
  S (list_max (map String.length (elements (st_dirs s)))) - String.length d.

#[export] Instance store_fs : FileStore store := {
  fs_read := st_read;
  fs_write := st_write;
  fs_getsize := st_getsize;
  fs_listdir := st_listdir;
  fs_contents := fun s p => st_files s !! p;
  fs_rank := st_rank;
  fs_print := fun s t => mk_st (st_files s) (st_dirs s) (st_read_faults s) (st_write_faults s)
                               (st_stdout s ++ [t]);
  fs_stdout := st_stdout
}.

Lemma children_spec (d : path) (X : gset path) (n : string) :
  n ∈ children d X -> plain_name n = true /\ path_join d n ∈ X.
Proof.
  unfold children. rewrite elem_of_map. intros (k & -> & Hk).
  apply elem_of_filter in Hk as [[Hp Hn] Hk]. split; [exact Hn|]. by rewrite join_base_name.
Qed.

Lemma children_insert (d p : path) (X : gset path) :
  parent_key p <> dir_key d -> children d ({[p]} ∪ X) = children d X.
Proof.
  intros Hp. unfold children. rewrite filter_union_L, filter_singleton_False_L; try apply _.
  - by rewrite (left_id_L ∅ union).
  - intros H. exact (Hp (proj1 H)).
Qed.

Lemma elements_plain (d : path) (X : gset path) :
  Forall (fun n => plain_name n = true) (elements (children d X)).
Proof.
  apply Forall_forall. intros n Hn. rewrite elem_of_elements in Hn.
  exact (proj1 (children_spec d X n Hn)).
Qed.

#[export] Instance store_fs_laws : FileStoreLaws store.
Proof.
  constructor; cbn.
  - intros s p b. unfold st_read.
    case_decide; [discriminate|]. destruct (st_read_faults s !! p); [discriminate|].
    destruct (st_files s !! p); [|discriminate]. intros Hb. apply Ok_inj in Hb. congruence.
  - intros s p b s'. unfold st_write.
    case_decide; [discriminate|].
    destruct (st_write_faults s !! p) as [[e|k e]|]; try discriminate.
    intros Hw. injection Hw as <-. cbn. apply lookup_insert_eq.
  - intros s p b s' r q Hq. unfold st_write.
    case_decide; [congruence|].
    destruct (st_write_faults s !! p) as [[e|k e]|]; intros Hw; injection Hw as <- _;
      cbn; rewrite ?lookup_insert_ne by congruence; reflexivity.
  - intros s p n. unfold st_getsize. destruct (st_files s !! p); [|discriminate].
    intros Hn. apply Ok_inj in Hn. eauto.
  - intros s p b s' r d Hp. unfold st_write.
    case_decide; [congruence|].
    destruct (st_write_faults s !! p) as [[e|k e]|]; intros Hw; injection Hw as <- _;
      unfold st_listdir, set_file; cbn; rewrite ?dom_insert_L, ?children_insert by exact Hp;
      reflexivity.
  - intros s d fs ds. unfold st_listdir.
    destruct (st_read_faults s !! d); [discriminate|]. case_decide; [|discriminate].
    intros Hl. apply Ok_inj in Hl. injection Hl as <- <-. split; apply elements_plain.
  - intros s d fs ds c. unfold st_listdir, st_rank.
    destruct (st_read_faults s !! d); [discriminate|]. case_decide; [|discriminate].
    intros Hl Hc. apply Ok_inj in Hl. injection Hl as _ <-.
    rewrite <- list_elem_of_In, elem_of_elements in Hc. apply children_spec in Hc as [Hn Hin].
    pose proof (path_join_longer d c Hn).
    assert (Hall := proj1 (list_max_le (map String.length (elements (st_dirs s))) _) (le_n _)).
    rewrite List.Forall_forall in Hall.
    assert (Hle := Hall _ (in_map _ _ _ (proj1 (list_elem_of_In _ _) (proj2 (elem_of_elements _ _) Hin)))).
    lia.
  - reflexivity.
  - reflexivity.
  - reflexivity.
  - reflexivity.
  - reflexivity.
  - reflexivity.
  - intros s p b s' r. unfold st_write.
    case_decide; [intros [= <- _]; reflexivity|].
    destruct (st_write_faults s !! p) as [[e|k e]|]; intros [= <- _]; reflexivity.
Qed.

(** A step that returns lets [bind] continue in the state it leaves. *)
Lemma bind_ok {S} `{FileStore S} {A B} (m : M A) (k : A -> M B) (s s1 : S) (a : A) :
  m s = (s1, Ok a) -> bind m k s = k a s1.
Proof. intros E. unfold bind. by rewrite E. Qed.

Lemma bind_err {S} `{FileStore S} {A B} (m : M A) (k : A -> M B) (s s1 : S) (x : exn) :
  m s = (s1, Err x) -> bind m k s = (s1, Err x).
Proof. intros E. unfold bind. by rewrite E. Qed.

(** ** Printing *)

Section Printing.
Context {S : Type} {FS : FileStore S} {FSL : FileStoreLaws S}.

#[export] Instance disk_eq_equiv : Equivalence (disk_eq (S:=S)).
Proof.
  split.
  - intros s p. auto.
  - intros s s' H p. destruct (H p) as (? & ? & ? & ? & ?). auto.
  - intros s1 s2 s3 H12 H23 p.
    destruct (H12 p) as (? & ? & ? & ? & ?), (H23 p) as (? & ? & ? & ? & ?). split_and!; congruence.
Qed.

Lemma disk_eq_print (s : S) (t : string) : disk_eq s (fs_print s t).
Proof. intros p. rewrite print_read, print_getsize, print_listdir, print_contents, print_rank. auto. Qed.

(** The text of one [print]. *)
Definition line_text (parts : list string) : string := String.concat "" parts.

Lemma print_ok (parts : list string) (s : S) :
  Forall (fun x => utf8_text x = true) parts ->
  print parts s = (fs_print s (line_text parts), Ok tt).
Proof.
  intros H. unfold print. replace (List.find _ parts) with (@None string); [reflexivity|].
  symmetry. induction H as [|x l Hx _ IH]; [reflexivity|]. cbn. by rewrite Hx.
Qed.

Lemma print_lines_cons (l : list string) (ls : list (list string)) (s : S) :
  print_lines (l :: ls) s = bind (print l) (fun _ => print_lines ls) s.
Proof. reflexivity. Qed.

Lemma print_lines_app (l1 l2 : list (list string)) (s : S) :
  print_lines (l1 ++ l2) s = bind (print_lines l1) (fun _ => print_lines l2) s.
Proof.
  revert s. induction l1 as [|l l1 IH]; intros s; [reflexivity|].
  cbn [app print_lines]. unfold bind.
  destruct (print l s) as [s1 [[]|e]]; [|reflexivity]. rewrite IH. reflexivity.
Qed.

Lemma print_disk_eq (parts : list string) (s s' : S) (o : result unit exn) :
  print parts s = (s', o) -> disk_eq s s'.
Proof.
  unfold print. destruct (List.find _ parts); intros [= <- _]; [reflexivity|apply disk_eq_print].
Qed.

Lemma print_lines_disk_eq (ls : list (list string)) (s s' : S) (o : result unit exn) :
  print_lines ls s = (s', o) -> disk_eq s s'.
Proof.
  revert s. induction ls as [|l ls IH]; intros s; [intros [= <- _]; reflexivity|].
  rewrite print_lines_cons. unfold bind.
  destruct (print l s) as [s1 [[]|e]] eqn:E; intros H.
  - etrans; [exact (print_disk_eq l s s1 _ E)|exact (IH s1 H)].
  - injection H as <- _. exact (print_disk_eq l s s1 _ E).
Qed.

(** Lines that all encode are printed in order. *)
Lemma print_lines_ok (ls : list (list string)) (s : S) :
  Forall (Forall (fun x => utf8_text x = true)) ls ->
  print_lines ls s = (fold_left fs_print (map line_text ls) s, Ok tt).
Proof.
  revert s. induction ls as [|l ls IH]; intros s H; [reflexivity|].
  apply Forall_cons in H as [Hl H]. rewrite print_lines_cons.
  unfold bind. rewrite (print_ok l s Hl). exact (IH _ H).
Qed.

(** A line holding a part that does not encode stops the printing there. *)
Lemma print_lines_err (ls : list (list string)) (s : S) :
  Exists (Exists (fun x => utf8_text x = false)) ls ->
  exists s' x, print_lines ls s = (s', Err (PrintErr x)) /\ utf8_text x = false.
Proof.
  revert s. induction ls as [|l ls IH]; intros s H; [inversion H|].
  rewrite print_lines_cons. unfold bind, print.
  destruct (List.find (fun x => negb (utf8_text x)) l) as [x|] eqn:E.
  - apply find_some in E as [_ E]. exists s, x. split; [reflexivity|]. by destruct (utf8_text x).
  - apply Exists_cons in H as [H|H]; [|exact (IH _ H)].
    exfalso. apply Exists_exists in H as (x & Hx & Hf).
    apply list_elem_of_In, (find_none _ _ E x) in Hx. rewrite Hf in Hx. discriminate.
Qed.

(** Whatever the outcome, a failed print failed on a part that does not encode. *)
Lemma print_lines_outcome (ls : list (list string)) (s s' : S) (x : exn) :
  print_lines ls s = (s', Err x) -> exists p, x = PrintErr p /\ utf8_text p = false.
Proof.
  revert s. induction ls as [|l ls IH]; intros s; [discriminate|].
  rewrite print_lines_cons. unfold bind, print.
  destruct (List.find (fun x => negb (utf8_text x)) l) as [p|] eqn:E.
  - intros [= _ <-]. apply find_some in E as [_ E]. exists p. split; [done|]. by destruct (utf8_text p).
  - apply IH.
Qed.

Lemma disk_eq_read (s s' : S) (p : path) : disk_eq s s' -> fs_read s' p = fs_read s p.
Proof. intros H. apply (H p). Qed.

Lemma disk_eq_getsize (s s' : S) (p : path) : disk_eq s s' -> fs_getsize s' p = fs_getsize s p.
Proof. intros H. apply (H p). Qed.

Lemma disk_eq_listdir (s s' : S) (d : path) : disk_eq s s' -> fs_listdir s' d = fs_listdir s d.
Proof. intros H. apply (H d). Qed.

Lemma disk_eq_rank (s s' : S) (d : path) : disk_eq s s' -> fs_rank s' d = fs_rank s d.
Proof. intros H. apply (H d). Qed.

Lemma fold_print_disk_eq (ts : list string) (s : S) : disk_eq s (fold_left fs_print ts s).
Proof.
  revert s. induction ts as [|t ts IH]; intros s; [reflexivity|].
  cbn [fold_left]. etrans; [apply disk_eq_print|apply IH].
Qed.

(** What has been printed after a run of prints. *)
Lemma fold_print_stdout (ts : list string) (s : S) :
  fs_stdout (fold_left fs_print ts s) = fs_stdout s ++ ts.
Proof.
  revert s. induction ts as [|t ts IH]; intros s; [by rewrite app_nil_r|].
  cbn [fold_left]. rewrite IH, print_stdout, <- app_assoc. reflexivity.
Qed.

(** A run of prints that returns has printed every line. *)
Lemma print_lines_ok_state (ls : list (list string)) (s s' : S) :
  print_lines ls s = (s', Ok tt) -> s' = fold_left fs_print (map line_text ls) s.
Proof.
  revert s. induction ls as [|l ls IH]; intros s; [by intros [= <-]|].
  rewrite print_lines_cons. unfold bind, print.
  destruct (List.find _ l); [discriminate|]. apply IH.
Qed.

End Printing.

End Fs.
