(* ===== verification/Scan.v ===== *)
(** * [scan_file] (lines 6-33 of [fix_utf8.py])

    [scan_file] reads the file, tries the strict decode of line 14, and on
    a [UnicodeDecodeError] returns the issue record of lines 27-31: the
    error message [str(e)], the position [e.start], and the hex rendering
    of the bytes [content[max(0, e.start-20) : min(len, e.end+20)]].  Any
    exception of the read becomes the record of line 33.  Python's
    dictionaries become the two constructors of [issue]; [None] (no issue)
    is [None]. *)

From stdpp Require Import base strings pretty.
From Stdlib Require Import ZArith List Lia Ascii.
From S2P Require Import Prelude Unicode Codec Decoder Text Fs.
Import ListNotations.

Module Scan.
Import Codec Decoder Text Fs.

(** ** Hex rendering *)

(* [hex_digits], [hex_digit] and [hex2] ([f'{b:02x}']) are in [Text]. *)

(** [' '.join(f'{b:02x}' for b in context)] (line 25) *)
Definition hex_repr (bs : list Byte.byte) : string :=
  String.concat " " (map hex2 bs).

(** ** The error message *)

Definition reason_str (r : reason) : string :=
  match r with
  | InvalidStartByte => "invalid start byte"
  | InvalidContinuationByte => "invalid continuation byte"
  | UnexpectedEndOfData => "unexpected end of data"
  end.

(** [str(UnicodeDecodeError)] ([UnicodeDecodeError_str] in
    [Objects/exceptions.c]): one byte is shown by value, a longer range by
    its first and last positions. *)
Definition str_decode_error (obj : list Byte.byte) (e : decode_error) : string :=
  if (err_start e <? length obj)%nat && (err_end e =? S (err_start e))%nat then
    "'utf-8' codec can't decode byte 0x" +:+ hex2 (nth (err_start e) obj Byte.x00)
    +:+ " in position " +:+ pretty (err_start e) +:+ ": " +:+ reason_str (err_reason e)
  else
    "'utf-8' codec can't decode bytes in position " +:+ pretty (err_start e) +:+ "-"
    +:+ pretty (err_end e - 1) +:+ ": " +:+ reason_str (err_reason e).

(** ** The issue record *)

Inductive issue : Type :=
| DecodeIssue (error : string) (position : nat) (hex_context : string)  (* lines 27-31 *)
| AccessIssue (error : string).                                         (* line 33 *)

(** [issue.get('error')] (lines 97 and 130). *)
Definition issue_error (i : issue) : string :=
  match i with DecodeIssue e _ _ => e | AccessIssue e => e end.

(** [issue.get('hex_context')] (line 131): [None] for an access issue. *)
Definition issue_hex_context (i : issue) : string :=
  match i with DecodeIssue _ _ h => h | AccessIssue _ => "None" end.

(** [content[i:j]] for [0 <= i] and [0 <= j]. *)
Definition py_slice {A} (l : list A) (i j : Z) : list A :=
  firstn (Z.to_nat (j - i)) (skipn (Z.to_nat i) l).

(** Lines 18-19: [start = max(0, e.start - 20)], [end = min(len(content), e.end + 20)]. *)
Definition context_window (content : list Byte.byte) (e : decode_error) : Z * Z :=
  (Z.max 0 (Z.of_nat (err_start e) - 20),
   Z.min (Z.of_nat (length content)) (Z.of_nat (err_end e) + 20)).

(** Lines 18-31. *)
Definition decode_issue (content : list Byte.byte) (e : decode_error) : issue :=
  let '(ws, we) := context_window content e in
  DecodeIssue (str_decode_error content e) (err_start e) (hex_repr (py_slice content ws we)).

(** ** Reading a hex dump back (specification side) *)

Fixpoint hex_index (c : ascii) (s : string) (i : Z) : option Z :=
  match s with
  | EmptyString => None
  | String d s' => if Ascii.eqb c d then Some i else hex_index c s' (i + 1)
  end.

Definition hex_val (c : ascii) : option Z := hex_index c hex_digits 0.

(** Parses ["hh hh ... hh"] back into bytes. *)
Fixpoint parse_hex (s : string) : option (list Byte.byte) :=
  match s with
  | EmptyString => Some []
  | String c1 (String c2 rest) =>
    match hex_val c1, hex_val c2 with
    | Some h, Some l =>
      let b := byte_of (16 * h + l) in
      match rest with
      | EmptyString => Some [b]
      | String sep rest' =>
        if Ascii.eqb sep " " then
          match rest' with
          | EmptyString => None
          | _ => option_map (cons b) (parse_hex rest')
          end
        else None
      end
    | _, _ => None
    end
  | _ => None
  end.

Section ScanFile.
Context {St : Type} {FS : FileStore St}.
Local Open Scope io_scope.

(** Lines 6-33.  The strict decode always returns ([decode_utf8_total]);
    the last branch of the [match] is never taken. *)
Definition scan_file (p : path) : M (option issue) :=
  catch (content <- read_bytes p ;;
         match decode_utf8 Strict content with
         | Some (Err e) => ret (Some (decode_issue content e))
         | Some (Ok _) => ret None
         | None => ret None
         end)
        (fun x => ret (Some (AccessIssue ("Failed to process file: " +:+ str_exn x)))).

(** How [scan_file] unfolds once the read has happened. *)
Lemma scan_file_read_ok (p : path) (s : St) (b : list Byte.byte) :
  fs_read s p = Ok b ->
  scan_file p s = (s, Ok (match decode_utf8 Strict b with
                         | Some (Err e) => Some (decode_issue b e)
                         | _ => None
                         end)).
Proof.
  intros H. unfold scan_file, catch, bind, read_bytes. rewrite H.
  destruct (decode_utf8 Strict b) as [[l|e]|]; reflexivity.
Qed.

(** [scan_file] never lets an exception escape and never changes
    the file system: every outcome is a value of the [try] of lines 8-33. *)
Theorem scan_file_total (p : path) (s : St) :
  exists r, scan_file p s = (s, Ok r).
Proof.
  destruct (fs_read s p) as [b|e] eqn:H.
  - rewrite (scan_file_read_ok p s b H). eauto.
  - unfold scan_file, catch, bind, read_bytes. rewrite H. eauto.
Qed.

(** C38: when the file cannot be read, the issue is the record of line
    33 with the text of the [OSError]. *)
Theorem scan_file_access_error (p : path) (s : St) (e : io_error) :
  fs_read s p = Err e ->
  scan_file p s =
    (s, Ok (Some (AccessIssue ("Failed to process file: " +:+ str_io_error e)))).
Proof. intros H. unfold scan_file, catch, bind, read_bytes. rewrite H. reflexivity. Qed.

(** The messages [scan_file] records always encode: [str(e)] of a
    decode error is ASCII, and [str(OSError)] shows the filename through
    [repr]. *)
Lemma ascii_str_decode_error (b : list Byte.byte) (e : decode_error) :
  ascii_text (str_decode_error b e) = true.
Proof.
  assert (Hr : forall r, ascii_text (reason_str r) = true) by (intros []; reflexivity).
  unfold str_decode_error. case_match; repeat apply ascii_text_app; auto with text.
Qed.

Lemma utf8_str_exn (x : exn) : utf8_text (str_exn x) = true.
Proof.
  assert (He : forall e, ascii_text (strerror e) = true) by (intros []; reflexivity).
  destruct x as [[en [p|]]|i|p]; cbn [str_exn str_io_error io_errno io_filename];
    repeat apply utf8_text_app; auto with text.
Qed.

Lemma scan_file_issue_text (p : path) (s s' : St) (i : issue) :
  scan_file p s = (s', Ok (Some i)) -> utf8_text (issue_error i) = true.
Proof.
  destruct (fs_read s p) as [b|e] eqn:H.
  - rewrite (scan_file_read_ok p s b H).
    destruct (decode_utf8 Strict b) as [[|e]|]; intros [= _ <-].
    unfold decode_issue. destruct (context_window b e).
    apply ascii_utf8_text, ascii_str_decode_error.
  - unfold scan_file, catch, bind, read_bytes. rewrite H. intros [= _ <-].
    apply utf8_text_app; [reflexivity|apply (utf8_str_exn (OSErr e))].
Qed.

Lemma ascii_hex_repr (bs : list Byte.byte) : ascii_text (hex_repr bs) = true.
Proof.
  apply ascii_concat; [reflexivity|]. apply Forall_forall. intros x Hx.
  apply in_map_iff in Hx as (y & <- & _). apply ascii_hex2.
Qed.

Lemma scan_file_issue_hex (p : path) (s s' : St) (i : issue) :
  scan_file p s = (s', Ok (Some i)) -> utf8_text (issue_hex_context i) = true.
Proof.
  destruct (fs_read s p) as [b|e] eqn:H.
  - rewrite (scan_file_read_ok p s b H).
    destruct (decode_utf8 Strict b) as [[|e]|]; intros [= _ <-].
    unfold decode_issue. destruct (context_window b e).
    apply ascii_utf8_text, ascii_hex_repr.
  - unfold scan_file, catch, bind, read_bytes. rewrite H. intros [= _ <-]. reflexivity.
Qed.

Lemma scan_file_valid (p : path) (s : St) (b : list Byte.byte) :
  fs_read s p = Ok b -> valid_utf8 b -> scan_file p s = (s, Ok None).
Proof.
  intros H Hv. rewrite (scan_file_read_ok p s b H). unfold decode_utf8.
  destruct (loop_strict_complete (S (length b)) 0 b Hv ltac:(lia)) as [c Hc].
  rewrite Hc. reflexivity.
Qed.

Lemma scan_file_none_valid (p : path) (s : St) (b : list Byte.byte) :
  fs_read s p = Ok b -> scan_file p s = (s, Ok None) -> valid_utf8 b.
Proof.
  intros H Hs. rewrite (scan_file_read_ok p s b H) in Hs. unfold decode_utf8 in Hs.
  destruct (decode_loop_some Strict (S (length b)) 0 b ltac:(lia)) as [[cps|e] Hd];
    rewrite Hd in Hs; [exact (proj1 (loop_strict_ok _ _ _ _ Hd)) | discriminate].
Qed.

(** C7: a readable file gives no issue exactly when its bytes are valid
    UTF-8 (Table 3-7). *)
Theorem scan_file_clean_iff_valid (p : path) (s : St) (b : list Byte.byte) :
  fs_read s p = Ok b -> (scan_file p s = (s, Ok None) <-> valid_utf8 b).
Proof.
  intros H. split; [apply scan_file_none_valid | apply scan_file_valid]; exact H.
Qed.

(** C8: a decode issue reports, as [position], the first offset where the
    bytes stop being valid UTF-8, with the message of that error. *)
Theorem scan_file_reports_first_error (p : path) (s : St) (b : list Byte.byte)
    (msg hex : string) (pos : nat) :
  fs_read s p = Ok b ->
  scan_file p s = (s, Ok (Some (DecodeIssue msg pos hex))) ->
  exists e, decode_utf8 Strict b = Some (Err e) /\ pos = err_start e /\
    msg = str_decode_error b e /\ (pos < length b)%nat /\
    valid_utf8 (firstn pos b) /\ starts_wf (skipn pos b) = false.
Proof.
  intros H Hs. rewrite (scan_file_read_ok p s b H) in Hs.
  destruct (decode_utf8 Strict b) as [[cps|e]|] eqn:Hd; try discriminate.
  unfold decode_issue in Hs. destruct (context_window b e).
  injection Hs as <- <- _. exists e.
  destruct (loop_strict_err _ _ _ _ Hd) as [k [Hk [Hv [Hst Hm]]]]. cbn in Hk. subst k.
  destruct Hm as [Hn [Hl _]]. rewrite length_skipn in Hl.
  repeat split; auto; lia.
Qed.

End ScanFile.

Local Open Scope Z_scope.

(** C36: the context window of lines 18-19 contains the error range,
    extends at most 20 bytes on each side, is cut only at the ends of the
    file, and the slice of line 22 has exactly [end - start] bytes. *)
Theorem context_window_bounds (b : list Byte.byte) (e : decode_error) :
  decode_utf8 Strict b = Some (Err e) ->
  let '(ws, we) := context_window b e in
  0 <= ws <= Z.of_nat (err_start e) /\ Z.of_nat (err_start e) - ws <= 20 /\
  Z.of_nat (err_end e) <= we <= Z.of_nat (length b) /\ we - Z.of_nat (err_end e) <= 20 /\
  (ws = Z.of_nat (err_start e) - 20 \/ ws = 0) /\
  (we = Z.of_nat (err_end e) + 20 \/ we = Z.of_nat (length b)) /\
  length (py_slice b ws we) = Z.to_nat (we - ws).
Proof.
  intros Hd. destruct (loop_strict_err _ _ _ _ Hd) as [k [Hk [_ [_ Hm]]]]. cbn in Hk. subst k.
  destruct Hm as [Hn [Hl _]]. rewrite length_skipn in Hl.
  unfold context_window, py_slice. rewrite length_firstn, length_skipn. lia.
Qed.

Lemma hex_val_digit (d : Z) : 0 <= d < 16 -> hex_val (hex_digit d) = Some d.
Proof.
  intros Hd. replace d with (Z.of_nat (Z.to_nat d)) by lia.
  assert (Hk : (Z.to_nat d < 16)%nat) by lia. revert Hk. generalize (Z.to_nat d) as k.
  intros k Hk. do 16 (destruct k as [|k]; [reflexivity|]). lia.
Qed.

Lemma hex2_cons (b : Byte.byte) (rest : string) :
  hex2 b +:+ rest = String (hex_digit (bv b / 16)) (String (hex_digit (bv b mod 16)) rest).
Proof. reflexivity. Qed.

Lemma hex2_byte (b : Byte.byte) : byte_of (16 * (bv b / 16) + bv b mod 16) = b.
Proof. rewrite <- Z.div_mod by lia. apply byte_of_bv. Qed.

Lemma hex_val_hi (b : Byte.byte) : hex_val (hex_digit (bv b / 16)) = Some (bv b / 16).
Proof. apply hex_val_digit. pose proof (bv_range b). Z.div_mod_to_equations. lia. Qed.

Lemma hex_val_lo (b : Byte.byte) : hex_val (hex_digit (bv b mod 16)) = Some (bv b mod 16).
Proof. apply hex_val_digit, Z.mod_pos_bound. lia. Qed.

Lemma hex_repr_cons (b b' : Byte.byte) (bs : list Byte.byte) :
  hex_repr (b :: b' :: bs) = hex2 b +:+ String " " (hex_repr (b' :: bs)).
Proof. reflexivity. Qed.

Lemma parse_hex_single (b : Byte.byte) : parse_hex (hex2 b) = Some [b].
Proof. unfold hex2. cbn [parse_hex]. rewrite hex_val_hi, hex_val_lo, hex2_byte. reflexivity. Qed.

Lemma parse_hex_step (b : Byte.byte) (rest : string) :
  rest <> EmptyString ->
  parse_hex (hex2 b +:+ String " " rest) = option_map (cons b) (parse_hex rest).
Proof.
  intros Hr. rewrite hex2_cons. cbn [parse_hex].
  rewrite hex_val_hi, hex_val_lo, hex2_byte. cbn [Ascii.eqb Bool.eqb].
  destruct rest; [contradiction | reflexivity].
Qed.

(** C37: the hex context of line 25 determines the bytes it shows: it
    parses back to them. *)
Theorem hex_repr_roundtrip (bs : list Byte.byte) : parse_hex (hex_repr bs) = Some bs.
Proof.
  induction bs as [|b [|b' bs] IH]; [reflexivity | apply parse_hex_single |].
  rewrite hex_repr_cons, parse_hex_step, IH; [reflexivity|].
  unfold hex_repr. cbn [map String.concat]. destruct (map hex2 bs); discriminate.
Qed.

(** ** Witnesses: the specification's scenarios A and B on a concrete store *)

Lemma scan_file_clean_iff_valid_witness :
  let hello := map byte_of [0x48; 0x65; 0x6c; 0x6c; 0x6f] in
  let st := mk_store {[ "hello.txt" := hello ]} ∅ ∅ ∅ in
  fs_read st "hello.txt" = Ok hello /\
  (scan_file "hello.txt" st = (st, Ok None) <-> valid_utf8 hello).
Proof.
  intros hello st. assert (H : fs_read st "hello.txt" = Ok hello) by reflexivity.
  split; [exact H | exact (scan_file_clean_iff_valid "hello.txt" st hello H)].
Defined.

Lemma scan_file_reports_first_error_witness :
  let b := map byte_of [0x48; 0x65; 0x6c; 0x6c; 0x6f; 0xff; 0x6f] in
  let st := mk_store {[ "b.txt" := b ]} ∅ ∅ ∅ in
  let msg := "'utf-8' codec can't decode byte 0xff in position 5: invalid start byte" in
  fs_read st "b.txt" = Ok b /\
  scan_file "b.txt" st = (st, Ok (Some (DecodeIssue msg 5 "48 65 6c 6c 6f ff 6f"))) /\
  exists e, decode_utf8 Strict b = Some (Err e) /\ 5%nat = err_start e /\
    msg = str_decode_error b e /\ (5 < length b)%nat /\
    valid_utf8 (firstn 5 b) /\ starts_wf (skipn 5 b) = false.
Proof.
  intros b st msg. assert (H1 : fs_read st "b.txt" = Ok b) by reflexivity.
  assert (H2 : scan_file "b.txt" st =
               (st, Ok (Some (DecodeIssue msg 5 "48 65 6c 6c 6f ff 6f")))) by reflexivity.
  split; [exact H1 | split; [exact H2 | exact (scan_file_reports_first_error _ _ _ _ _ _ H1 H2)]].
Defined.

Lemma context_window_bounds_witness :
  let b := map byte_of [0x48; 0x65; 0x6c; 0x6c; 0x6f; 0xff; 0x6f] in
  decode_utf8 Strict b = Some (Err (mk_decode_error 5 6 InvalidStartByte)) /\
  let '(ws, we) := context_window b (mk_decode_error 5 6 InvalidStartByte) in
  0 <= ws <= 5 /\ 5 - ws <= 20 /\ 6 <= we <= Z.of_nat (length b) /\ we - 6 <= 20 /\
  (ws = 5 - 20 \/ ws = 0) /\ (we = 6 + 20 \/ we = Z.of_nat (length b)) /\
  length (py_slice b ws we) = Z.to_nat (we - ws).
Proof.
  intros b. assert (H : decode_utf8 Strict b = Some (Err (mk_decode_error 5 6 InvalidStartByte)))
    by reflexivity.
  split; [exact H | exact (context_window_bounds b _ H)].
Defined.

Lemma scan_file_access_error_witness :
  let st := mk_store ∅ ∅ ∅ ∅ in
  fs_read st "missing.txt" = Err (mk_io_error ENOENT (Some "missing.txt")) /\
  scan_file "missing.txt" st =
    (st, Ok (Some (AccessIssue
      "Failed to process file: [Errno 2] No such file or directory: 'missing.txt'"))).
Proof.
  intros st. assert (H : fs_read st "missing.txt" = Err (mk_io_error ENOENT (Some "missing.txt")))
    by reflexivity.
  split; [exact H | exact (scan_file_access_error "missing.txt" st _ H)].
Defined.

End Scan.
