(* ===== verification/Fix.v ===== *)
(** * [fix_file] (lines 35-55 of [fix_utf8.py])

    [fix_file] reads the file, decodes it with [errors='replace'], writes
    the original bytes to [path + '.bak'], then writes the repaired text
    over the file through a UTF-8 text stream; any exception becomes the
    error status of line 55.  The handler runs in [Fs.M] over any
    [FileStore]; its theorems use only [FileStoreLaws].  They show the
    transaction the specification asks for: the backup is written before
    the file, a failed backup leaves the file untouched, the file is
    never changed unless a backup with its original bytes exists, and a
    successful repair leaves valid UTF-8 that scans clean. *)

From stdpp Require Import base strings.
From Stdlib Require Import ZArith List Lia.
From S2P Require Import Prelude Unicode Decoder Path Fs Scan.
Import ListNotations.

Module Fix.
Import Decoder Path Fs Scan.

(** [{'status': 'fixed', 'backup': ...}] and [{'status': 'error', 'error': ...}]. *)
Inductive fix_result : Type :=
| Fixed (backup : path)
| FixError (error : string).

(** [fix_result.get('status')] (lines 91, 99 and 133). *)
Definition fix_status (r : fix_result) : string :=
  match r with Fixed _ => "fixed" | FixError _ => "error" end.

(** Line 45. *)
Definition backup_path (p : path) : path := p +:+ ".bak".

(** Line 42: the text [errors='replace'] produces.  The lossy decode always
    returns a string ([Decoder.replace_decoded]); the default of the
    [match] is never used. *)
Definition replace_text (content : list Byte.byte) : list Z :=
  match decode_utf8 Replace content with
  | Some (Ok cps) => cps
  | _ => []
  end.

Section FixFile.
Context {St : Type} {FS : FileStore St}.
Local Open Scope io_scope.

(** Lines 35-55. *)
Definition fix_file (p : path) : M fix_result :=
  catch (content <- read_bytes p ;;
         let fixed_content := replace_text content in
         let backup := backup_path p in
         write_bytes backup content ;;
         write_text p fixed_content ;;
         ret (Fixed backup))
        (fun x => ret (FixError (str_exn x))).

End FixFile.

(** ** Lemmas *)

(** The backup never overwrites the file it saves. *)
Lemma backup_path_ne (p : path) : backup_path p <> p.
Proof.
  unfold backup_path. intros H. apply (f_equal String.length) in H.
  rewrite string_length_app in H. cbn in H. lia.
Qed.

Lemma replace_text_spec (b : list Byte.byte) :
  decode_utf8 Replace b = Some (Ok (replace_text b)).
Proof.
  unfold replace_text. destruct (replace_decoded b) as [cps [H _]]. rewrite H. reflexivity.
Qed.

Lemma replace_text_encode (b : list Byte.byte) :
  exists out, encode_str (replace_text b) = Ok out /\ valid_utf8 out.
Proof. apply (replace_encode b), replace_text_spec. Qed.

Section FixLaws.
Context {St : Type} {FS : FileStore St} {FSL : FileStoreLaws St}.

(** [fix_file] step by step: the read, the backup write, the text write. *)
Lemma fix_file_unfold (p : path) (s : St) :
  fix_file p s =
  match fs_read s p with
  | Err e => (s, Ok (FixError (str_io_error e)))
  | Ok b =>
    match fs_write s (backup_path p) b with
    | (s1, Some e) => (s1, Ok (FixError (str_io_error e)))
    | (s1, None) =>
      match encode_str (replace_text b) with
      | Ok out =>
        match fs_write s1 p out with
        | (s2, None) => (s2, Ok (Fixed (backup_path p)))
        | (s2, Some e) => (s2, Ok (FixError (str_io_error e)))
        end
      | Err i =>
        match fs_write s1 p [] with
        | (s2, None) => (s2, Ok (FixError (str_exn (EncodeErr i))))
        | (s2, Some e) => (s2, Ok (FixError (str_io_error e)))
        end
      end
    end
  end.
Proof.
  unfold fix_file, catch, bind, ret, read_bytes, write_text, write_bytes.
  destruct (fs_read s p) as [b|e]; [|reflexivity].
  destruct (fs_write s (backup_path p) b) as [s1 [e|]]; [reflexivity|].
  destruct (encode_str (replace_text b)) as [out|i].
  - destruct (fs_write s1 p out) as [s2 [e|]]; reflexivity.
  - destruct (fs_write s1 p []) as [s2 [e|]]; reflexivity.
Qed.

(** No exception escapes [fix_file]: every outcome is a status record. *)
Lemma fix_file_total (p : path) (s : St) :
  exists s' r, fix_file p s = (s', Ok r).
Proof.
  rewrite fix_file_unfold.
  destruct (fs_read s p) as [b|e]; [|eauto].
  destruct (fs_write s (backup_path p) b) as [s1 [e|]]; [eauto|].
  destruct (encode_str (replace_text b)) as [out|i];
    [destruct (fs_write s1 p out) as [s2 [e|]] | destruct (fs_write s1 p []) as [s2 [e|]]]; eauto.
Qed.

(** C6: a ["fixed"] result means the backup at [path + '.bak'] holds the
    original bytes and the file holds the UTF-8 encoding of the
    [errors='replace'] decoding, which is valid UTF-8. *)
Theorem fix_file_fixed (p bk : path) (s s' : St) :
  fix_file p s = (s', Ok (Fixed bk)) ->
  exists b out, fs_read s p = Ok b /\ bk = backup_path p /\
    fs_contents s' bk = Some b /\ encode_str (replace_text b) = Ok out /\
    fs_contents s' p = Some out /\ valid_utf8 out.
Proof.
  rewrite fix_file_unfold. intros H.
  destruct (fs_read s p) as [b|e]; [|discriminate].
  destruct (fs_write s (backup_path p) b) as [s1 [e|]] eqn:Hb; [discriminate|].
  destruct (replace_text_encode b) as [out [Ho Hv]]. rewrite Ho in H.
  destruct (fs_write s1 p out) as [s2 [e|]] eqn:Hw; [discriminate|].
  injection H as <- <-. exists b, out. repeat split; auto.
  - rewrite (write_frame s1 p out s2 None (backup_path p) (backup_path_ne p) Hw).
    exact (write_ok_contents _ _ _ _ Hb).
  - exact (write_ok_contents _ _ _ _ Hw).
Qed.

(** C4: when the backup cannot be written (lines 46-47 raise), the
    handler reports the error and the file itself is not modified. *)
Theorem fix_file_backup_failure (p : path) (s s1 : St) (b : list Byte.byte) (e : io_error) :
  fs_read s p = Ok b -> fs_write s (backup_path p) b = (s1, Some e) ->
  fix_file p s = (s1, Ok (FixError (str_io_error e))) /\ fs_contents s1 p = fs_contents s p.
Proof.
  intros Hr Hb. rewrite fix_file_unfold, Hr, Hb. split; [reflexivity|].
  apply (write_frame s (backup_path p) b s1 (Some e) p); [|exact Hb].
  intros Heq. exact (backup_path_ne p (eq_sym Heq)).
Qed.

(** C5: no data is lost: whatever the outcome (a write of the file
    failing half way included), if the file's contents changed then the
    backup holds the bytes the file had before. *)
Theorem fix_file_no_data_loss (p : path) (s s' : St) (r : fix_result) :
  fix_file p s = (s', Ok r) -> fs_contents s' p <> fs_contents s p ->
  exists b, fs_read s p = Ok b /\ fs_contents s' (backup_path p) = Some b.
Proof.
  rewrite fix_file_unfold. intros H Hch.
  destruct (fs_read s p) as [b|e]; [|injection H as <- _; congruence].
  exists b. split; [reflexivity|].
  assert (Hne : p <> backup_path p) by (intros Heq; exact (backup_path_ne p (eq_sym Heq))).
  destruct (fs_write s (backup_path p) b) as [s1 [e|]] eqn:Hb.
  - injection H as <- _. exfalso. apply Hch.
    exact (write_frame _ _ _ _ _ p Hne Hb).
  - pose proof (write_ok_contents _ _ _ _ Hb) as Hbk.
    destruct (encode_str (replace_text b)) as [out|i];
      [destruct (fs_write s1 p out) as [s2 o] eqn:Hw | destruct (fs_write s1 p []) as [s2 o] eqn:Hw];
      destruct o; injection H as <- _;
      rewrite (write_frame _ _ _ _ _ (backup_path p) (backup_path_ne p) Hw); exact Hbk.
Qed.

(** C30: after a successful repair the file scans clean: reading it back
    gives valid UTF-8, so [scan_file] reports no issue. *)
Theorem fix_then_rescan_clean (p bk : path) (s s' : St) (b' : list Byte.byte) :
  fix_file p s = (s', Ok (Fixed bk)) -> fs_read s' p = Ok b' ->
  scan_file p s' = (s', Ok None).
Proof.
  intros Hf Hr. apply (scan_file_valid p s' b' Hr).
  rewrite fix_file_unfold in Hf.
  destruct (fs_read s p) as [b|e]; [|discriminate].
  destruct (fs_write s (backup_path p) b) as [s1 [e|]]; [discriminate|].
  destruct (replace_text_encode b) as [out [Ho Hv]]. rewrite Ho in Hf.
  destruct (fs_write s1 p out) as [s2 [e|]] eqn:Hw; [discriminate|].
  injection Hf as <- _.
  pose proof (read_contents _ _ _ Hr) as Hc. rewrite (write_ok_contents _ _ _ _ Hw) in Hc.
  injection Hc as ->. exact Hv.
Qed.

End FixLaws.

(** ** Witnesses on concrete stores (scenario B of the specification) *)

Lemma fix_file_fixed_witness :
  let b := map byte_of [0x48; 0x65; 0x6c; 0x6c; 0x6f; 0xff; 0x6f]%Z in
  let st := mk_store {[ "b.txt" := b ]} ∅ ∅ ∅ in
  fix_file "b.txt" st = ((fix_file "b.txt" st).1, Ok (Fixed "b.txt.bak")) /\
  exists b0 out, fs_read st "b.txt" = Ok b0 /\ "b.txt.bak" = backup_path "b.txt" /\
    fs_contents (fix_file "b.txt" st).1 "b.txt.bak" = Some b0 /\
    encode_str (replace_text b0) = Ok out /\
    fs_contents (fix_file "b.txt" st).1 "b.txt" = Some out /\ valid_utf8 out.
Proof.
  intros b st.
  assert (H : fix_file "b.txt" st = ((fix_file "b.txt" st).1, Ok (Fixed "b.txt.bak")))
    by reflexivity.
  split; [exact H | exact (fix_file_fixed _ _ _ _ H)].
Defined.

Lemma fix_file_backup_failure_witness :
  let b := map byte_of [0x48; 0x65; 0x6c; 0x6c; 0x6f; 0xff; 0x6f]%Z in
  let st := mk_store {[ "b.txt" := b ]} ∅ ∅ {[ "b.txt.bak" := OpenFault EACCES ]} in
  let e := mk_io_error EACCES (Some "b.txt.bak") in
  fs_read st "b.txt" = Ok b /\ fs_write st (backup_path "b.txt") b = (st, Some e) /\
  fix_file "b.txt" st = (st, Ok (FixError (str_io_error e))) /\
  fs_contents st "b.txt" = fs_contents st "b.txt".
Proof.
  intros b st e.
  assert (H1 : fs_read st "b.txt" = Ok b) by reflexivity.
  assert (H2 : fs_write st (backup_path "b.txt") b = (st, Some e)) by reflexivity.
  split; [exact H1 | split; [exact H2 | exact (fix_file_backup_failure _ _ _ _ _ H1 H2)]].
Defined.

Lemma fix_file_no_data_loss_witness :
  let b := map byte_of [0x48; 0x65; 0x6c; 0x6c; 0x6f; 0xff; 0x6f]%Z in
  let st := mk_store {[ "b.txt" := b ]} ∅ ∅ {[ "b.txt" := WriteFault 3 ENOSPC ]} in
  let r := FixError "[Errno 28] No space left on device" in
  fix_file "b.txt" st = ((fix_file "b.txt" st).1, Ok r) /\
  fs_contents (fix_file "b.txt" st).1 "b.txt" <> fs_contents st "b.txt" /\
  exists b0, fs_read st "b.txt" = Ok b0 /\
    fs_contents (fix_file "b.txt" st).1 (backup_path "b.txt") = Some b0.
Proof.
  intros b st r.
  assert (H1 : fix_file "b.txt" st = ((fix_file "b.txt" st).1, Ok r)) by reflexivity.
  assert (H2 : fs_contents (fix_file "b.txt" st).1 "b.txt" <> fs_contents st "b.txt")
    by (vm_compute; discriminate).
  split; [exact H1 | split; [exact H2 | exact (fix_file_no_data_loss _ _ _ _ H1 H2)]].
Defined.

Lemma fix_then_rescan_clean_witness :
  let b := map byte_of [0x48; 0x65; 0x6c; 0x6c; 0x6f; 0xff; 0x6f]%Z in
  let st := mk_store {[ "b.txt" := b ]} ∅ ∅ ∅ in
  let out := map byte_of [0x48; 0x65; 0x6c; 0x6c; 0x6f; 0xef; 0xbf; 0xbd; 0x6f]%Z in
  fix_file "b.txt" st = ((fix_file "b.txt" st).1, Ok (Fixed "b.txt.bak")) /\
  fs_read (fix_file "b.txt" st).1 "b.txt" = Ok out /\
  scan_file "b.txt" (fix_file "b.txt" st).1 = ((fix_file "b.txt" st).1, Ok None).
Proof.
  intros b st out.
  assert (H1 : fix_file "b.txt" st = ((fix_file "b.txt" st).1, Ok (Fixed "b.txt.bak")))
    by reflexivity.
  assert (H2 : fs_read (fix_file "b.txt" st).1 "b.txt" = Ok out) by reflexivity.
  split; [exact H1 | split; [exact H2 | exact (fix_then_rescan_clean _ _ _ _ _ H1 H2)]].
Defined.

End Fix.
