(* ===== verification/Walk.v ===== *)
(** * [scan_directory] (lines 57-101 of [fix_utf8.py])

    [scan_directory] walks the tree top-down with [os.walk]; at each
    directory it removes [node_modules] and [.git] from [dirs] (lines
    63-66), which stops [os.walk] from descending into them, then handles
    each file: the extension filter (line 70), the [files_scanned] count
    (line 74), the 5 MiB ceiling whose [getsize] errors are swallowed by a
    bare [except] (lines 77-81), [scan_file], and in fix mode [fix_file]
    (lines 83-94).  The results dictionary is the record [results].

    Here the directory tree is a listing given in advance ([dir_tree]:
    the file names and the sub-directories of each directory, in
    [scandir] order) and [scan_tree] walks it; [ScanDirectory] lists the
    directories from the store as [os.walk] reaches them and proves the
    two agree.  File contents and sizes are read from the [FileStore] at the
    time each file is handled, so a tree that names a file the store no
    longer holds models a file deleted during the walk.  The feedback
    printed right after each problem is appended (lines 96-99) is
    [feedback_lines]; its [print] raises [UnicodeEncodeError] when the
    path is not valid UTF-8.  [runs_ok] describes a run in either mode
    (its results, or that exception on one of its paths); in scan mode,
    where only standard output changes, [report], [scan_results] and
    [scan_spec] give the run exactly, as a function of the store and the
    candidate paths. *)

From Stdlib Require Import ZArith List Lia.
From stdpp Require Import base list sets gmap strings.
From S2P Require Import Prelude Path Text Fs Scan Fix.
Import ListNotations.

Local Set Warnings "-register-all".

Module Walk.
Import Path Text Fs Scan Fix.

(** ** Data *)

(** A directory as [os.walk] lists it: its files and its sub-directories
    with their names. *)
Inductive dir_tree : Type :=
| DirNode (files : list string) (subdirs : list (string * dir_tree)).

(** [{'file': file_path, 'issue': issue}] and, in fix mode, its
    ['fix_result']. *)
Record problem : Type := mk_problem {
  pr_file : path;
  pr_issue : issue;
  pr_fix_result : option fix_result
}.

(** [results] of line 59. *)
Record results : Type := mk_results {
  issues_found : nat;
  files_scanned : nat;
  files_fixed : nat;
  problems : list problem
}.

Definition results0 : results := mk_results 0 0 0 [].

(** ** Helpers of the standard library *)

(** [if x in l: l.remove(x)]: removes the first entry named [x]. *)
Fixpoint remove_first {A} (x : string) (l : list (string * A)) : list (string * A) :=
  match l with
  | [] => []
  | (n, a) :: l' => if String.eqb n x then l' else (n, a) :: remove_first x l'
  end.

(** Lines 63-66. *)
Definition prune {A} (dirs : list (string * A)) : list (string * A) :=
  remove_first ".git" (remove_first "node_modules" dirs).

(** Line 70: [not extensions or any(file.endswith(ext) for ext in extensions)]. *)
Definition ext_ok (extensions : list string) (file : string) : bool :=
  match extensions with
  | [] => true
  | _ => existsb (fun ext => ends_with ext file) extensions
  end.

(** Line 78: [1024 * 1024 * 5]. *)
Definition max_size : nat := 1024 * 1024 * 5.

(** Lines 85-94: record a problem, counting a ["fixed"] status. *)
Definition is_fixed (o : option fix_result) : bool :=
  match o with Some (Fixed _) => true | _ => false end.

Definition add_problem (acc : results) (p : path) (i : issue) (o : option fix_result) : results :=
  mk_results (S (issues_found acc)) (files_scanned acc)
             (if is_fixed o then S (files_fixed acc) else files_fixed acc)
             (problems acc ++ [mk_problem p i o]).

Definition count_scanned (acc : results) : results :=
  mk_results (issues_found acc) (S (files_scanned acc)) (files_fixed acc) (problems acc).

(** The counters agree: [files_fixed <= issues_found <= files_scanned],
    and [issues_found] is the length of [problems]. *)
Definition results_wf (r : results) : bool :=
  (files_fixed r <=? issues_found r)%nat && (issues_found r <=? files_scanned r)%nat &&
  (issues_found r =? length (problems r))%nat.

(** Lines 97-99: what is printed right after a problem is appended, each
    [print] given as the parts of its f-string. *)
Definition feedback_lines (fix_mode : bool) (pr : problem) : list (list string) :=
  ["Issue found in "; pr_file pr; ": "; issue_error (pr_issue pr)] ::
  (if fix_mode then
     match pr_fix_result pr with
     | Some r => [["  Fix attempt: "; fix_status r]]
     | None => []            (* unreachable: in fix mode every problem has one *)
     end
   else []).

Section ScanDirectory.
Context {St : Type} {FS : FileStore St}.
Local Open Scope io_scope.

(** Lines 69-99, the body of [for file in files]: a problem is appended
    (line 94) and then announced (lines 96-99). *)
Definition scan_one (fix_mode : bool) (extensions : list string) (root file : string)
    (acc : results) : M results :=
  if negb (ext_ok extensions file) then ret acc
  else
    let file_path := path_join root file in
    let acc := count_scanned acc in
    size <- catch (n <- getsize file_path ;; ret (Some n)) (fun _ => ret None) ;;
    match size with
    | None => ret acc
    | Some n =>
      if (max_size <? n)%nat then ret acc
      else
        issue <- scan_file file_path ;;
        match issue with
        | None => ret acc
        | Some i =>
          fix_result <- (if fix_mode then r <- fix_file file_path ;; ret (Some r) else ret None) ;;
          let acc := add_problem acc file_path i fix_result in
          print_lines (feedback_lines fix_mode (mk_problem file_path i fix_result)) ;;
          ret acc
        end
    end.

Fixpoint scan_files (fix_mode : bool) (extensions : list string) (root : path)
    (files : list string) (acc : results) : M results :=
  match files with
  | [] => ret acc
  | file :: rest => acc' <- scan_one fix_mode extensions root file acc ;;
                    scan_files fix_mode extensions root rest acc'
  end.

(** [os.walk] top-down: the directory's own triple is handled (files,
    after the pruning of [dirs]), then each remaining sub-directory is
    walked.  [fuel] bounds the depth ([height] is enough). *)
Fixpoint walk (fuel : nat) (fix_mode : bool) (extensions : list string) (root : path)
    (t : dir_tree) (acc : results) : M results :=
  match fuel with
  | O => ret acc
  | S fuel' =>
    match t with
    | DirNode files subdirs =>
      acc' <- scan_files fix_mode extensions root files acc ;;
      (fix go (ds : list (string * dir_tree)) (a : results) : M results :=
         match ds with
         | [] => ret a
         | (name, sub) :: rest =>
           a' <- walk fuel' fix_mode extensions (path_join root name) sub a ;; go rest a'
         end) (prune subdirs) acc'
    end
  end.

End ScanDirectory.

Fixpoint height (t : dir_tree) : nat :=
  match t with
  | DirNode _ subdirs => S (fold_right (fun d m => Nat.max (height d.2) m) 0 subdirs)
  end.

Section ScanDirectory2.
Context {St : Type} {FS : FileStore St}.

(** Lines 57-101 over the listing [t] taken before the walk starts: the
    reference for [ScanDirectory.scan_directory], which lists each
    directory when [os.walk] reaches it. *)
Definition scan_tree (directory : path) (t : dir_tree) (extensions : list string)
    (fix_mode : bool) : M results :=
  walk (height t) fix_mode extensions directory t results0.

End ScanDirectory2.

(** ** Specification *)

(** The paths of the files [walk] hands to [scan_one] that pass the
    extension filter: the files of each directory, then those of its
    sub-directories left after the pruning, in [os.walk]'s order. *)
Fixpoint walk_paths (fuel : nat) (extensions : list string) (root : path)
    (t : dir_tree) : list path :=
  match fuel with
  | O => []
  | S fuel' =>
    match t with
    | DirNode files subdirs =>
      map (path_join root) (List.filter (ext_ok extensions) files) ++
      flat_map (fun d => walk_paths fuel' extensions (path_join root d.1) d.2) (prune subdirs)
    end
  end.

Definition pruned_name (n : string) : bool :=
  String.eqb n "node_modules" || String.eqb n ".git".

(** What [scan_directory] promises to look at, without fuel: every file
    that passes the filter and is not below a directory named [.git] or
    [node_modules]. *)
Fixpoint tree_candidates (extensions : list string) (root : path) (t : dir_tree) : list path :=
  match t with
  | DirNode files subdirs =>
    map (path_join root) (List.filter (ext_ok extensions) files) ++
    (fix go (ds : list (string * dir_tree)) : list path :=
       match ds with
       | [] => []
       | (n, sub) :: rest =>
         (if pruned_name n then [] else tree_candidates extensions (path_join root n) sub)
         ++ go rest
       end) subdirs
  end.

(** A directory listing has no two entries of the same name. *)
Fixpoint wf_tree (t : dir_tree) : bool :=
  match t with
  | DirNode _ subdirs =>
    bool_decide (NoDup subdirs.*1) &&
    (fix go (ds : list (string * dir_tree)) : bool :=
       match ds with
       | [] => true
       | (_, sub) :: rest => wf_tree sub && go rest
       end) subdirs
  end.

Section Spec.
Context {St : Type} {FS : FileStore St}.

(** A recorded problem is about one of the paths [C]; it has a fix
    result exactly in fix mode; in scan mode its file had a size within
    the ceiling in the store [s] (which only prints change); its path was
    printed, so it is valid UTF-8. *)
Definition problem_ok (fix_mode : bool) (s : St) (C : list path) (pr : problem) : Prop :=
  pr_file pr ∈ C /\
  (is_Some (pr_fix_result pr) <-> fix_mode = true) /\
  (fix_mode = false -> exists n, fs_getsize s (pr_file pr) = Ok n /\ (n <= max_size)%nat) /\
  utf8_text (pr_file pr) = true.

Definition fixed_count (prs : list problem) : nat :=
  length (List.filter (fun pr => is_fixed (pr_fix_result pr)) prs).

(** [r] is [acc] after handling the files [C]: one [files_scanned] per
    file, problems appended, each counted by [issues_found], and the fixed
    ones by [files_fixed]. *)
Definition extends (fix_mode : bool) (s : St) (C : list path) (acc r : results) : Prop :=
  exists new,
    problems r = problems acc ++ new /\
    issues_found r = issues_found acc + length new /\
    files_fixed r = files_fixed acc + fixed_count new /\
    files_scanned r = files_scanned acc + length C /\
    Forall (problem_ok fix_mode s C) new.

(** How a run over [C] from [acc] in [s] ends: its results extend [acc],
    or the feedback [print] of line 97 raised on one of the paths [C],
    which is not valid UTF-8. *)
Definition outcome_ok (fix_mode : bool) (s : St) (C : list path) (acc : results)
    (o : result results exn) : Prop :=
  match o with
  | Ok r => extends fix_mode s C acc r
  | Err x => exists p, x = PrintErr p /\ p ∈ C /\ utf8_text p = false
  end.

(** [m] raises nothing but that [UnicodeEncodeError], changes no file in
    scan mode, and extends its accumulator over [C]. *)
Definition runs_ok (fix_mode : bool) (C : list path) (m : results -> M results) : Prop :=
  forall acc s, exists s' o,
    m acc s = (s', o) /\ (fix_mode = false -> disk_eq s s') /\ outcome_ok fix_mode s C acc o.

(** What scan mode records for the candidate [p] in the store [s]: a
    problem exactly when its size is known and within the ceiling and
    [scan_file] finds an issue. *)
Definition report (s : St) (p : path) : option problem :=
  match fs_getsize s p with
  | Ok n =>
    if (max_size <? n)%nat then None
    else match (scan_file p s).2 with
         | Ok (Some i) => Some (mk_problem p i None)
         | _ => None
         end
  | Err _ => None
  end.

(** The results of a scan-mode run over the candidates [C] from [acc]. *)
Definition scan_results (s : St) (C : list path) (acc : results) : results :=
  let new := omap (report s) C in
  mk_results (issues_found acc + length new) (files_scanned acc + length C)
             (files_fixed acc) (problems acc ++ new).

(** The feedback of the problems [prs], in order. *)
Definition feedback_all (fix_mode : bool) (prs : list problem) : list (list string) :=
  concat (map (feedback_lines fix_mode) prs).

(** Scan mode over [C] from [acc] in [s], as a specification: print the
    feedback of the candidates [report] keeps, then return
    [scan_results]. *)
Definition scan_spec (s : St) (C : list path) (acc : results) : M results :=
  bind (print_lines (feedback_all false (omap (report s) C))) (fun _ => ret (scan_results s C acc)).

(** In scan mode [m] does what [scan_spec] says. *)
Definition runs_scan (C : list path) (m : results -> M results) : Prop :=
  forall acc s, m acc s = scan_spec s C acc s.

(** [m] keeps [results_wf] on every run that returns. *)
Definition preserves_wf (m : results -> M (S:=St) results) : Prop :=
  forall acc s s' r, results_wf acc = true -> m acc s = (s', Ok r) -> results_wf r = true.

End Spec.

(** ** A sample tree

    [r] holds [a.txt] (valid), [b.txt] (an [0xff] byte), [gone.txt]
    (listed, but deleted before its [getsize]) and [x.bin]; [r/.git]
    holds a bad [c.txt] and [r/d] a bad [e.txt]. *)
Definition sample_tree : dir_tree :=
  DirNode ["a.txt"; "b.txt"; "gone.txt"; "x.bin"]
          [(".git", DirNode ["c.txt"] []); ("d", DirNode ["e.txt"] [])].

Definition sample_store : store :=
  mk_store {[ "r/a.txt" := [Byte.x41]; "r/b.txt" := [Byte.x41; Byte.xff];
              "r/x.bin" := [Byte.xff]; "r/.git/c.txt" := [Byte.xff];
              "r/d/e.txt" := [Byte.xc3] ]} ∅ ∅ ∅.

(** ** The fold over the files *)

(** ** [str.endswith] and the extension filter *)

(** C31: the filter of line 70 keeps a file exactly when no extension is
    given or the name ends with one of them, as a raw suffix (so ["txt"]
    also keeps ["footxt"]). *)
Theorem ext_ok_spec (exts : list string) (file : string) :
  ext_ok exts file = true <->
  exts = [] \/ exists ext, In ext exts /\ exists pre, file = pre +:+ ext.
Proof.
  destruct exts as [|e0 es]; cbn [ext_ok]; [split; auto|].
  rewrite existsb_exists. split.
  - intros (ext & Hin & He). right. exists ext. split; [exact Hin|]. by apply ends_with_spec.
  - intros [H|(ext & Hin & He)]; [discriminate|]. exists ext. split; [exact Hin|].
    by apply ends_with_spec.
Qed.

Section Fold.
Context {St : Type} {FS : FileStore St}.

Lemma extends_nil (fm : bool) (s : St) (acc : results) : extends fm s [] acc acc.
Proof. exists []. rewrite app_nil_r. cbn. repeat split; lia || constructor. Qed.

Lemma problem_ok_shift (fm : bool) (s s1 : St) (C C' : list path) (pr : problem) :
  (fm = false -> disk_eq s s1) -> C ⊆ C' -> problem_ok fm s1 C pr -> problem_ok fm s C' pr.
Proof.
  intros Hs HC (Hin & Hfix & Hsz & Hu). split; [exact (HC _ Hin)|]. split; [exact Hfix|].
  split; [|exact Hu]. intros Hf. rewrite <- (disk_eq_getsize s s1 _ (Hs Hf)). auto.
Qed.

Lemma extends_trans (fm : bool) (s s1 : St) (C1 C2 : list path) (a b c : results) :
  (fm = false -> disk_eq s s1) ->
  extends fm s C1 a b -> extends fm s1 C2 b c -> extends fm s (C1 ++ C2) a c.
Proof.
  intros Hs (n1 & P1 & I1 & F1 & S1 & W1) (n2 & P2 & I2 & F2 & S2 & W2).
  exists (n1 ++ n2). rewrite P2, P1, <- app_assoc, I2, I1, F2, F1, S2, S1.
  unfold fixed_count. rewrite List.filter_app, !length_app.
  repeat split; try lia. apply Forall_app. split.
  - eapply Forall_impl; [exact W1|]. intros pr. apply problem_ok_shift; [intros; reflexivity|set_solver].
  - eapply Forall_impl; [exact W2|]. intros pr. apply problem_ok_shift; [done|set_solver].
Qed.

Lemma outcome_err_app (fm : bool) (s s1 : St) (C1 C2 : list path) (a b : results) (x : exn) :
  (outcome_ok fm s1 C1 a (Err x) \/ outcome_ok fm s1 C2 a (Err x)) -> outcome_ok fm s (C1 ++ C2) b (Err x).
Proof. intros [(p & -> & Hp & Hu)|(p & -> & Hp & Hu)]; exists p; (split; [done|]); set_solver. Qed.

Lemma runs_ok_ret (fm : bool) : runs_ok (St:=St) fm [] ret.
Proof. intros acc s. exists s, (Ok acc). split; [done|]. split; [intros; reflexivity|apply extends_nil]. Qed.

Lemma runs_ok_bind (fm : bool) (C1 C2 : list path) (m1 m2 : results -> M results) :
  runs_ok (St:=St) fm C1 m1 -> runs_ok fm C2 m2 ->
  runs_ok fm (C1 ++ C2) (fun acc => bind (m1 acc) m2).
Proof.
  intros H1 H2 acc s.
  destruct (H1 acc s) as (s1 & [r1|x1] & E1 & S1 & X1).
  - destruct (H2 r1 s1) as (s2 & o2 & E2 & S2 & X2).
    exists s2, o2. unfold bind. rewrite E1. split; [exact E2|]. split.
    + intros Hf. etrans; [exact (S1 Hf)|exact (S2 Hf)].
    + destruct o2 as [r2|x2]; [exact (extends_trans fm s s1 C1 C2 acc r1 r2 S1 X1 X2)|].
      apply (outcome_err_app fm s s1 C1 C2 r1). by right.
  - exists s1, (Err x1). unfold bind. rewrite E1. split; [done|]. split; [exact S1|].
    apply (outcome_err_app fm s s C1 C2 acc). by left.
Qed.

(** The size check of lines 77-81. *)
Lemma size_catch (p : path) (s : St) :
  catch (n <- getsize p ;; ret (Some n))%io (fun _ => ret None) s =
  (s, Ok (match fs_getsize s p with Ok n => Some n | Err _ => None end)).
Proof. unfold catch, bind, getsize, ret. by destruct (fs_getsize s p). Qed.

(** Lines 88-90: the fix attempt, in fix mode only. *)
Lemma fix_step (fm : bool) (p : path) (s : St) :
  exists s1 o, (if fm then r <- fix_file p ;; ret (Some r) else ret None)%io s = (s1, Ok o) /\
    (fm = false -> s1 = s) /\ (is_Some o <-> fm = true).
Proof.
  destruct fm.
  - destruct (fix_file_total p s) as (s1 & r & Hr). exists s1, (Some r).
    unfold bind. rewrite Hr. split; [done|]. split; [discriminate|]. split; eauto.
  - exists s, None. split; [done|]. split; [done|]. split; [intros []; discriminate|discriminate].
Qed.

Section Laws.
Context {FSL : FileStoreLaws St}.

(** The prints of lines 97-99 raise exactly when the path is not valid
    UTF-8 (the message of an issue always encodes), and touch no file. *)
Lemma feedback_print (fm : bool) (pr : problem) (s : St) :
  utf8_text (issue_error (pr_issue pr)) = true ->
  exists s', print_lines (feedback_lines fm pr) s =
             (s', if utf8_text (pr_file pr) then Ok tt else Err (PrintErr (pr_file pr))) /\
           disk_eq s s'.
Proof.
  intros Hi. destruct (utf8_text (pr_file pr)) eqn:Hp.
  - assert (Hall : Forall (Forall (fun x => utf8_text x = true)) (feedback_lines fm pr)).
    { constructor; [repeat constructor; auto with text|].
      destruct fm; [destruct (pr_fix_result pr) as [[]|]|]; repeat constructor. }
    pose proof (print_lines_ok _ s Hall) as E.
    eexists. split; [exact E|exact (print_lines_disk_eq _ _ _ _ E)].
  - exists s. split; [|reflexivity]. cbn [feedback_lines print_lines]. unfold bind, print.
    change (utf8_text "Issue found in ") with true. cbn [List.find negb]. by rewrite Hp.
Qed.

(** One file: skipped by the filter, or counted and then skipped for its
    size, clean, or recorded as a problem and announced. *)
Lemma scan_one_spec (fm : bool) (exts : list string) (root file : string) :
  runs_ok (St:=St) fm (if ext_ok exts file then [path_join root file] else [])
          (scan_one fm exts root file).
Proof.
  intros acc s. unfold scan_one.
  destruct (ext_ok exts file); cbn [negb];
    [|exists s, (Ok acc); split; [done|]; split; [intros; reflexivity|apply extends_nil]].
  set (p := path_join root file).
  assert (Hcnt : exists s' o, (s, Ok (count_scanned acc)) = (s', o) /\ (fm = false -> disk_eq s s') /\
                              outcome_ok fm s [p] acc o).
  { exists s, (Ok (count_scanned acc)). split; [done|]. split; [intros; reflexivity|].
    exists []. rewrite app_nil_r. cbn. repeat split; lia || constructor. }
  rewrite (bind_ok _ _ _ _ _ (size_catch p s)).
  destruct (fs_getsize s p) as [n|e] eqn:Hn; [|exact Hcnt].
  destruct (max_size <? n)%nat eqn:Hmax; [exact Hcnt|]. apply Nat.ltb_ge in Hmax.
  destruct (scan_file_total p s) as [[i|] Hi]; rewrite (bind_ok _ _ _ _ _ Hi); [|exact Hcnt].
  destruct (fix_step fm p s) as (s1 & o & Ho & Hs1 & Hso). rewrite (bind_ok _ _ _ _ _ Ho).
  destruct (feedback_print fm (mk_problem p i o) s1 (scan_file_issue_text p s s i Hi)) as (s2 & Hp & Hd).
  cbn zeta. unfold bind at 1. rewrite Hp. cbn [pr_file].
  exists s2. destruct (utf8_text p) eqn:Hu; eexists; (split; [reflexivity|]);
    (split; [intros Hf; rewrite <- (Hs1 Hf); exact Hd|]).
  - exists [mk_problem p i o]. cbn. repeat split; try lia.
    + destruct (is_fixed o); cbn; lia.
    + apply Forall_singleton. split; [apply list_elem_of_singleton; reflexivity|].
      split; [exact Hso|]. split; [intros _; eauto|exact Hu].
  - exists p. split; [done|]. split; [apply list_elem_of_singleton; done|done].
Qed.

Lemma scan_files_spec (fm : bool) (exts : list string) (root : path) (files : list string) :
  runs_ok (St:=St) fm (map (path_join root) (List.filter (ext_ok exts) files))
          (scan_files fm exts root files).
Proof.
  induction files as [|f fs IH]; [apply runs_ok_ret|].
  replace (map (path_join root) (List.filter (ext_ok exts) (f :: fs)))
    with ((if ext_ok exts f then [path_join root f] else []) ++
          map (path_join root) (List.filter (ext_ok exts) fs))
    by (cbn; destruct (ext_ok exts f); reflexivity).
  exact (runs_ok_bind fm _ _ _ _ (scan_one_spec fm exts root f) IH).
Qed.

(** The walk handles exactly the files of [walk_paths], whatever the
    store does meanwhile. *)
Lemma walk_spec (fuel : nat) (fm : bool) (exts : list string) (root : path) (t : dir_tree) :
  runs_ok (St:=St) fm (walk_paths fuel exts root t) (walk fuel fm exts root t).
Proof.
  revert root t. induction fuel as [|fuel IH]; intros root [files subdirs]; [apply runs_ok_ret|].
  cbn [walk walk_paths]. apply runs_ok_bind; [apply scan_files_spec|].
  generalize (prune subdirs) as ds. induction ds as [|[n sub] ds IHds]; [apply runs_ok_ret|].
  exact (runs_ok_bind fm _ _ _ _ (IH _ _) IHds).
Qed.

(** *** Scan mode exactly *)

Lemma scan_results_nil (s : St) (acc : results) : scan_results s [] acc = acc.
Proof. destruct acc. unfold scan_results. cbn. by rewrite !Nat.add_0_r, app_nil_r. Qed.

Lemma scan_results_app (s : St) (C1 C2 : list path) (acc : results) :
  scan_results s (C1 ++ C2) acc = scan_results s C2 (scan_results s C1 acc).
Proof.
  unfold scan_results. cbn. rewrite omap_app, !length_app, app_assoc. f_equal; lia.
Qed.

(** What scan mode reports depends on the files only, not on what has
    been printed. *)
Lemma scan_file_disk_eq (p : path) (s s1 : St) : disk_eq s s1 -> (scan_file p s1).2 = (scan_file p s).2.
Proof.
  intros H. destruct (fs_read s p) as [b|e] eqn:E.
  - rewrite (scan_file_read_ok p s b E), (scan_file_read_ok p s1 b); [done|].
    by rewrite (disk_eq_read s s1 p H).
  - unfold scan_file, catch, bind, read_bytes. by rewrite (disk_eq_read s s1 p H), E.
Qed.

Lemma omap_report_disk_eq (s s1 : St) (C : list path) :
  disk_eq s s1 -> omap (report s1) C = omap (report s) C.
Proof.
  intros H. apply list_omap_ext, Forall2_same_length_lookup. split; [done|].
  intros k x y Hx Hy. rewrite Hx in Hy. injection Hy as <-.
  unfold report. by rewrite (disk_eq_getsize s s1 x H), (scan_file_disk_eq x s s1 H).
Qed.

Lemma scan_results_disk_eq (s s1 : St) (C : list path) (acc : results) :
  disk_eq s s1 -> scan_results s1 C acc = scan_results s C acc.
Proof. intros H. unfold scan_results. by rewrite (omap_report_disk_eq s s1 C H). Qed.

Lemma report_size (s : St) (p : path) (pr : problem) :
  report s p = Some pr ->
  pr_file pr = p /\ exists n, fs_getsize s p = Ok n /\ (n <= max_size)%nat.
Proof.
  unfold report. destruct (fs_getsize s p) as [n|]; [|discriminate].
  destruct (max_size <? n)%nat eqn:Hm; [discriminate|]. apply Nat.ltb_ge in Hm.
  destruct (scan_file p s).2 as [[i|]|]; intros H; try discriminate.
  injection H as <-. eauto.
Qed.

(** What a reported problem prints encodes, but for its path. *)
Lemma report_texts (s : St) (p : path) (pr : problem) :
  report s p = Some pr ->
  pr_file pr = p /\ pr_fix_result pr = None /\
  utf8_text (issue_error (pr_issue pr)) = true /\ utf8_text (issue_hex_context (pr_issue pr)) = true.
Proof.
  unfold report. destruct (fs_getsize s p) as [n|]; [|discriminate].
  destruct (max_size <? n)%nat; [discriminate|].
  destruct (scan_file p s) as [s1 [[i|]|x]] eqn:E; cbn; intros H; try discriminate.
  injection H as <-. cbn. split_and!; [done|done|exact (scan_file_issue_text _ _ _ _ E)|].
  exact (scan_file_issue_hex _ _ _ _ E).
Qed.

Lemma runs_scan_ret : runs_scan (St:=St) [] ret.
Proof. intros acc s. unfold scan_spec. cbn. by rewrite scan_results_nil. Qed.

Lemma runs_scan_bind (C1 C2 : list path) (m1 m2 : results -> M results) :
  runs_scan (St:=St) C1 m1 -> runs_scan C2 m2 -> runs_scan (C1 ++ C2) (fun acc => bind (m1 acc) m2).
Proof.
  intros H1 H2 acc s. unfold bind at 1. rewrite H1. unfold scan_spec, feedback_all.
  rewrite omap_app, List.map_app, List.concat_app. unfold bind. rewrite print_lines_app. unfold bind.
  destruct (print_lines (concat (map (feedback_lines false) (omap (report s) C1))) s)
    as [s1 [[]|e]] eqn:E1; [|reflexivity].
  unfold ret at 1. cbv beta iota. rewrite H2. unfold scan_spec, feedback_all, bind.
  pose proof (print_lines_disk_eq _ _ _ _ E1) as D.
  rewrite (omap_report_disk_eq s s1 C2 D), (scan_results_disk_eq s s1 C2 _ D).
  destruct (print_lines _ s1) as [s2 [[]|e]]; [by rewrite scan_results_app|reflexivity].
Qed.

Lemma scan_results_one (s : St) (p : path) (acc : results) :
  scan_results s [p] acc =
  match report s p with
  | Some pr => add_problem (count_scanned acc) p (pr_issue pr) None
  | None => count_scanned acc
  end.
Proof.
  unfold scan_results.
  change (omap (report s) [p]) with (match report s p with Some x => [x] | None => [] end).
  destruct (report s p) as [pr|] eqn:Hr.
  - destruct (report_size s p pr Hr) as [Hp _].
    assert (pr = mk_problem p (pr_issue pr) None) as Hpr.
    { unfold report in Hr. destruct (fs_getsize s p); [|discriminate].
      destruct (max_size <? _)%nat; [discriminate|].
      destruct (scan_file p s).2 as [[i|]|]; [|discriminate..]. by injection Hr as <-. }
    rewrite Hpr at 2. unfold add_problem, count_scanned. cbn. f_equal; lia.
  - unfold count_scanned. cbn [length]. f_equal; [lia..|apply app_nil_r].
Qed.

Lemma scan_spec_one (s : St) (p : path) (acc : results) :
  scan_spec s [p] acc s =
  match report s p with
  | Some pr => bind (print_lines (feedback_lines false pr))
                    (fun _ => ret (add_problem (count_scanned acc) p (pr_issue pr) None)) s
  | None => (s, Ok (count_scanned acc))
  end.
Proof.
  unfold scan_spec. rewrite scan_results_one.
  change (omap (report s) [p]) with (match report s p with Some x => [x] | None => [] end).
  destruct (report s p) as [pr|]; [|reflexivity].
  unfold feedback_all. cbn [map concat]. by rewrite app_nil_r.
Qed.

Lemma scan_one_scan (exts : list string) (root file : string) :
  runs_scan (St:=St) (if ext_ok exts file then [path_join root file] else [])
            (scan_one false exts root file).
Proof.
  intros acc s. unfold scan_one.
  destruct (ext_ok exts file); cbn [negb]; [|exact (runs_scan_ret acc s)].
  set (p := path_join root file). rewrite scan_spec_one. unfold report.
  rewrite (bind_ok _ _ _ _ _ (size_catch p s)).
  destruct (fs_getsize s p) as [n|e]; [|reflexivity].
  destruct (max_size <? n)%nat; [reflexivity|].
  destruct (scan_file_total p s) as [[i|] Hi]; rewrite (bind_ok _ _ _ _ _ Hi), Hi; [|reflexivity].
  rewrite (bind_ok _ _ s s None eq_refl). reflexivity.
Qed.

Lemma scan_files_scan (exts : list string) (root : path) (files : list string) :
  runs_scan (St:=St) (map (path_join root) (List.filter (ext_ok exts) files))
            (scan_files false exts root files).
Proof.
  induction files as [|f fs IH]; [apply runs_scan_ret|].
  replace (map (path_join root) (List.filter (ext_ok exts) (f :: fs)))
    with ((if ext_ok exts f then [path_join root f] else []) ++
          map (path_join root) (List.filter (ext_ok exts) fs))
    by (cbn; destruct (ext_ok exts f); reflexivity).
  exact (runs_scan_bind _ _ _ _ (scan_one_scan exts root f) IH).
Qed.

Lemma walk_scan (fuel : nat) (exts : list string) (root : path) (t : dir_tree) :
  runs_scan (St:=St) (walk_paths fuel exts root t) (walk fuel false exts root t).
Proof.
  revert root t. induction fuel as [|fuel IH]; intros root [files subdirs]; [apply runs_scan_ret|].
  cbn [walk walk_paths]. apply runs_scan_bind; [apply scan_files_scan|].
  generalize (prune subdirs) as ds. induction ds as [|[n sub] ds IHds]; [apply runs_scan_ret|].
  exact (runs_scan_bind _ _ _ _ (IH _ _) IHds).
Qed.

End Laws.

(** *** The counters invariant *)

Lemma results_wf_count (acc : results) :
  results_wf acc = true -> results_wf (count_scanned acc) = true.
Proof.
  unfold results_wf, count_scanned. cbn [files_fixed issues_found files_scanned problems]. rewrite !andb_true_iff, !Nat.leb_le, Nat.eqb_eq. lia.
Qed.

Lemma results_wf_add (acc : results) (p : path) (i : issue) (o : option fix_result) :
  results_wf acc = true -> results_wf (add_problem (count_scanned acc) p i o) = true.
Proof.
  unfold results_wf, add_problem, count_scanned. cbn [files_fixed issues_found files_scanned problems]. rewrite length_app.
  rewrite !andb_true_iff, !Nat.leb_le, !Nat.eqb_eq. destruct (is_fixed o); cbn; lia.
Qed.

Lemma preserves_ret : preserves_wf (St:=St) ret.
Proof. intros acc s s' r Hwf [= _ <-]. exact Hwf. Qed.

Lemma preserves_bind (m1 m2 : results -> M results) :
  preserves_wf (St:=St) m1 -> preserves_wf m2 -> preserves_wf (fun acc => bind (m1 acc) m2).
Proof.
  intros H1 H2 acc s s' r Hwf. unfold bind.
  destruct (m1 acc s) as [s1 [r1|e]] eqn:E1; [|discriminate]. eauto.
Qed.

Lemma scan_one_wf (fm : bool) (exts : list string) (root file : string) :
  preserves_wf (St:=St) (scan_one fm exts root file).
Proof.
  intros acc s s' r Hwf. unfold scan_one.
  destruct (ext_ok exts file); cbn [negb]; [|intros [= _ <-]; exact Hwf].
  rewrite (bind_ok _ _ _ _ _ (size_catch _ s)).
  destruct (fs_getsize s (path_join root file)) as [n|e]; [|intros [= _ <-]; by apply results_wf_count].
  destruct (max_size <? n)%nat; [intros [= _ <-]; by apply results_wf_count|].
  destruct (scan_file_total (path_join root file) s) as [[i|] Hi]; rewrite (bind_ok _ _ _ _ _ Hi);
    [|intros [= _ <-]; by apply results_wf_count].
  destruct (fix_step fm (path_join root file) s) as (s1 & o & Ho & _ & _). rewrite (bind_ok _ _ _ _ _ Ho).
  cbn zeta. unfold bind at 1. destruct (print_lines _ s1) as [s2 [[]|e]]; [|discriminate].
  intros [= _ <-]. by apply results_wf_add.
Qed.

End Fold.

Create HintDb walk_wf.
#[export] Hint Resolve preserves_ret preserves_bind scan_one_wf : walk_wf.

Section FoldWf.
Context {St : Type} {FS : FileStore St}.

Lemma scan_files_wf (fm : bool) (exts : list string) (root : path) (files : list string) :
  preserves_wf (St:=St) (scan_files fm exts root files).
Proof. induction files as [|f fs IH]; cbn [scan_files]; eauto with walk_wf. Qed.

Lemma walk_wf (fuel : nat) (fm : bool) (exts : list string) (root : path) (t : dir_tree) :
  preserves_wf (St:=St) (walk fuel fm exts root t).
Proof.
  revert root t. induction fuel as [|fuel IH]; intros root [files subdirs]; cbn [walk];
    [eauto with walk_wf|].
  apply preserves_bind; [apply scan_files_wf|].
  induction (prune subdirs) as [|[n sub] ds IHds]; eauto with walk_wf.
Qed.

End FoldWf.

#[export] Hint Resolve scan_files_wf walk_wf : walk_wf.

(** ** Trees, fuel and pruning *)

Lemma dir_tree_nested_ind (P : dir_tree -> Prop) :
  (forall files subdirs, Forall (fun d => P d.2) subdirs -> P (DirNode files subdirs)) ->
  forall t, P t.
Proof.
  intros H. fix IH 1. intros [files subdirs]. apply H.
  revert subdirs. fix IHl 1. intros [|[n sub] ds]; constructor; [apply IH | apply IHl].
Qed.

Lemma height_sub (ds : list (string * dir_tree)) (d : string * dir_tree) :
  In d ds -> (height d.2 <= fold_right (fun d m => Nat.max (height d.2) m) 0 ds)%nat.
Proof. induction ds as [|d' ds IH]; cbn; [done|]. intros [<-|Hin]; [lia|]. specialize (IH Hin). lia. Qed.

Lemma remove_first_in {A} (x : string) (l : list (string * A)) (d : string * A) :
  In d (remove_first x l) -> In d l.
Proof.
  induction l as [|[n a] l IH]; cbn; [done|].
  destruct (String.eqb n x); [auto|]. intros [<-|Hin]; auto.
Qed.

Lemma prune_in {A} (l : list (string * A)) (d : string * A) : In d (prune l) -> In d l.
Proof. unfold prune. intros H. apply remove_first_in in H. exact (remove_first_in _ _ _ H). Qed.

Lemma filter_names_all {A} (x : string) (l : list (string * A)) :
  x ∉ l.*1 -> List.filter (fun d => negb (String.eqb d.1 x)) l = l.
Proof.
  induction l as [|[n a] l IH]; cbn; [done|]. intros Hx.
  destruct (String.eqb_spec n x) as [->|_]; [set_solver|]. cbn. f_equal. set_solver.
Qed.

Lemma remove_first_filter {A} (x : string) (l : list (string * A)) :
  NoDup l.*1 -> remove_first x l = List.filter (fun d => negb (String.eqb d.1 x)) l.
Proof.
  induction l as [|[n a] l IH]; cbn; [done|]. intros Hnd. apply NoDup_cons in Hnd as [Hn Hnd].
  destruct (String.eqb_spec n x) as [->|_]; cbn.
  - symmetry. exact (filter_names_all x l Hn).
  - f_equal. exact (IH Hnd).
Qed.

Lemma filter_names_nodup {A} (f : string * A -> bool) (l : list (string * A)) :
  NoDup l.*1 -> NoDup (List.filter f l).*1.
Proof.
  induction l as [|[n a] l IH]; cbn; [done|]. intros Hnd. apply NoDup_cons in Hnd as [Hn Hnd].
  destruct (f (n, a)); cbn; [|auto]. apply NoDup_cons. split; [|auto].
  intros Hin. apply Hn. apply list_elem_of_fmap in Hin as ([n' a'] & -> & Hin).
  apply list_elem_of_fmap. exists (n', a'). split; [done|].
  apply list_elem_of_In in Hin. apply List.filter_In in Hin as [Hin _]. by apply list_elem_of_In.
Qed.

Lemma filter_filter_andb {A} (p q : A -> bool) (l : list A) :
  List.filter p (List.filter q l) = List.filter (fun x => q x && p x) l.
Proof. induction l as [|x l IH]; cbn; [done|]. destruct (q x); cbn; [destruct (p x)|]; cbn; congruence. Qed.

(** In a listing without duplicate names, the two [remove]s of lines
    63-66 drop exactly the entries named [.git] and [node_modules]. *)
Lemma prune_filter {A} (l : list (string * A)) :
  NoDup l.*1 -> prune l = List.filter (fun d => negb (pruned_name d.1)) l.
Proof.
  intros Hnd. unfold prune.
  rewrite (remove_first_filter "node_modules" l Hnd), remove_first_filter
    by exact (filter_names_nodup _ l Hnd).
  rewrite filter_filter_andb. apply List.filter_ext. intros [n a]. unfold pruned_name. cbn.
  destruct (String.eqb n "node_modules"), (String.eqb n ".git"); reflexivity.
Qed.

(** With fuel at least the tree's height, the walk reaches every
    directory. *)
Lemma walk_paths_candidates (exts : list string) (t : dir_tree) :
  forall (root : path) (fuel : nat), wf_tree t = true -> (height t <= fuel)%nat ->
  walk_paths fuel exts root t = tree_candidates exts root t.
Proof.
  induction t as [files subdirs IH] using dir_tree_nested_ind.
  intros root [|fuel] Hwf Hh; cbn in Hh; [lia|]. apply Nat.succ_le_mono in Hh.
  cbn in Hwf |- *. apply andb_prop in Hwf as [Hnd Hwf]. apply bool_decide_eq_true in Hnd.
  rewrite (prune_filter subdirs Hnd). f_equal. clear Hnd.
  induction subdirs as [|[n sub] ds IHds]; cbn in *; [done|].
  apply Forall_cons in IH as [IHsub IH]. apply andb_prop in Hwf as [Hsub Hwf].
  apply Nat.max_lub_iff in Hh as [Hhs Hh]. rewrite <- (IHds IH Hwf Hh).
  destruct (pruned_name n); cbn; [done|]. f_equal. exact (IHsub _ _ Hsub Hhs).
Qed.

Section Whole.
Context {St : Type} {FS : FileStore St} {FSL : FileStoreLaws St}.

Lemma walk_fuel_irrelevant (t : dir_tree) :
  forall (f1 f2 : nat) (fm : bool) (exts : list string) (root : path) (acc : results) (s : St),
  (height t <= f1)%nat -> (height t <= f2)%nat ->
  walk f1 fm exts root t acc s = walk f2 fm exts root t acc s.
Proof.
  induction t as [files subdirs IH] using dir_tree_nested_ind.
  intros [|f1] [|f2] fm exts root acc s H1 H2; cbn in H1, H2; try lia.
  apply Nat.succ_le_mono in H1, H2. cbn [walk]. unfold bind.
  destruct (scan_files fm exts root files acc s) as [s1 [a|e]]; [|reflexivity].
  assert (Hall : List.Forall (fun d => forall root acc s,
            walk f1 fm exts root d.2 acc s = walk f2 fm exts root d.2 acc s) (prune subdirs)).
  { apply List.Forall_forall. intros d Hd. apply prune_in in Hd.
    pose proof (height_sub _ _ Hd).
    rewrite List.Forall_forall in IH. intros. apply IH; [exact Hd|lia|lia]. }
  clear IH. revert a s1. induction Hall as [|[n sub] ds Hd _ IHds]; intros a s1; [reflexivity|].
  cbn in Hd |- *. rewrite Hd.
  destruct (walk f2 fm exts (path_join root n) sub a s1) as [s2 [b|e]]; [apply IHds|reflexivity].
Qed.

Lemma height_fold_le (x : string * dir_tree) (ds1 ds2 : list (string * dir_tree)) :
  (fold_right (fun d m => Nat.max (height d.2) m) 0 (ds1 ++ ds2) <=
   fold_right (fun d m => Nat.max (height d.2) m) 0 (ds1 ++ x :: ds2))%nat.
Proof.
  induction ds1 as [|d ds1 IH]; cbn; [apply Nat.le_max_r|]. apply Nat.max_le_compat_l, IH.
Qed.

Lemma nodup_names_remove {A} (ds1 ds2 : list (string * A)) (x : string * A) :
  NoDup (ds1 ++ x :: ds2).*1 -> NoDup (ds1 ++ ds2).*1.
Proof.
  rewrite !fmap_app, !NoDup_app. cbn. intros (H1 & H2 & H3).
  apply NoDup_cons in H3 as [_ H3]. split; [done|]. split; [|done].
  intros y Hy Hy2. apply (H2 y Hy). apply elem_of_cons. by right.
Qed.

(** ** [scan_directory] as a whole *)

Lemma scan_tree_result (dir : path) (t : dir_tree) (exts : list string) (fm : bool)
    (s s' : St) (r : results) :
  scan_tree dir t exts fm s = (s', Ok r) ->
  (fm = false -> disk_eq s s') /\ extends fm s (walk_paths (height t) exts dir t) results0 r.
Proof.
  intros H. destruct (walk_spec (height t) fm exts dir t results0 s) as (s1 & o & H1 & Hs & Hx).
  unfold scan_tree in H. rewrite H in H1. injection H1 as <- <-. auto.
Qed.

Lemma walk_prune_skip (fuel : nat) (fm : bool) (exts : list string) (root : path)
    (files : list string) (ds1 ds2 : list (string * dir_tree)) (name : string) (sub : dir_tree)
    (acc : results) (s : St) :
  pruned_name name = true -> NoDup (ds1 ++ (name, sub) :: ds2).*1 ->
  walk fuel fm exts root (DirNode files (ds1 ++ (name, sub) :: ds2)) acc s =
  walk fuel fm exts root (DirNode files (ds1 ++ ds2)) acc s.
Proof.
  intros Hn Hnd. destruct fuel; [reflexivity|]. cbn [walk].
  rewrite (prune_filter _ Hnd), (prune_filter _ (nodup_names_remove _ _ _ Hnd)), !List.filter_app.
  cbn [List.filter fst]. rewrite Hn. reflexivity.
Qed.

(** From the empty results, the counters describe the problems list. *)
Lemma results_consistent (fm : bool) (s : St) (C : list path) (r : results) :
  extends fm s C results0 r ->
  issues_found r = length (problems r) /\ files_fixed r = fixed_count (problems r) /\
  Forall (fun pr => is_Some (pr_fix_result pr) <-> fm = true) (problems r).
Proof.
  intros (new & P & I & F & _ & W). cbn in P, I, F. rewrite I, F, P.
  split; [done|]. split; [done|].
  eapply Forall_impl; [exact W|]. intros pr (_ & Hf & _). exact Hf.
Qed.

(** C16: on a listing, [files_scanned] is the number of files that pass
    the extension filter outside [.git] and [node_modules], whether or
    not they were read: the count of line 74 comes before the size check. *)
Theorem scan_tree_files_scanned (dir : path) (t : dir_tree) (exts : list string) (fm : bool)
    (s s' : St) (r : results) :
  scan_tree dir t exts fm s = (s', Ok r) -> wf_tree t = true ->
  files_scanned r = length (tree_candidates exts dir t).
Proof.
  intros H Hwf. apply scan_tree_result in H as [_ (new & _ & _ & _ & Sc & _)].
  rewrite Sc, (walk_paths_candidates exts t dir (height t) Hwf) by lia. reflexivity.
Qed.

(** C17: a listed file that passes the filter but whose size cannot be
    read, or exceeds 5 MiB, is counted in [files_scanned] and then left:
    it is neither read nor reported. *)
Theorem scan_one_counts_unsized (fm : bool) (exts : list string) (root file : string)
    (acc : results) (s : St) :
  ext_ok exts file = true ->
  (forall n, fs_getsize s (path_join root file) = Ok n -> (max_size < n)%nat) ->
  scan_one fm exts root file acc s = (s, Ok (count_scanned acc)).
Proof.
  intros Hext Hsz. unfold scan_one. rewrite Hext. cbn [negb].
  unfold bind at 1, catch, getsize, bind, ret.
  destruct (fs_getsize s (path_join root file)) as [n|e] eqn:E; [|reflexivity].
  pose proof (Hsz n eq_refl) as Hlt. apply Nat.ltb_lt in Hlt. rewrite Hlt. reflexivity.
Qed.

(** C18: a sub-directory named [.git] or [node_modules] is not walked:
    removing it from the listing does not change what [scan_tree] does
    or returns. *)
Theorem scan_tree_skips_pruned (dir : path) (files : list string)
    (ds1 ds2 : list (string * dir_tree)) (name : string) (sub : dir_tree)
    (exts : list string) (fm : bool) (s : St) :
  pruned_name name = true -> NoDup (ds1 ++ (name, sub) :: ds2).*1 ->
  scan_tree dir (DirNode files (ds1 ++ (name, sub) :: ds2)) exts fm s =
  scan_tree dir (DirNode files (ds1 ++ ds2)) exts fm s.
Proof.
  intros Hn Hnd. unfold scan_tree. rewrite (walk_prune_skip _ _ _ _ _ _ _ _ _ _ _ Hn Hnd).
  apply walk_fuel_irrelevant; [|done]. cbn [height]. apply le_n_S, height_fold_le.
Qed.

(** C19: on a listing, every reported problem is about a file that
    passes the filter and does not lie below [.git] or [node_modules]. *)
Theorem scan_tree_problem_files (dir : path) (t : dir_tree) (exts : list string) (fm : bool)
    (s s' : St) (r : results) :
  scan_tree dir t exts fm s = (s', Ok r) -> wf_tree t = true ->
  Forall (fun pr => pr_file pr ∈ tree_candidates exts dir t) (problems r).
Proof.
  intros H Hwf. apply scan_tree_result in H as [_ (new & P & _ & _ & _ & W)].
  cbn in P. rewrite P, <- (walk_paths_candidates exts t dir (height t) Hwf) by lia.
  eapply Forall_impl; [exact W|]. intros pr (Hin & _). exact Hin.
Qed.

(** C20: a walk of a listing in scan mode that returns has changed no
    file: the state it leaves is the one it started from with the
    feedback of its problems printed, and every reported file had a size
    of at most 5 MiB. *)
Theorem scan_tree_size_ceiling (dir : path) (t : dir_tree) (exts : list string)
    (s s' : St) (r : results) :
  scan_tree dir t exts false s = (s', Ok r) ->
  s' = fold_left fs_print (map line_text (feedback_all false (problems r))) s /\
  Forall (fun pr => exists n, fs_getsize s (pr_file pr) = Ok n /\ (n <= max_size)%nat) (problems r).
Proof.
  unfold scan_tree. rewrite walk_scan. unfold scan_spec, bind.
  destruct (print_lines _ s) as [s1 [[]|e]] eqn:E; [|discriminate]. intros [= <- <-].
  cbn [scan_results problems results0 app]. split; [exact (print_lines_ok_state _ _ _ E)|].
  apply Forall_forall. intros pr Hpr. apply list_elem_of_omap in Hpr as (p & _ & Hr).
  destruct (report_size s p pr Hr) as [-> Hn]. exact Hn.
Qed.

(** C15: in scan mode the walk of a listing does exactly what
    [scan_spec] says: the problems are, in [os.walk]'s order (a
    directory's files before its sub-directories, each list in listing
    order), the candidates whose size is known and at most 5 MiB and on
    which [scan_file] reports an issue; their feedback is printed in that
    order, the first path that is not valid UTF-8 raising
    [UnicodeEncodeError]; every candidate is counted; no file changes. *)
Theorem scan_tree_scan_mode (dir : path) (t : dir_tree) (exts : list string) (s : St) :
  wf_tree t = true ->
  scan_tree dir t exts false s = scan_spec s (tree_candidates exts dir t) results0 s.
Proof.
  intros Hwf. unfold scan_tree. rewrite walk_scan.
  by rewrite (walk_paths_candidates exts t dir (height t) Hwf) by lia.
Qed.

End Whole.

(** ** Witnesses on the sample tree *)

Lemma scan_tree_files_scanned_witness :
  wf_tree sample_tree = true /\
  exists s' r, scan_tree "r" sample_tree [".txt"] false sample_store = (s', Ok r) /\
    files_scanned r = 4 /\
    files_scanned r = length (tree_candidates [".txt"] "r" sample_tree).
Proof.
  split; [reflexivity|]. do 2 eexists. split; [reflexivity|]. split; [reflexivity|].
  eapply (scan_tree_files_scanned "r" sample_tree [".txt"] false sample_store _ _);
    reflexivity.
Defined.

Lemma scan_one_counts_unsized_witness :
  ext_ok [".txt"] "gone.txt" = true /\
  (forall n, fs_getsize sample_store (path_join "r" "gone.txt") = Ok n -> (max_size < n)%nat) /\
  scan_one false [".txt"] "r" "gone.txt" results0 sample_store =
    (sample_store, Ok (count_scanned results0)).
Proof.
  split; [reflexivity|]. split; [intros n Hn; vm_compute in Hn; discriminate Hn|].
  apply scan_one_counts_unsized; [reflexivity|]. intros n Hn. vm_compute in Hn. discriminate Hn.
Defined.

Lemma scan_tree_skips_pruned_witness :
  pruned_name ".git" = true /\
  NoDup ([] ++ (".git", DirNode ["c.txt"] []) :: [("d", DirNode ["e.txt"] [])]).*1 /\
  scan_tree "r" sample_tree [".txt"] true sample_store =
  scan_tree "r" (DirNode ["a.txt"; "b.txt"; "gone.txt"; "x.bin"]
                              ([] ++ [("d", DirNode ["e.txt"] [])])) [".txt"] true sample_store.
Proof.
  assert (Hnd : NoDup ([] ++ (".git", DirNode ["c.txt"] []) :: [("d", DirNode ["e.txt"] [])]).*1)
    by (apply (bool_decide_unpack _); vm_compute; exact I).
  split; [reflexivity|]. split; [exact Hnd|].
  exact (scan_tree_skips_pruned "r" _ [] _ ".git" _ [".txt"] true sample_store eq_refl Hnd).
Defined.

Lemma scan_tree_problem_files_witness :
  wf_tree sample_tree = true /\
  exists s' r, scan_tree "r" sample_tree [".txt"] true sample_store = (s', Ok r) /\
    map pr_file (problems r) = ["r/b.txt"; "r/d/e.txt"] /\
    Forall (fun pr => pr_file pr ∈ tree_candidates [".txt"] "r" sample_tree) (problems r).
Proof.
  split; [reflexivity|]. do 2 eexists. split; [reflexivity|]. split; [reflexivity|].
  eapply (scan_tree_problem_files "r" sample_tree [".txt"] true sample_store _ _);
    reflexivity.
Defined.

Lemma scan_tree_size_ceiling_witness :
  exists s' r, scan_tree "r" sample_tree [".txt"] false sample_store = (s', Ok r) /\
    length (problems r) = 2 /\ length (fs_stdout s') = 2 /\
    (s' = fold_left fs_print (map line_text (feedback_all false (problems r))) sample_store /\
     Forall (fun pr => exists n, fs_getsize sample_store (pr_file pr) = Ok n /\ (n <= max_size)%nat)
            (problems r)).
Proof.
  do 2 eexists. split; [reflexivity|]. split; [reflexivity|]. split; [reflexivity|].
  eapply (scan_tree_size_ceiling "r" sample_tree [".txt"] sample_store _ _). reflexivity.
Defined.

Lemma scan_tree_scan_mode_witness :
  wf_tree sample_tree = true /\
  map pr_file (problems (scan_results sample_store (tree_candidates [".txt"] "r" sample_tree) results0))
    = ["r/b.txt"; "r/d/e.txt"] /\
  scan_tree "r" sample_tree [".txt"] false sample_store =
    scan_spec sample_store (tree_candidates [".txt"] "r" sample_tree) results0 sample_store.
Proof.
  split; [reflexivity|]. split; [reflexivity|].
  apply (scan_tree_scan_mode "r" sample_tree [".txt"] sample_store). reflexivity.
Defined.

End Walk.
