(* ===== verification/ScanDirectory.v ===== *)
(** * [scan_directory] as it runs (lines 57-101 of [fix_utf8.py])

    [os.walk(directory)] is a generator: it calls [os.scandir] on a
    directory only when the loop of line 61 asks for the next triple, so
    in fix mode the listing of a directory is taken after the fixes (and
    their [.bak] files) of every directory visited before it.  [os_walk]
    models that: it lists [top] from the store when it reaches it (an
    [OSError] there makes [os.walk] skip the directory, since [onerror]
    is [None]), runs the loop body [Walk.scan_files] on its files, prunes
    the names of its sub-directories (lines 63-66: [remove_name] is
    [list.remove], which drops the first occurrence) and walks them in
    order.  [scan_directory] starts it on [directory] with the depth bound
    [S (fs_rank s directory)].

    [tree_of] is the listing [os.walk] would see if nothing changed, and
    [walk_dirs] the directories a walk of a listing reaches.  The main
    theorem, [scan_directory_listing], shows that the run equals
    [Walk.scan_tree] on the listing taken before it starts: in scan mode
    always, in fix mode when the directories reached are distinct (no two
    spell the same directory), because a fix writes only into the
    directory being handled, which has been listed already.  The only
    exception that escapes the run is the [UnicodeEncodeError] of a
    feedback [print] on a path that is not valid UTF-8
    ([scan_directory_total]), and a bad file with such a name does raise
    it ([scan_directory_unprintable_name]). *)

From Stdlib Require Import ZArith List Lia.
From stdpp Require Import base list sets gmap strings.
From S2P Require Import Prelude Codec Decoder Path Text Fs Scan Fix Walk.
Import ListNotations.

Module ScanDirectory.
Import Codec Decoder Path Text Fs Scan Fix Walk.

(** ** The program *)

(** [if x in dirs: dirs.remove(x)] *)
Fixpoint remove_name (x : string) (l : list string) : list string :=
  match l with
  | [] => []
  | n :: l' => if String.eqb n x then l' else n :: remove_name x l'
  end.

(** Lines 63-66. *)
Definition prune_names (dirs : list string) : list string :=
  remove_name ".git" (remove_name "node_modules" dirs).

Section Lazy.
Context {St : Type} {FS : FileStore St}.
Local Open Scope io_scope.

(** [os.walk]'s descent into the remaining [dirs] of [top], in order. *)
Fixpoint walk_each (walk_into : path -> results -> M (S:=St) results) (top : path)
    (dirs : list string) (acc : results) : M results :=
  match dirs with
  | [] => ret acc
  | d :: rest => acc' <- walk_into (path_join top d) acc ;; walk_each walk_into top rest acc'
  end.

(** [for root, dirs, files in os.walk(top)] with the body of lines
    62-99; [fuel] bounds the depth. *)
Fixpoint os_walk (fuel : nat) (fix_mode : bool) (extensions : list string) (top : path)
    (acc : results) : M results :=
  match fuel with
  | O => ret acc
  | S fuel' =>
    listing <- catch (l <- listdir top ;; ret (Some l)) (fun _ => ret None) ;;
    match listing with
    | None => ret acc
    | Some (files, dirs) =>
      acc' <- scan_files fix_mode extensions top files acc ;;
      walk_each (os_walk fuel' fix_mode extensions) top (prune_names dirs) acc'
    end
  end.

(** Lines 57-101. *)
Definition scan_directory (directory : path) (extensions : list string) (fix_mode : bool)
    : M results :=
  fun s => os_walk (S (fs_rank s directory)) fix_mode extensions directory results0 s.

(** ** Specification *)

(** The listing [os.walk] sees in the store [s] if nothing changes. *)
Fixpoint tree_of (fuel : nat) (s : St) (d : path) : dir_tree :=
  match fuel with
  | O => DirNode [] []
  | S fuel' =>
    match fs_listdir s d with
    | Err _ => DirNode [] []
    | Ok (files, dirs) => DirNode files (map (fun c => (c, tree_of fuel' s (path_join d c))) dirs)
    end
  end.

(** [m] leaves the listing of [d] as it is, whatever its outcome. *)
Definition keeps {A} (d : path) (m : M A) : Prop :=
  forall s s' r, m s = (s', r) -> fs_listdir s' d = fs_listdir s d.

(** [m] raises nothing but the [UnicodeEncodeError] of a feedback
    [print], changes no file in scan mode, and extends its accumulator
    over some list of files. *)
Definition runs_some (fix_mode : bool) (m : results -> M results) : Prop :=
  forall acc s, exists s' o C,
    m acc s = (s', o) /\ (fix_mode = false -> disk_eq s s') /\ outcome_ok fix_mode s C acc o.

End Lazy.

(** The directories a walk of the listing [t] from [top] reaches. *)
Fixpoint walk_dirs (fuel : nat) (top : path) (t : dir_tree) : list path :=
  match fuel with
  | O => []
  | S fuel' =>
    match t with
    | DirNode _ subdirs =>
      top :: flat_map (fun d => walk_dirs fuel' (path_join top d.1) d.2) (prune subdirs)
    end
  end.

(** The sample of [Walk], with its directories: [r], [r/.git], [r/d]. *)
Definition sample_fs : store :=
  mk_store (st_files sample_store) {[ "r"; "r/.git"; "r/d" ]} ∅ ∅.

(** A directory [r] holding a bad [\xe9.txt]: its name is the one byte
    [0xe9] (Latin-1 [é]) then [.txt], not valid UTF-8. *)
Definition latin1_name : string := String (Ascii.ascii_of_byte Byte.xe9) ".txt".

Definition latin1_fs : store :=
  mk_store {[ "r/" +:+ latin1_name := [Byte.xff] ]} {[ "r" ]} ∅ ∅.

(** ** What each operation leaves unchanged *)

Section Frame.
Context {St : Type} {FS : FileStore St} {FSL : FileStoreLaws St}.

Lemma keeps_ret {A} (d : path) (a : A) : keeps d (ret (S:=St) a).
Proof. intros s s' r H. by injection H as <- _. Qed.

Lemma keeps_bind {A B} (d : path) (m : M A) (k : A -> M B) :
  keeps d m -> (forall a, keeps d (k a)) -> keeps d (bind m k).
Proof.
  intros Hm Hk s s' r. unfold bind. destruct (m s) as [s1 [a|e]] eqn:E; intros H.
  - rewrite (Hk a s1 s' r H). exact (Hm _ _ _ E).
  - injection H as <- _. exact (Hm _ _ _ E).
Qed.

Lemma keeps_catch {A} (d : path) (m : M A) (h : exn -> M A) :
  keeps d m -> (forall e, keeps d (h e)) -> keeps d (catch m h).
Proof.
  intros Hm Hh s s' r. unfold catch. destruct (m s) as [s1 [a|e]] eqn:E; intros H.
  - injection H as <- _. exact (Hm _ _ _ E).
  - rewrite (Hh e s1 s' r H). exact (Hm _ _ _ E).
Qed.

Lemma keeps_read_bytes (d p : path) : keeps d (read_bytes (S:=St) p).
Proof. intros s s' r. unfold read_bytes. destruct (fs_read s p); intros H; by injection H as <- _. Qed.

Lemma keeps_getsize (d p : path) : keeps d (getsize (S:=St) p).
Proof. intros s s' r. unfold getsize. destruct (fs_getsize s p); intros H; by injection H as <- _. Qed.

Lemma keeps_listdir (d p : path) : keeps d (listdir (S:=St) p).
Proof. intros s s' r. unfold listdir. destruct (fs_listdir s p); intros H; by injection H as <- _. Qed.

Lemma keeps_print (d : path) (parts : list string) : keeps d (print (S:=St) parts).
Proof. intros s s' r H. apply print_disk_eq in H. exact (disk_eq_listdir _ _ _ H). Qed.

Lemma keeps_print_lines (d : path) (ls : list (list string)) : keeps d (print_lines (S:=St) ls).
Proof. intros s s' r H. apply print_lines_disk_eq in H. exact (disk_eq_listdir _ _ _ H). Qed.

Lemma keeps_write_bytes (d p : path) (b : list Byte.byte) :
  parent_key p <> dir_key d -> keeps d (write_bytes (S:=St) p b).
Proof.
  intros Hp s s' r. unfold write_bytes. destruct (fs_write s p b) as [s1 o] eqn:E.
  intros H. assert (s1 = s') as <- by (destruct o; congruence).
  exact (listdir_write_frame _ _ _ _ _ _ Hp E).
Qed.

Lemma keeps_write_text (d p : path) (t : list Z) :
  parent_key p <> dir_key d -> keeps d (write_text (S:=St) p t).
Proof.
  intros Hp s s' r. unfold write_text. destruct (Decoder.encode_str t) as [b|i].
  - apply (keeps_write_bytes d p b Hp).
  - destruct (fs_write s p []) as [s1 o] eqn:E. intros H.
    assert (s1 = s') as <- by (destruct o; congruence).
    exact (listdir_write_frame _ _ _ _ _ _ Hp E).
Qed.

(** Unfolds a computation built from the combinators into its steps. *)
Ltac keeps_steps :=
  repeat first
    [ apply keeps_ret | apply keeps_read_bytes | apply keeps_getsize | apply keeps_listdir
    | apply keeps_bind; [|intros ?] | apply keeps_catch; [|intros ?]
    | apply keeps_print | apply keeps_print_lines | apply keeps_write_bytes | apply keeps_write_text
    | match goal with
      | |- keeps _ (match ?x with _ => _ end) => destruct x
      | |- keeps _ (let _ := _ in _) => cbv zeta
      end ].

Lemma keeps_scan_file (d p : path) : keeps d (scan_file (St:=St) p).
Proof. unfold scan_file. keeps_steps. Qed.

Lemma keeps_fix_file (d p : path) :
  parent_key p <> dir_key d -> parent_key (backup_path p) <> dir_key d ->
  keeps d (fix_file (St:=St) p).
Proof. intros Hp Hb. unfold fix_file. keeps_steps; assumption. Qed.

(** A file handled in [root] is written, with its backup, in [root] only. *)
Lemma keeps_scan_one (d : path) (fm : bool) (exts : list string) (root file : string)
    (acc : results) :
  plain_name file = true -> dir_key root <> dir_key d ->
  keeps d (scan_one (St:=St) fm exts root file acc).
Proof.
  intros Hf Hr. unfold scan_one, backup_path. destruct (negb (ext_ok exts file)); [apply keeps_ret|].
  keeps_steps; unfold backup_path; rewrite ?path_join_bak;
    first [ rewrite (proj1 (parent_key_join _ _ Hf))
          | rewrite (proj1 (parent_key_join _ _ (plain_name_bak _ Hf))) ]; exact Hr.
Qed.

Lemma keeps_scan_files (d : path) (fm : bool) (exts : list string) (root : path)
    (files : list string) (acc : results) :
  Forall (fun n => plain_name n = true) files -> dir_key root <> dir_key d ->
  keeps d (scan_files (St:=St) fm exts root files acc).
Proof.
  intros Hf Hr. revert acc. induction Hf as [|f fs Hf _ IH]; intros acc; [apply keeps_ret|].
  apply keeps_bind; [by apply keeps_scan_one | exact IH].
Qed.

End Frame.

(** ** The listing and the walk of a listing *)

Lemma remove_first_map {A} (g : string -> A) (x : string) (l : list string) :
  remove_first x (map (fun c => (c, g c)) l) = map (fun c => (c, g c)) (remove_name x l).
Proof. induction l as [|c l IH]; cbn; [done|]. destruct (String.eqb c x); cbn; congruence. Qed.

Lemma prune_map {A} (g : string -> A) (l : list string) :
  prune (map (fun c => (c, g c)) l) = map (fun c => (c, g c)) (prune_names l).
Proof. unfold prune, prune_names. by rewrite !remove_first_map. Qed.

Lemma remove_name_in (x : string) (l : list string) (c : string) :
  In c (remove_name x l) -> In c l.
Proof.
  induction l as [|n l IH]; cbn; [done|]. destruct (String.eqb n x); [auto|].
  intros [<-|H]; auto.
Qed.

Lemma prune_names_in (l : list string) (c : string) : In c (prune_names l) -> In c l.
Proof. unfold prune_names. intros H. by apply remove_name_in, remove_name_in in H. Qed.

Section Footprint.
Context {St : Type} {FS : FileStore St} {FSL : FileStoreLaws St}.

(** The tree [os.walk] would see from [top]: its root listing unfolded. *)
Lemma tree_of_ok (fuel : nat) (s : St) (top : path) (files dirs : list string) :
  fs_listdir s top = Ok (files, dirs) ->
  tree_of (S fuel) s top = DirNode files (map (fun c => (c, tree_of fuel s (path_join top c))) dirs).
Proof. intros E. cbn. by rewrite E. Qed.

(** Walking a listing writes only into the directories it reaches. *)
Lemma keeps_walk_tree (fuel : nat) (fm : bool) (exts : list string) (d : path) (s0 : St) :
  forall (top : path) (acc : results),
  ~ In (dir_key d) (map dir_key (walk_dirs fuel top (tree_of fuel s0 top))) ->
  keeps d (walk fuel fm exts top (tree_of fuel s0 top) acc).
Proof.
  induction fuel as [|f IH]; intros top acc Hd; [apply keeps_ret|].
  destruct (fs_listdir s0 top) as [[files dirs]|e] eqn:E.
  - rewrite (tree_of_ok f s0 top files dirs E) in Hd |- *.
    apply listdir_plain in E as [Pf _]. cbn [walk walk_dirs map] in Hd |- *.
    rewrite prune_map in Hd |- *.
    apply keeps_bind; [apply keeps_scan_files; [exact Pf|intros Heq; apply Hd; left; exact Heq]|].
    intros a. clear Pf. revert Hd a. generalize (prune_names dirs) as L.
    induction L as [|c L IHL]; intros Hd a; [apply keeps_ret|].
    cbn [map flat_map] in Hd |- *. rewrite List.map_app in Hd.
    apply keeps_bind.
    + apply IH. intros Hin. apply Hd. right. apply in_or_app. by left.
    + intros b. apply IHL. intros Hin. apply Hd. destruct Hin as [Hin|Hin]; [by left|].
      right. apply in_or_app. by right.
  - cbn. rewrite E. intros s s' r H. by injection H as <- _.
Qed.

End Footprint.

(** ** The run equals the walk of the listing taken before it *)

Section Equivalence.
Context {St : Type} {FS : FileStore St} {FSL : FileStoreLaws St}.

Lemma os_walk_listed (f : nat) (fm : bool) (exts : list string) (top : path) (acc : results)
    (s : St) (files dirs : list string) :
  fs_listdir s top = Ok (files, dirs) ->
  os_walk (S f) fm exts top acc s =
  bind (scan_files fm exts top files acc) (walk_each (os_walk f fm exts) top (prune_names dirs)) s.
Proof. intros E. cbn [os_walk]. unfold bind, catch, listdir. rewrite E. reflexivity. Qed.

Lemma os_walk_unlisted (f : nat) (fm : bool) (exts : list string) (top : path) (acc : results)
    (s : St) (e : io_error) :
  fs_listdir s top = Err e -> os_walk (S f) fm exts top acc s = (s, Ok acc).
Proof. intros E. cbn [os_walk]. unfold bind, catch, listdir. rewrite E. reflexivity. Qed.

(** After a step that keeps [d] (or any step, in scan mode), the
    listing of [d] is still the one of [s0]. *)
Lemma agree_step (fm : bool) (m : M results) (s s1 s0 : St) (o : result results exn) (d : path) :
  m s = (s1, o) -> (fm = false -> disk_eq s s1) -> (fm = false \/ keeps d m) ->
  fs_listdir s d = fs_listdir s0 d -> fs_listdir s1 d = fs_listdir s0 d.
Proof.
  intros E Hs [Hf|Hk] Hd; rewrite <- Hd; [exact (disk_eq_listdir _ _ _ (Hs Hf))|exact (Hk _ _ _ E)].
Qed.

Lemma nodup_keys_app (fm : bool) (l1 l2 : list path) :
  (fm = false \/ NoDup (map dir_key (l1 ++ l2))) ->
  (fm = false \/ NoDup (map dir_key l1)) /\ (fm = false \/ NoDup (map dir_key l2)) /\
  (fm = false \/ forall d, In d l2 -> ~ In (dir_key d) (map dir_key l1)).
Proof.
  intros [Hf|Hnd]; [auto|]. rewrite List.map_app, NoDup_app in Hnd. destruct Hnd as (H1 & H12 & H2).
  split; [by right|]. split; [by right|]. right. intros d Hd Hin.
  apply list_elem_of_In in Hin. apply (H12 _ Hin), list_elem_of_In, in_map, Hd.
Qed.

Lemma os_walk_tree (fuel : nat) (fm : bool) (exts : list string) :
  forall (top : path) (s0 s : St) (acc : results),
  (fm = false \/ NoDup (map dir_key (walk_dirs fuel top (tree_of fuel s0 top)))) ->
  (forall d, In d (walk_dirs fuel top (tree_of fuel s0 top)) -> fs_listdir s d = fs_listdir s0 d) ->
  os_walk fuel fm exts top acc s = walk fuel fm exts top (tree_of fuel s0 top) acc s.
Proof.
  induction fuel as [|f IH]; intros top s0 s acc Hnd Hag; [reflexivity|].
  destruct (fs_listdir s0 top) as [[files dirs]|e] eqn:E.
  2:{ assert (Hl : fs_listdir s top = Err e).
      { rewrite <- E. apply Hag. cbn. rewrite E. by left. }
      rewrite (os_walk_unlisted f fm exts top acc s e Hl). cbn. by rewrite E. }
  rewrite (tree_of_ok f s0 top files dirs E) in Hnd, Hag |- *.
  cbn [walk walk_dirs map] in Hnd, Hag |- *. rewrite prune_map in Hnd, Hag |- *.
  assert (Hl : fs_listdir s top = Ok (files, dirs)) by (rewrite <- E; apply Hag; by left).
  rewrite (os_walk_listed f fm exts top acc s files dirs Hl).
  destruct (scan_files_spec fm exts top files acc s) as (s1 & o1 & Es & Hs1 & _).
  destruct o1 as [a1|x]; [|by rewrite !(bind_err _ _ _ _ _ Es)].
  rewrite !(bind_ok _ _ _ _ _ Es).
  assert (Hnd1 : fm = false \/ NoDup (map dir_key (flat_map (fun d => walk_dirs f (path_join top d.1) d.2)
                   (map (fun c => (c, tree_of f s0 (path_join top c))) (prune_names dirs))))).
  { destruct Hnd as [Hf|Hnd]; [by left|]. right. by apply NoDup_cons in Hnd as [_ Hnd]. }
  assert (Hag1 : forall d, In d (flat_map (fun d => walk_dirs f (path_join top d.1) d.2)
                   (map (fun c => (c, tree_of f s0 (path_join top c))) (prune_names dirs))) ->
                 fs_listdir s1 d = fs_listdir s0 d).
  { intros d Hd. apply (agree_step fm _ s s1 s0 _ d Es Hs1); [|apply Hag; by right].
    destruct Hnd as [Hf|Hnd]; [by left|]. right. apply keeps_scan_files.
    - exact (proj1 (listdir_plain _ _ _ _ E)).
    - apply NoDup_cons in Hnd as [Htop _]. intros Heq. apply Htop, list_elem_of_In.
      rewrite Heq. by apply in_map. }
  clear Hnd Hag Hl Es Hs1. revert a1 s1 Hnd1 Hag1. generalize (prune_names dirs) as L.
  induction L as [|c L IHL]; intros a1 s1 Hnd1 Hag1; [reflexivity|].
  cbn [map flat_map walk_each] in Hnd1, Hag1 |- *.
  destruct (nodup_keys_app fm _ _ Hnd1) as (Hsub & Hrest & Hdisj).
  destruct (walk_spec f fm exts (path_join top c) (tree_of f s0 (path_join top c)) a1 s1)
    as (s2 & o & Ew & Hs2 & _).
  assert (Eo : os_walk f fm exts (path_join top c) a1 s1 = (s2, o)).
  { rewrite <- Ew. apply IH; [exact Hsub|]. intros d Hd. apply Hag1, in_or_app. by left. }
  destruct o as [b|x]; [|by rewrite (bind_err _ _ _ _ _ Eo), (bind_err _ _ _ _ _ Ew)].
  rewrite (bind_ok _ _ _ _ _ Eo), (bind_ok _ _ _ _ _ Ew). apply IHL; [exact Hrest|].
  intros d Hd. apply (agree_step fm _ s1 s2 s0 _ d Ew Hs2); [|apply Hag1, in_or_app; by right].
  destruct Hdisj as [Hf|Hdisj]; [by left|]. right. apply keeps_walk_tree. exact (Hdisj d Hd).
Qed.

End Equivalence.

(** ** Depth: the rank bounds the descent *)

Section Depth.
Context {St : Type} {FS : FileStore St} {FSL : FileStoreLaws St}.

Lemma fold_height_le (l : list (string * dir_tree)) (n : nat) :
  (forall x, In x l -> (height x.2 <= n)%nat) ->
  (fold_right (fun d m => Nat.max (height d.2) m) 0 l <= n)%nat.
Proof.
  induction l as [|x l IH]; cbn; intros H; [lia|].
  apply Nat.max_lub; [apply H; by left|]. apply IH. intros y Hy. apply H. by right.
Qed.

(** More fuel than the rank changes nothing in the listing. *)
Lemma tree_of_fuel (s : St) (f1 : nat) :
  forall (f2 : nat) (d : path), (S (fs_rank s d) <= f1)%nat -> (S (fs_rank s d) <= f2)%nat ->
  tree_of f1 s d = tree_of f2 s d.
Proof.
  induction f1 as [|f1 IH]; intros [|f2] d H1 H2; try lia. cbn.
  destruct (fs_listdir s d) as [[files dirs]|e] eqn:E; [|done]. f_equal.
  apply map_ext_in. intros c Hc. pose proof (rank_child _ _ _ _ _ E Hc).
  f_equal. apply IH; lia.
Qed.

Lemma tree_of_height (s : St) (f : nat) :
  forall (d : path), (S (fs_rank s d) <= f)%nat -> (height (tree_of f s d) <= S (fs_rank s d))%nat.
Proof.
  induction f as [|f IH]; intros d Hf; [lia|]. cbn.
  destruct (fs_listdir s d) as [[files dirs]|e] eqn:E; cbn; [|lia].
  apply le_n_S, fold_height_le. intros x Hx. apply in_map_iff in Hx as (c & <- & Hc).
  pose proof (rank_child _ _ _ _ _ E Hc). cbn. etransitivity; [apply IH|]; lia.
Qed.

End Depth.

(** ** Never raising, counting right *)

Section Runs.
Context {St : Type} {FS : FileStore St} {FSL : FileStoreLaws St}.

Lemma runs_ok_some (fm : bool) (C : list path) (m : results -> M results) :
  runs_ok (St:=St) fm C m -> runs_some fm m.
Proof. intros H acc s. destruct (H acc s) as (s' & o & E & Hs & X). eauto 6. Qed.

Lemma runs_some_bind (fm : bool) (m1 m2 : results -> M results) :
  runs_some (St:=St) fm m1 -> runs_some fm m2 -> runs_some fm (fun acc => bind (m1 acc) m2).
Proof.
  intros H1 H2 acc s. destruct (H1 acc s) as (s1 & [r1|x1] & C1 & E1 & S1 & X1).
  - destruct (H2 r1 s1) as (s2 & o2 & C2 & E2 & S2 & X2).
    exists s2, o2, (C1 ++ C2). rewrite (bind_ok _ _ _ _ _ E1). split; [exact E2|]. split.
    + intros Hf. etrans; [exact (S1 Hf)|exact (S2 Hf)].
    + destruct o2 as [r2|x2]; [exact (extends_trans fm s s1 C1 C2 acc r1 r2 S1 X1 X2)|].
      apply (outcome_err_app fm s s1 C1 C2 r1). by right.
  - exists s1, (Err x1), C1. rewrite (bind_err _ _ _ _ _ E1). auto.
Qed.

Lemma walk_each_some (fm : bool) (w : path -> results -> M results) (top : path) (L : list string) :
  (forall p, runs_some (St:=St) fm (w p)) -> runs_some fm (walk_each w top L).
Proof.
  intros Hw. induction L as [|c L IH]; [apply (runs_ok_some fm []), runs_ok_ret|].
  exact (runs_some_bind fm _ _ (Hw (path_join top c)) IH).
Qed.

(** [os_walk] never raises, and keeps the results consistent. *)
Lemma os_walk_some (fuel : nat) (fm : bool) (exts : list string) :
  forall top, runs_some (St:=St) fm (os_walk fuel fm exts top).
Proof.
  induction fuel as [|f IH]; intros top; [apply (runs_ok_some fm []), runs_ok_ret|].
  intros acc s. destruct (fs_listdir s top) as [[files dirs]|e] eqn:E.
  - rewrite (os_walk_listed f fm exts top acc s files dirs E).
    apply (runs_some_bind fm (scan_files fm exts top files) _).
    + apply (runs_ok_some fm _ _ (scan_files_spec fm exts top files)).
    + apply walk_each_some, IH.
  - rewrite (os_walk_unlisted f fm exts top acc s e E).
    exists s, (Ok acc), []. split; [done|]. split; [intros; reflexivity|apply extends_nil].
Qed.

End Runs.

(** ** The counters invariant along the lazy walk *)

Section Invariant.
Context {St : Type} {FS : FileStore St}.

Lemma walk_each_wf (w : path -> results -> M (S:=St) results) (top : path) (dirs : list string) :
  (forall p, preserves_wf (w p)) -> preserves_wf (walk_each w top dirs).
Proof. intros Hw. induction dirs as [|d ds IH]; cbn [walk_each]; eauto with walk_wf. Qed.

Lemma os_walk_wf (fuel : nat) (fm : bool) (exts : list string) (top : path) :
  preserves_wf (St:=St) (os_walk fuel fm exts top).
Proof.
  revert top. induction fuel as [|f IH]; intros top; [cbn [os_walk]; eauto with walk_wf|].
  intros acc s s' r Hwf. destruct (fs_listdir s top) as [[files dirs]|e] eqn:E.
  - rewrite (os_walk_listed f fm exts top acc s files dirs E).
    revert Hwf. apply preserves_bind; [apply scan_files_wf|]. by apply walk_each_wf.
  - rewrite (os_walk_unlisted f fm exts top acc s e E). intros [= _ <-]. exact Hwf.
Qed.

End Invariant.

(** ** [scan_directory] *)

Lemma walk_dirs_fuel (t : dir_tree) :
  forall (f1 f2 : nat) (top : path), (height t <= f1)%nat -> (height t <= f2)%nat ->
  walk_dirs f1 top t = walk_dirs f2 top t.
Proof.
  induction t as [files subdirs IH] using dir_tree_nested_ind.
  intros [|f1] [|f2] top H1 H2; cbn in H1, H2; try lia. cbn [walk_dirs]. f_equal.
  assert (Hall : List.Forall (fun d => forall top, walk_dirs f1 top d.2 = walk_dirs f2 top d.2)
                   (prune subdirs)).
  { apply List.Forall_forall. intros d Hd. apply prune_in in Hd. pose proof (height_sub _ _ Hd).
    rewrite List.Forall_forall in IH. intros. apply IH; [exact Hd|lia|lia]. }
  clear IH. induction Hall as [|d ds Hd _ IHds]; [done|]. cbn. by rewrite Hd, IHds.
Qed.

Section Claims.
Context {St : Type} {FS : FileStore St} {FSL : FileStoreLaws St}.

(** Every file a walk of the store's listing handles was listed, before
    the walk, in a directory the walk reaches. *)
Lemma walk_paths_listed (fuel : nat) (exts : list string) :
  forall (top : path) (s : St) (p : path),
  In p (walk_paths fuel exts top (tree_of fuel s top)) ->
  exists D file files dirs, p = path_join D file /\ fs_listdir s D = Ok (files, dirs) /\ In file files.
Proof.
  induction fuel as [|f IH]; intros top s p Hp; [done|].
  destruct (fs_listdir s top) as [[files dirs]|e] eqn:E.
  - rewrite (tree_of_ok f s top files dirs E) in Hp. cbn [walk_paths] in Hp. rewrite prune_map in Hp.
    apply in_app_or in Hp as [Hp|Hp].
    + apply in_map_iff in Hp as (file & <- & Hf). apply filter_In in Hf as [Hf _]. eauto 8.
    + apply in_flat_map in Hp as (x & Hx & Hp). apply in_map_iff in Hx as (c & <- & _).
      exact (IH _ _ _ Hp).
  - cbn in Hp. rewrite E in Hp. done.
Qed.

(** Conversely, every file listed in a directory the walk reaches and
    passing the filter is handled. *)
Lemma walk_paths_reach (fuel : nat) (exts : list string) :
  forall (top : path) (s : St) (D file : path) (files dirs : list string),
  In D (walk_dirs fuel top (tree_of fuel s top)) -> fs_listdir s D = Ok (files, dirs) ->
  In file files -> ext_ok exts file = true ->
  In (path_join D file) (walk_paths fuel exts top (tree_of fuel s top)).
Proof.
  induction fuel as [|f IH]; intros top s D file files dirs HD E Hf He; [done|].
  destruct (fs_listdir s top) as [[files0 dirs0]|e] eqn:E0.
  - rewrite (tree_of_ok f s top files0 dirs0 E0) in HD |- *. cbn [walk_paths walk_dirs] in HD |- *.
    rewrite prune_map in HD |- *. apply in_or_app. destruct HD as [<-|HD].
    + left. rewrite E in E0. injection E0 as <- <-. apply in_map, filter_In. auto.
    + right. apply in_flat_map in HD as (x & Hx & HD). apply in_flat_map. exists x.
      split; [exact Hx|]. apply in_map_iff in Hx as (c & <- & _). exact (IH _ _ _ _ _ _ HD E Hf He).
  - cbn [tree_of walk_dirs] in HD. rewrite E0 in HD. cbn in HD.
    destruct HD as [<-|[]]. congruence.
Qed.

Lemma scan_directory_some (dir : path) (exts : list string) (fm : bool) (s : St) :
  exists s' o C, scan_directory dir exts fm s = (s', o) /\ (fm = false -> disk_eq s s') /\
    outcome_ok fm s C results0 o.
Proof. exact (os_walk_some (S (fs_rank s dir)) fm exts dir results0 s). Qed.

Lemma scan_directory_walk (dir : path) (exts : list string) (fm : bool) (s : St) :
  (fm = false \/ NoDup (map dir_key (walk_dirs (S (fs_rank s dir)) dir (tree_of (S (fs_rank s dir)) s dir)))) ->
  scan_directory dir exts fm s =
  walk (S (fs_rank s dir)) fm exts dir (tree_of (S (fs_rank s dir)) s dir) results0 s.
Proof. intros Hnd. unfold scan_directory. by apply os_walk_tree. Qed.

(** A listed bad file in a reached directory is among the problems of
    the scan-mode results over the walk. *)
Lemma scan_results_bad_file (dir : path) (exts : list string) (s : St)
    (D file : path) (files dirs : list string) (n : nat) (b : list Byte.byte) (e : decode_error) :
  In D (walk_dirs (S (fs_rank s dir)) dir (tree_of (S (fs_rank s dir)) s dir)) ->
  fs_listdir s D = Ok (files, dirs) -> In file files -> ext_ok exts file = true ->
  fs_getsize s (path_join D file) = Ok n -> (n <= max_size)%nat ->
  fs_read s (path_join D file) = Ok b -> decode_utf8 Strict b = Some (Err e) ->
  In (mk_problem (path_join D file) (decode_issue b e) None)
     (problems (scan_results s (walk_paths (S (fs_rank s dir)) exts dir (tree_of (S (fs_rank s dir)) s dir))
                             results0)).
Proof.
  intros HD E Hf He Hn Hmax Hb Hd.
  cbn [scan_results problems results0 app]. apply list_elem_of_In, list_elem_of_omap.
  exists (path_join D file). split; [apply list_elem_of_In; exact (walk_paths_reach _ _ _ _ _ _ _ _ HD E Hf He)|].
  unfold report. rewrite Hn. apply Nat.ltb_ge in Hmax. rewrite Hmax.
  by rewrite (scan_file_read_ok _ _ _ Hb), Hd.
Qed.

(** In scan mode the run is [Walk.scan_spec] over the files the walk of
    the listing handles. *)
Lemma scan_directory_scan (dir : path) (exts : list string) (s : St) :
  scan_directory dir exts false s =
  scan_spec s (walk_paths (S (fs_rank s dir)) exts dir (tree_of (S (fs_rank s dir)) s dir)) results0 s.
Proof. rewrite (scan_directory_walk dir exts false s (or_introl eq_refl)). apply walk_scan. Qed.

Lemma tree_of_disk_eq (s s1 : St) (f : nat) (d : path) :
  disk_eq s s1 -> tree_of f s1 d = tree_of f s d.
Proof.
  intros H. revert d. induction f as [|f IH]; intros d; [reflexivity|]. cbn.
  rewrite (disk_eq_listdir s s1 d H). destruct (fs_listdir s d) as [[files dirs]|]; [|reflexivity].
  f_equal. apply map_ext. intros c. by rewrite IH.
Qed.

(** Scan mode started after some printing walks the listing of the
    store before it. *)
Lemma scan_directory_scan_from (dir : path) (exts : list string) (s s1 : St) :
  disk_eq s s1 ->
  scan_directory dir exts false s1 =
  scan_spec s1 (walk_paths (S (fs_rank s dir)) exts dir (tree_of (S (fs_rank s dir)) s dir)) results0 s1.
Proof. intros H. by rewrite scan_directory_scan, (disk_eq_rank s s1 dir H), (tree_of_disk_eq s s1). Qed.

(** A run in scan mode that returns has the results of [scan_results]. *)
Lemma scan_directory_scan_ok (dir : path) (exts : list string) (s s' : St) (r : results) :
  scan_directory dir exts false s = (s', Ok r) ->
  r = scan_results s (walk_paths (S (fs_rank s dir)) exts dir (tree_of (S (fs_rank s dir)) s dir)) results0.
Proof.
  rewrite scan_directory_scan. unfold scan_spec, bind.
  destruct (print_lines _ s) as [s1 [[]|x]]; [|discriminate]. by intros [= _ <-].
Qed.

(** C9: [scan_directory] always terminates, and the one exception that
    escapes it is the [UnicodeEncodeError] of a feedback [print] (line
    97) on a path that is not valid UTF-8: a directory that cannot be
    listed is skipped, and a failure on one file (an unreadable file, a
    [getsize] error, a failed fix) is caught.  In scan mode it changes
    no file. *)
Theorem scan_directory_total (dir : path) (exts : list string) (fm : bool) (s : St) :
  exists s' o, scan_directory dir exts fm s = (s', o) /\ (fm = false -> disk_eq s s') /\
    forall x, o = Err x -> exists p, x = PrintErr p /\ utf8_text p = false.
Proof.
  destruct (scan_directory_some dir exts fm s) as (s' & o & C & E & Hs & X).
  exists s', o. split; [exact E|]. split; [exact Hs|].
  intros x ->. destruct X as (p & -> & _ & Hu). eauto.
Qed.

(** C11: the counters of the results agree with the problems list:
    [issues_found] is its length, [files_fixed] the number of problems
    whose fix status is ["fixed"] (so at most [issues_found]), and a
    problem carries a ['fix_result'] exactly in fix mode. *)
Theorem scan_directory_counters (dir : path) (exts : list string) (fm : bool) (s s' : St)
    (r : results) :
  scan_directory dir exts fm s = (s', Ok r) ->
  issues_found r = length (problems r) /\ files_fixed r = fixed_count (problems r) /\
  (files_fixed r <= issues_found r)%nat /\
  Forall (fun pr => is_Some (pr_fix_result pr) <-> fm = true) (problems r).
Proof.
  intros H. destruct (scan_directory_some dir exts fm s) as (s1 & o & C & E & _ & X).
  rewrite H in E. injection E as <- <-.
  destruct (results_consistent _ _ _ _ X) as (I & F & W).
  split; [exact I|]. split; [exact F|]. split; [|exact W].
  rewrite F, I. apply List.filter_length_le.
Qed.

(** C12: the run, which lists each directory only when [os.walk] reaches
    it, does what [scan_tree] does on the listing of the store taken
    before it starts: always in scan mode, and in fix mode when no two
    directories reached are spellings of the same one.  The fixes and
    [.bak] files written meanwhile are in directories already listed. *)
Theorem scan_directory_listing (dir : path) (exts : list string) (fm : bool) (s : St) :
  (fm = false \/ NoDup (map dir_key (walk_dirs (S (fs_rank s dir)) dir (tree_of (S (fs_rank s dir)) s dir)))) ->
  scan_directory dir exts fm s = scan_tree dir (tree_of (S (fs_rank s dir)) s dir) exts fm s.
Proof.
  intros Hnd. rewrite (scan_directory_walk dir exts fm s Hnd). unfold scan_tree.
  apply walk_fuel_irrelevant; [apply tree_of_height; lia|done].
Qed.

(** C13: every file the run reports was listed in its directory before
    the run started: a file the run creates, such as a [.bak] backup, is
    never scanned or reported in the same run. *)
Theorem scan_directory_listed_files (dir : path) (exts : list string) (fm : bool) (s s' : St)
    (r : results) :
  (fm = false \/ NoDup (map dir_key (walk_dirs (S (fs_rank s dir)) dir (tree_of (S (fs_rank s dir)) s dir)))) ->
  scan_directory dir exts fm s = (s', Ok r) ->
  Forall (fun pr => exists D file files dirs,
            pr_file pr = path_join D file /\ fs_listdir s D = Ok (files, dirs) /\ In file files)
         (problems r).
Proof.
  intros Hnd H. rewrite (scan_directory_walk dir exts fm s Hnd) in H.
  destruct (walk_spec (S (fs_rank s dir)) fm exts dir (tree_of (S (fs_rank s dir)) s dir) results0 s)
    as (s1 & o & E & _ & X).
  rewrite H in E. injection E as <- <-. destruct X as (new & P & _ & _ & _ & W). cbn in P. rewrite P.
  eapply Forall_impl; [exact W|]. intros pr (Hin & _).
  apply list_elem_of_In, walk_paths_listed in Hin as (D & file & files & dirs & -> & HD & Hf).
  eauto 8.
Qed.

(** C21: when the directory itself cannot be listed ([os.scandir] raises,
    e.g. it does not exist), [os.walk] yields nothing: the run returns the
    zero counts without touching the disk, so [main] reports ["Scanned 0
    files."] instead of an error. *)
Theorem scan_directory_unlistable_root (dir : path) (exts : list string) (fm : bool) (s : St)
    (e : io_error) :
  fs_listdir s dir = Err e -> scan_directory dir exts fm s = (s, Ok results0).
Proof. intros E. exact (os_walk_unlisted _ fm exts dir results0 s e E). Qed.

(** C22: the depth bound [S (fs_rank s top)] that [scan_directory] gives
    [os_walk] is enough: a deeper bound runs the same (the descent of
    [os.walk] stops within the rank). *)
Theorem os_walk_depth (fuel : nat) (fm : bool) (exts : list string) (top : path) (acc : results)
    (s : St) :
  (S (fs_rank s top) <= fuel)%nat ->
  (fm = false \/ NoDup (map dir_key (walk_dirs (S (fs_rank s top)) top (tree_of (S (fs_rank s top)) s top)))) ->
  os_walk fuel fm exts top acc s = os_walk (S (fs_rank s top)) fm exts top acc s.
Proof.
  intros Hf Hnd.
  set (t := tree_of (S (fs_rank s top)) s top).
  assert (Ht : tree_of fuel s top = t) by (apply tree_of_fuel; lia).
  assert (Hh : (height t <= S (fs_rank s top))%nat) by (apply tree_of_height; lia).
  rewrite (os_walk_tree (S (fs_rank s top)) fm exts top s s acc Hnd (fun _ _ => eq_refl)).
  rewrite (os_walk_tree fuel fm exts top s s acc); [|rewrite Ht, (walk_dirs_fuel t fuel (S (fs_rank s top))) by lia; exact Hnd|done].
  rewrite Ht. apply (walk_fuel_irrelevant t); lia.
Qed.

(** C10: scanning reaches every bad file: a file listed, when the run
    starts, in a directory the walk reaches (the top and every
    sub-directory not below [.git] or [node_modules]), that passes the
    filter, whose size is at most 5 MiB and whose bytes fail strict
    decoding with the error [e], is reported with the issue [scan_file]
    computes for [e]. *)
Theorem scan_directory_reports_bad_file (dir : path) (exts : list string) (s s' : St) (r : results)
    (D file : path) (files dirs : list string) (n : nat) (b : list Byte.byte) (e : decode_error) :
  scan_directory dir exts false s = (s', Ok r) ->
  In D (walk_dirs (S (fs_rank s dir)) dir (tree_of (S (fs_rank s dir)) s dir)) ->
  fs_listdir s D = Ok (files, dirs) -> In file files -> ext_ok exts file = true ->
  fs_getsize s (path_join D file) = Ok n -> (n <= max_size)%nat ->
  fs_read s (path_join D file) = Ok b -> decode_utf8 Strict b = Some (Err e) ->
  In (mk_problem (path_join D file) (decode_issue b e) None) (problems r).
Proof.
  intros H. apply scan_directory_scan_ok in H as ->. apply scan_results_bad_file.
Qed.

(** The feedback of a problem announces its path. *)
Lemma feedback_all_names (fm : bool) (prs : list problem) (pr : problem) :
  In pr prs -> utf8_text (pr_file pr) = false ->
  Exists (Exists (fun x => utf8_text x = false)) (feedback_all fm prs).
Proof.
  intros Hin Hu. apply Exists_exists. eexists. split.
  - apply list_elem_of_In, in_concat. exists (feedback_lines fm pr). split; [by apply in_map|by left].
  - apply Exists_exists. exists (pr_file pr). split; [apply list_elem_of_In; by right; left|exact Hu].
Qed.

(** C23: a bad file whose own name is not valid UTF-8 stops the scan: its
    feedback [print] (line 97) raises [UnicodeEncodeError], which nothing
    catches, so [main] ends with a traceback instead of the summary, and
    the files after it are never scanned. *)
Theorem scan_directory_unprintable_name (dir : path) (exts : list string) (s : St)
    (D file : path) (files dirs : list string) (n : nat) (b : list Byte.byte) (e : decode_error) :
  In D (walk_dirs (S (fs_rank s dir)) dir (tree_of (S (fs_rank s dir)) s dir)) ->
  fs_listdir s D = Ok (files, dirs) -> In file files -> ext_ok exts file = true ->
  fs_getsize s (path_join D file) = Ok n -> (n <= max_size)%nat ->
  fs_read s (path_join D file) = Ok b -> decode_utf8 Strict b = Some (Err e) ->
  utf8_text (path_join D file) = false ->
  exists s' p, scan_directory dir exts false s = (s', Err (PrintErr p)) /\ utf8_text p = false.
Proof.
  intros HD E Hf He Hn Hmax Hb Hd Hu.
  pose proof (scan_results_bad_file dir exts s D file files dirs n b e HD E Hf He Hn Hmax Hb Hd) as Hin.
  cbn [scan_results problems results0 app] in Hin.
  rewrite scan_directory_scan. unfold scan_spec.
  destruct (print_lines_err _ s (feedback_all_names false _ _ Hin Hu)) as (s' & x & Ep & Hx).
  exists s', x. by rewrite (bind_err _ _ _ _ _ Ep).
Qed.

(** C40: an invariant of the results record: after any run, in either
    mode and whatever the file system does, [files_fixed <= issues_found
    <= files_scanned] and [issues_found] is the number of problems: every
    step of the loop keeps it, so the summary never reports more issues
    than files scanned or more fixes than issues. *)
Theorem scan_directory_results_wf (dir : path) (exts : list string) (fm : bool) (s s' : St)
    (r : results) :
  scan_directory dir exts fm s = (s', Ok r) -> results_wf r = true.
Proof. apply (os_walk_wf _ fm exts dir results0 s s' r). reflexivity. Qed.

End Claims.

(** ** Witnesses on the sample store *)

Lemma scan_directory_counters_witness :
  exists s' r, scan_directory "r" [".txt"] true sample_fs = (s', Ok r) /\
    issues_found r = 2 /\ files_fixed r = 2 /\
    (issues_found r = length (problems r) /\ files_fixed r = fixed_count (problems r) /\
     (files_fixed r <= issues_found r)%nat /\
     Forall (fun pr => is_Some (pr_fix_result pr) <-> true = true) (problems r)).
Proof.
  do 2 eexists. split; [reflexivity|]. split; [reflexivity|]. split; [reflexivity|].
  eapply (scan_directory_counters "r" [".txt"] true sample_fs _ _). reflexivity.
Defined.

Lemma sample_fs_nodup :
  NoDup (map dir_key (walk_dirs (S (fs_rank sample_fs "r")) "r"
                        (tree_of (S (fs_rank sample_fs "r")) sample_fs "r"))).
Proof. apply (bool_decide_unpack _). vm_compute. exact I. Qed.

Lemma scan_directory_listing_witness :
  (true = false \/ NoDup (map dir_key (walk_dirs (S (fs_rank sample_fs "r")) "r"
                                         (tree_of (S (fs_rank sample_fs "r")) sample_fs "r")))) /\
  scan_directory "r" [".txt"] true sample_fs =
  scan_tree "r" (tree_of (S (fs_rank sample_fs "r")) sample_fs "r") [".txt"] true sample_fs.
Proof.
  split; [right; exact sample_fs_nodup|].
  exact (scan_directory_listing "r" [".txt"] true sample_fs (or_intror sample_fs_nodup)).
Defined.

Lemma scan_directory_listed_files_witness :
  (true = false \/ NoDup (map dir_key (walk_dirs (S (fs_rank sample_fs "r")) "r"
                                         (tree_of (S (fs_rank sample_fs "r")) sample_fs "r")))) /\
  exists s' r, scan_directory "r" [".txt"] true sample_fs = (s', Ok r) /\
    st_files s' !! "r/b.txt.bak" = Some [Byte.x41; Byte.xff] /\
    map pr_file (problems r) = ["r/b.txt"; "r/d/e.txt"] /\
    Forall (fun pr => exists D file files dirs,
              pr_file pr = path_join D file /\ fs_listdir sample_fs D = Ok (files, dirs) /\
              In file files) (problems r).
Proof.
  split; [right; exact sample_fs_nodup|]. do 2 eexists. split; [reflexivity|].
  split; [reflexivity|]. split; [reflexivity|].
  eapply (scan_directory_listed_files "r" [".txt"] true sample_fs _ _ (or_intror sample_fs_nodup)).
  reflexivity.
Defined.

Lemma scan_directory_unlistable_root_witness :
  fs_listdir sample_fs "r/none" = Err (mk_io_error ENOENT (Some "r/none")) /\
  scan_directory "r/none" [".txt"] true sample_fs = (sample_fs, Ok results0).
Proof.
  split; [reflexivity|].
  apply (scan_directory_unlistable_root _ _ _ _ (mk_io_error ENOENT (Some "r/none"))). reflexivity.
Defined.

Lemma os_walk_depth_witness :
  (S (fs_rank sample_fs "r") <= 20)%nat /\
  (true = false \/ NoDup (map dir_key (walk_dirs (S (fs_rank sample_fs "r")) "r"
                                         (tree_of (S (fs_rank sample_fs "r")) sample_fs "r")))) /\
  os_walk 20 true [".txt"] "r" results0 sample_fs =
  os_walk (S (fs_rank sample_fs "r")) true [".txt"] "r" results0 sample_fs.
Proof.
  assert (Hr : (S (fs_rank sample_fs "r") <= 20)%nat) by (vm_compute; lia).
  split; [exact Hr|]. split; [right; exact sample_fs_nodup|].
  exact (os_walk_depth 20 true [".txt"] "r" results0 sample_fs Hr (or_intror sample_fs_nodup)).
Defined.

Lemma scan_directory_reports_bad_file_witness :
  exists s' r, scan_directory "r" [".txt"] false sample_fs = (s', Ok r) /\
    In (mk_problem "r/d/e.txt" (decode_issue [Byte.xc3] (mk_decode_error 0 1 UnexpectedEndOfData)) None)
       (problems r).
Proof.
  do 2 eexists. split; [reflexivity|].
  eapply (scan_directory_reports_bad_file "r" [".txt"] sample_fs _ _ "r/d" "e.txt" ["e.txt"] []
           1 [Byte.xc3] (mk_decode_error 0 1 UnexpectedEndOfData)); try reflexivity.
  - vm_compute. auto.
  - left. reflexivity.
  - apply Nat.leb_le. vm_compute. reflexivity.
Defined.

Lemma scan_directory_unprintable_name_witness :
  exists s' p, scan_directory "r" [".txt"] false latin1_fs = (s', Err (PrintErr p)) /\
    utf8_text p = false.
Proof.
  eapply (scan_directory_unprintable_name "r" [".txt"] latin1_fs "r" latin1_name [latin1_name] []
            1 [Byte.xff]); try reflexivity.
  - vm_compute. auto.
  - left. reflexivity.
  - apply Nat.leb_le. vm_compute. reflexivity.
Defined.

Lemma scan_directory_total_witness :
  exists s' o, scan_directory "r" [".txt"] false latin1_fs = (s', o) /\
    (false = false -> disk_eq latin1_fs s') /\
    forall x, o = Err x -> exists p, x = PrintErr p /\ utf8_text p = false.
Proof. exact (scan_directory_total "r" [".txt"] false latin1_fs). Defined.

Lemma scan_directory_results_wf_witness :
  exists s' r, scan_directory "r" [".txt"] true sample_fs = (s', Ok r) /\
    files_scanned r = 3 /\ results_wf r = true.
Proof.
  do 2 eexists. split; [reflexivity|]. split; [reflexivity|].
  eapply (scan_directory_results_wf "r" [".txt"] true sample_fs). reflexivity.
Defined.

End ScanDirectory.
