(* ===== verification/Main.v ===== *)
(** * [main] (lines 103-136 of [fix_utf8.py])

    [main] turns the [-e] option into the extension list (line 110:
    [args.extensions.split(',') if args.extensions else []]), prints a
    header (lines 112-115), runs [scan_directory] (which prints the
    feedback of each problem, lines 97-99) and prints the summary (lines
    119-136).  Each [print] is [Fs.print] of the parts of its f-string:
    what it writes is in [fs_stdout], and a part that does not encode (a
    directory or file name that is not valid UTF-8) raises
    [UnicodeEncodeError], which ends [main].  [argparse] itself is not
    modelled: [args] is the namespace it produces. *)

From Stdlib Require Import ZArith List Lia Ascii String.
From stdpp Require Import base list strings pretty.
From S2P Require Import Prelude Codec Decoder Path Text Fs Scan Fix Walk ScanDirectory.
Import ListNotations.

Module Main.
Import Codec Decoder Path Text Fs Scan Fix Walk ScanDirectory.

(** ** The options *)

(** The namespace [parser.parse_args()] returns (lines 104-108). *)
Record args : Type := mk_args {
  arg_directory : path;                 (* [-d], default ['.'] *)
  arg_extensions : option string;       (* [-e], [None] when absent *)
  arg_fix : bool                        (* [-f] *)
}.

(** [s.split(c)] for a one-character separator: the pieces between the
    separators, empty ones included. *)
Fixpoint py_split (c : Ascii.ascii) (s : string) : list string :=
  match s with
  | EmptyString => [""]
  | String a s' =>
    let ws := py_split c s' in
    if Ascii.eqb a c then "" :: ws
    else match ws with
         | [] => [String a ""]
         | w :: ws' => String a w :: ws'
         end
  end.

(** Line 110. *)
Definition parse_extensions (o : option string) : list string :=
  match o with
  | Some s => if String.eqb s "" then [] else py_split ","%char s
  | None => []
  end.

(** ** What is printed *)

(** [str] of a list of strings: [repr] of each item. *)
Definition py_repr_list (l : list string) : string :=
  "[" +:+ String.concat ", " (map py_repr_str l) +:+ "]".

(** Lines 112-115, one [print] each, given as the parts of its f-string. *)
Definition header_lines (a : args) (extensions : list string) : list (list string) :=
  [["Scanning directory: "; arg_directory a];
   ["File extensions: "; match extensions with [] => "all" | _ => py_repr_list extensions end];
   ["Fix mode: "; if arg_fix a then "enabled" else "disabled"];
   ["---"]].

(** Lines 129-136 for one problem. *)
Definition problem_lines (fix_mode : bool) (pr : problem) : list (list string) :=
  [["- "; pr_file pr];
   ["  Error: "; issue_error (pr_issue pr)];
   ["  Hex context: "; issue_hex_context (pr_issue pr)]] ++
  (if fix_mode then
     match pr_fix_result pr with
     | Some r =>
       ["  Fix status: "; fix_status r] ::
       (match r with Fixed bk => [["  Backup: "; bk]] | FixError _ => [] end)
     | None => []            (* unreachable: in fix mode every problem has one *)
     end
   else []) ++ [[""]].

(** Lines 119-136; line 127 prints ["\nProblematic files:"]. *)
Definition summary_lines (fix_mode : bool) (r : results) : list (list string) :=
  [["---"];
   ["Scan complete. Scanned "; pretty (files_scanned r); " files."];
   ["Found "; pretty (issues_found r); " files with UTF-8 issues."]] ++
  (if fix_mode then [["Fixed "; pretty (files_fixed r); " files."]] else []) ++
  (if (0 <? issues_found r)%nat
   then [String "010"%char "Problematic files:"] :: concat (map (problem_lines fix_mode) (problems r))
   else []).

Section MainRun.
Context {St : Type} {FS : FileStore St}.
Local Open Scope io_scope.

(** Lines 103-136. *)
Definition main (a : args) : M unit :=
  let extensions := parse_extensions (arg_extensions a) in
  print_lines (header_lines a extensions) ;;
  results <- scan_directory (arg_directory a) extensions (arg_fix a) ;;
  print_lines (summary_lines (arg_fix a) results).

End MainRun.

(** The files a scan-mode run of [main] in [s] handles, in order. *)
Definition main_candidates {St : Type} {FS : FileStore St} (a : args) (s : St) : list path :=
  walk_paths (S (fs_rank s (arg_directory a))) (parse_extensions (arg_extensions a)) (arg_directory a)
             (tree_of (S (fs_rank s (arg_directory a))) s (arg_directory a)).

(** ** Parsing the extension list *)

Lemma py_split_nonempty (c : Ascii.ascii) (s : string) : py_split c s <> [].
Proof.
  induction s as [|a s IH]; cbn; [discriminate|].
  destruct (Ascii.eqb a c); [discriminate|]. destruct (py_split c s); [contradiction|discriminate].
Qed.

(** [sep.join(s.split(sep)) == s]. *)
Lemma py_split_join (c : Ascii.ascii) (s : string) :
  String.concat (String c "") (py_split c s) = s.
Proof.
  induction s as [|a s IH]; [reflexivity|]. cbn [py_split].
  pose proof (py_split_nonempty c s) as Hne.
  destruct (py_split c s) as [|w ws]; [contradiction|].
  destruct (Ascii.eqb_spec a c) as [->|_].
  - change (String c (String.concat (String c "") (w :: ws)) = String c s). by rewrite IH.
  - destruct ws as [|w' ws]; cbn in IH |- *; [by rewrite IH|].
    rewrite string_app_cons. by rewrite IH.
Qed.

(** A separator at the end leaves an empty last piece. *)
Lemma py_split_trailing (c : Ascii.ascii) (s : string) :
  exists w l, py_split c (s +:+ String c "") = w :: l ++ [""].
Proof.
  induction s as [|a s IH].
  - exists "", []. change ("" +:+ String c "") with (String c ""). cbn [py_split].
    by rewrite Ascii.eqb_refl.
  - rewrite string_app_cons. cbn [py_split]. destruct IH as (w & l & ->).
    destruct (Ascii.eqb a c); [exists "", (w :: l) | exists (String a w), l]; reflexivity.
Qed.

(** The pieces of a split hold no separator. *)
Lemma py_split_pieces (c : Ascii.ascii) (s : string) :
  Forall (fun w => ~ In c (list_ascii_of_string w)) (py_split c s).
Proof.
  induction s as [|a s IH]; cbn [py_split]; [repeat constructor; intros []|].
  destruct (Ascii.eqb_spec a c) as [->|Hne]; [constructor; [intros []|exact IH]|].
  destruct (py_split c s) as [|w ws]; [repeat constructor; intros [H|[]]; congruence|].
  inversion IH as [|? ? Hw Hws]; subst. constructor; [|exact Hws].
  cbn. intros [H|H]; [congruence|exact (Hw H)].
Qed.

(** C35: line 110 splits the option at every comma and nowhere else: the
    items hold no comma, and joined back with [','] they give the option
    as written (no item is lost, altered or stripped). *)
Theorem parse_extensions_roundtrip (s : string) :
  s <> "" ->
  String.concat "," (parse_extensions (Some s)) = s /\
  Forall (fun w => ~ In ","%char (list_ascii_of_string w)) (parse_extensions (Some s)).
Proof.
  intros H. cbn [parse_extensions]. destruct (String.eqb_spec s "") as [->|_]; [contradiction|].
  split; [apply py_split_join|apply py_split_pieces].
Qed.

(** C34: an option with a trailing comma ([-e txt,]) yields the empty
    extension, which every name ends with: the filter of line 70 then
    keeps every file. *)
Theorem trailing_comma_disables_filter (s file : string) :
  ext_ok (parse_extensions (Some (s +:+ ","))) file = true.
Proof.
  cbn [parse_extensions].
  replace (String.eqb (s +:+ ",") "") with false by (destruct s; reflexivity).
  destruct (py_split_trailing ","%char s) as (w & l & Hs). rewrite Hs.
  cbn [ext_ok]. apply existsb_exists. exists "". split; [|apply ends_with_empty].
  right. apply in_or_app. right. left. reflexivity.
Qed.

(** ** The report *)

Section MainProofs.
Context {St : Type} {FS : FileStore St} {FSL : FileStoreLaws St}.

Abbreviation printable ls := (Forall (Forall (fun x => utf8_text x = true)) ls).

Lemma utf8_repr_list (l : list string) : utf8_text (py_repr_list l) = true.
Proof.
  unfold py_repr_list. apply utf8_text_app; [reflexivity|]. apply utf8_text_app; [|reflexivity].
  apply utf8_concat; [reflexivity|]. apply List.Forall_forall. intros x Hx.
  apply in_map_iff in Hx as (y & <- & _). apply utf8_repr.
Qed.

(** The header encodes when the directory does ([str] of the extension
    list escapes what it cannot encode)... *)
Lemma header_ok (a : args) (exts : list string) :
  utf8_text (arg_directory a) = true -> printable (header_lines a exts).
Proof.
  intros Hd. unfold header_lines. repeat constructor; try assumption.
  - destruct exts; [reflexivity|apply utf8_repr_list].
  - destruct (arg_fix a); reflexivity.
Qed.

(** ... and raises at its first line when it does not. *)
Lemma header_err (a : args) (exts : list string) (s : St) :
  utf8_text (arg_directory a) = false ->
  print_lines (header_lines a exts) s = (s, Err (PrintErr (arg_directory a))).
Proof.
  intros Hd. cbn [header_lines print_lines]. unfold bind, print.
  change (utf8_text "Scanning directory: ") with true. cbn [List.find negb]. by rewrite Hd.
Qed.

Lemma summary_ok (fm : bool) (r : results) :
  Forall (fun pr => printable (problem_lines fm pr)) (problems r) -> printable (summary_lines fm r).
Proof.
  intros H. unfold summary_lines. apply Forall_app. split; [repeat constructor; auto with text|].
  apply Forall_app. split; [destruct fm; repeat constructor; auto with text|].
  destruct (0 <? issues_found r)%nat; [|constructor]. constructor; [repeat constructor|].
  apply Forall_concat, List.Forall_map, H.
Qed.

(** A problem of the results is listed in the summary. *)
Lemma summary_lists_problem (fm : bool) (r : results) (pr : problem) :
  issues_found r = length (problems r) -> In pr (problems r) ->
  In ["- "; pr_file pr] (summary_lines fm r).
Proof.
  intros I Hin. unfold summary_lines. rewrite I.
  replace (0 <? length (problems r))%nat with true
    by (symmetry; apply Nat.ltb_lt; destruct (problems r); [done|cbn; lia]).
  apply in_app_iff. right. apply in_app_iff. right. right.
  apply in_concat. exists (problem_lines fm pr). split; [by apply in_map|by left].
Qed.

(** A problem scan mode reports prints only texts that encode, once its
    path does. *)
Lemma reported_printable (s : St) (C : list path) :
  Forall (fun p => utf8_text p = true) C ->
  Forall (fun pr => printable (feedback_lines false pr) /\ printable (problem_lines false pr))
         (omap (report s) C).
Proof.
  intros HC. apply List.Forall_forall. intros pr Hpr.
  apply list_elem_of_In, list_elem_of_omap in Hpr as (p & Hp & Hr).
  destruct (report_texts s p pr Hr) as (Hf & _ & He & Hh).
  assert (Hu : utf8_text (pr_file pr) = true).
  { rewrite Hf. apply (proj1 (List.Forall_forall _ _) HC), list_elem_of_In, Hp. }
  split; repeat constructor; assumption.
Qed.

(** Scan mode when every path it handles encodes: [main] prints the
    header, the feedback of each problem and the summary, and returns. *)
Lemma main_scan_run (a : args) (s : St) :
  arg_fix a = false -> utf8_text (arg_directory a) = true ->
  Forall (fun p => utf8_text p = true) (main_candidates a s) ->
  main a s =
  (fold_left fs_print (map line_text (header_lines a (parse_extensions (arg_extensions a)) ++
     feedback_all false (omap (report s) (main_candidates a s)) ++
     summary_lines false (scan_results s (main_candidates a s) results0))) s, Ok tt).
Proof.
  intros Hfix Hd HC. unfold main. cbv zeta. rewrite Hfix.
  set (exts := parse_extensions _). set (C := main_candidates a s).
  pose proof (reported_printable s C HC) as HP.
  rewrite (bind_ok _ _ _ _ _ (print_lines_ok _ s (header_ok a exts Hd))).
  set (s1 := fold_left fs_print _ s). pose proof (fold_print_disk_eq (map line_text (header_lines a exts)) s) as D1.
  unfold bind at 1. rewrite (scan_directory_scan_from _ _ s s1 D1). unfold scan_spec.
  change (walk_paths _ _ _ _) with C.
  rewrite (omap_report_disk_eq s s1 C D1), (scan_results_disk_eq s s1 C _ D1).
  assert (HF : printable (feedback_all false (omap (report s) C))).
  { apply Forall_concat, List.Forall_map. eapply Forall_impl; [exact HP|]. intros pr []; assumption. }
  rewrite (bind_ok _ _ _ _ _ (print_lines_ok _ s1 HF)).
  unfold ret. cbv beta iota.
  assert (HS : Forall (fun pr => printable (problem_lines false pr)) (problems (scan_results s C results0))).
  { cbn [scan_results problems results0 app]. eapply Forall_impl; [exact HP|]. intros pr []; assumption. }
  rewrite (print_lines_ok _ _ (summary_ok _ _ HS)).
  by rewrite !List.map_app, !fold_left_app.
Qed.

(** C32: [main] raises nothing but the [UnicodeEncodeError] of a [print]
    on a text that is not valid UTF-8; when it returns, the count it
    prints on the ["Found ..."] line is the number of problems
    [scan_directory] returned, each of which it lists under
    ["Problematic files:"], and in fix mode every problem has the
    ['fix_result'] that lines 99 and 133-135 read (so those lookups never
    raise [KeyError]). *)
Theorem main_report_consistent (a : args) (s : St) :
  exists s' o, main a s = (s', o) /\
    match o with
    | Ok _ => exists s1 s2 r,
        print_lines (header_lines a (parse_extensions (arg_extensions a))) s = (s1, Ok tt) /\
        scan_directory (arg_directory a) (parse_extensions (arg_extensions a)) (arg_fix a) s1 = (s2, Ok r) /\
        In (line_text ["Found "; pretty (length (problems r)); " files with UTF-8 issues."]) (fs_stdout s') /\
        Forall (fun pr => In (line_text ["- "; pr_file pr]) (fs_stdout s')) (problems r) /\
        (arg_fix a = true -> Forall (fun pr => is_Some (pr_fix_result pr)) (problems r))
    | Err x => exists p, x = PrintErr p /\ utf8_text p = false
    end.
Proof.
  unfold main. cbv zeta. set (exts := parse_extensions _).
  destruct (print_lines (header_lines a exts) s) as [s1 [[]|x]] eqn:E1.
  2:{ exists s1, (Err x). split; [exact (bind_err _ _ _ _ _ E1)|exact (print_lines_outcome _ _ _ _ E1)]. }
  rewrite (bind_ok _ _ _ _ _ E1).
  destruct (scan_directory_some (arg_directory a) exts (arg_fix a) s1) as (s2 & [r|x] & C & E2 & _ & X).
  2:{ exists s2, (Err x). split; [exact (bind_err _ _ _ _ _ E2)|]. destruct X as (p & -> & _ & Hu). eauto. }
  rewrite (bind_ok _ _ _ _ _ E2).
  destruct (print_lines (summary_lines (arg_fix a) r) s2) as [s' [[]|x]] eqn:E3.
  2:{ exists s', (Err x). split; [done|exact (print_lines_outcome _ _ _ _ E3)]. }
  exists s', (Ok tt). split; [done|]. exists s1, s2, r. split; [done|]. split; [done|].
  destruct (results_consistent _ _ _ _ X) as (I & _ & W).
  rewrite (print_lines_ok_state _ _ _ E3), fold_print_stdout. split; [|split].
  - apply in_or_app. right. apply in_map. rewrite <- I. apply in_or_app. left. right. right. by left.
  - apply List.Forall_forall. intros pr Hpr. apply in_or_app. right. apply in_map.
    exact (summary_lists_problem _ _ _ I Hpr).
  - intros Hf. eapply Forall_impl; [exact W|]. intros pr Hp. by apply Hp.
Qed.

(** C33: when the directory given with [-d] cannot be listed (it does not
    exist, or is not a directory, or is unreadable), [main] prints the
    header and a summary of zero files, exactly as for an empty tree, and
    returns; it changes no file.  If the directory's name is not valid
    UTF-8 it raises [UnicodeEncodeError] at the first line instead. *)
Theorem main_missing_directory (a : args) (s : St) (e : io_error) :
  fs_listdir s (arg_directory a) = Err e ->
  main a s =
    if utf8_text (arg_directory a)
    then (fold_left fs_print (map line_text (header_lines a (parse_extensions (arg_extensions a)) ++
                                            summary_lines (arg_fix a) results0)) s, Ok tt)
    else (s, Err (PrintErr (arg_directory a))).
Proof.
  intros E. unfold main. cbv zeta. set (exts := parse_extensions _).
  destruct (utf8_text (arg_directory a)) eqn:Hd; [|exact (bind_err _ _ _ _ _ (header_err a _ s Hd))].
  rewrite (bind_ok _ _ _ _ _ (print_lines_ok _ s (header_ok a exts Hd))).
  set (s1 := fold_left fs_print _ s).
  assert (E1 : fs_listdir s1 (arg_directory a) = Err e).
  { rewrite (disk_eq_listdir s s1); [exact E|apply fold_print_disk_eq]. }
  rewrite (bind_ok (scan_directory _ _ _) _ s1 s1 results0 (os_walk_unlisted _ _ _ _ results0 s1 e E1)).
  rewrite (print_lines_ok _ s1 (summary_ok (arg_fix a) results0 (List.Forall_nil _))).
  by rewrite List.map_app, fold_left_app.
Qed.

(** The message a decode issue carries is [str(e)]. *)
Lemma issue_error_decode (b : list Byte.byte) (e : decode_error) :
  issue_error (decode_issue b e) = str_decode_error b e.
Proof. unfold decode_issue. by destruct (context_window b e). Qed.

(** C14: end to end, in scan mode [main] names every bad file: when the
    directory and every path it handles are valid UTF-8, a file listed
    when the run starts in a directory the walk reaches, passing the [-e]
    filter, of at most 5 MiB and failing strict decoding, gets its
    ["Issue found in ..."] line with Python's message and its ["- "]
    entry under ["Problematic files:"]; [main] returns and changes no
    file. *)
Theorem main_lists_bad_file (a : args) (s : St) (D file : path) (files dirs : list string)
    (n : nat) (b : list Byte.byte) (e : decode_error) :
  arg_fix a = false -> utf8_text (arg_directory a) = true ->
  Forall (fun p => utf8_text p = true) (main_candidates a s) ->
  In D (walk_dirs (S (fs_rank s (arg_directory a))) (arg_directory a)
                  (tree_of (S (fs_rank s (arg_directory a))) s (arg_directory a))) ->
  fs_listdir s D = Ok (files, dirs) -> In file files ->
  ext_ok (parse_extensions (arg_extensions a)) file = true ->
  fs_getsize s (path_join D file) = Ok n -> (n <= max_size)%nat ->
  fs_read s (path_join D file) = Ok b -> decode_utf8 Strict b = Some (Err e) ->
  exists s', main a s = (s', Ok tt) /\ disk_eq s s' /\
    In (line_text ["Issue found in "; path_join D file; ": "; str_decode_error b e]) (fs_stdout s') /\
    In (line_text ["- "; path_join D file]) (fs_stdout s').
Proof.
  intros Hf Hdir HC HD E Hin He Hn Hmax Hb Hd.
  pose proof (scan_results_bad_file _ _ s D file files dirs n b e HD E Hin He Hn Hmax Hb Hd) as Hp.
  fold (main_candidates a s) in Hp. set (C := main_candidates a s) in *.
  eexists. split; [exact (main_scan_run a s Hf Hdir HC)|]. split; [apply fold_print_disk_eq|].
  rewrite fold_print_stdout, !List.map_app. split; apply in_or_app; right; apply in_or_app; right.
  - apply in_or_app. left. apply in_map. cbn [scan_results problems results0 app] in Hp.
    apply in_concat. eexists. split; [apply in_map, Hp|]. unfold feedback_lines. cbn [pr_file pr_issue].
    rewrite issue_error_decode. by left.
  - apply in_or_app. right. apply in_map.
    apply (summary_lists_problem false _ (mk_problem (path_join D file) (decode_issue b e) None));
      [cbn; lia|exact Hp].
Qed.

End MainProofs.

(** A store whose only directory [r] cannot be listed is [sample_fs]
    asked for ["nowhere"]. *)
Lemma main_missing_directory_witness :
  fs_listdir sample_fs "nowhere" = Err (mk_io_error ENOENT (Some "nowhere")) /\
  main (mk_args "nowhere" None false) sample_fs =
    (mk_st (st_files sample_fs) (st_dirs sample_fs) ∅ ∅
       ["Scanning directory: nowhere"; "File extensions: all"; "Fix mode: disabled";
        "---"; "---"; "Scan complete. Scanned 0 files."; "Found 0 files with UTF-8 issues."], Ok tt).
Proof.
  split; [reflexivity|].
  rewrite (main_missing_directory (FS:=store_fs) (mk_args "nowhere" None false) sample_fs
             (mk_io_error ENOENT (Some "nowhere")) ltac:(reflexivity)).
  reflexivity.
Defined.

Lemma main_lists_bad_file_witness :
  exists s', main (mk_args "r" (Some ".txt") false) sample_fs = (s', Ok tt) /\ disk_eq sample_fs s' /\
    In (line_text ["Issue found in "; path_join "r" "b.txt"; ": ";
                   str_decode_error [Byte.x41; Byte.xff] (mk_decode_error 1 2 InvalidStartByte)])
       (fs_stdout s') /\
    In (line_text ["- "; path_join "r" "b.txt"]) (fs_stdout s').
Proof.
  eapply (main_lists_bad_file (FS:=store_fs) (mk_args "r" (Some ".txt") false) sample_fs "r" "b.txt"
            _ _ 2 [Byte.x41; Byte.xff] (mk_decode_error 1 2 InvalidStartByte));
    [reflexivity | reflexivity | apply List.Forall_forall, List.forallb_forall; vm_compute; reflexivity
    | vm_compute; auto | reflexivity
    | vm_compute; tauto | reflexivity | reflexivity
    | apply Nat.leb_le; vm_compute; reflexivity | reflexivity | reflexivity].
Defined.

Lemma main_report_consistent_witness :
  exists s' o, main (mk_args "r" (Some ".txt") true) sample_fs = (s', o) /\
    match o with
    | Ok _ => exists s1 s2 r,
        print_lines (header_lines (mk_args "r" (Some ".txt") true) (parse_extensions (Some ".txt")))
          sample_fs = (s1, Ok tt) /\
        scan_directory "r" (parse_extensions (Some ".txt")) true s1 = (s2, Ok r) /\
        In (line_text ["Found "; pretty (length (problems r)); " files with UTF-8 issues."]) (fs_stdout s') /\
        Forall (fun pr => In (line_text ["- "; pr_file pr]) (fs_stdout s')) (problems r) /\
        (true = true -> Forall (fun pr => is_Some (pr_fix_result pr)) (problems r))
    | Err x => exists p, x = PrintErr p /\ utf8_text p = false
    end.
Proof. exact (main_report_consistent (FS:=store_fs) (mk_args "r" (Some ".txt") true) sample_fs). Defined.

Lemma parse_extensions_roundtrip_witness :
  ".txt,.py" <> "" /\
  String.concat "," (parse_extensions (Some ".txt,.py")) = ".txt,.py" /\
  Forall (fun w => ~ In ","%char (list_ascii_of_string w)) (parse_extensions (Some ".txt,.py")).
Proof. split; [discriminate|]. apply (parse_extensions_roundtrip ".txt,.py"). discriminate. Defined.

End Main.
